(** * drake/perception/point_cloud.cc: a shallow embedding

    The point cloud container of Drake's perception library: a variable
    number of 3D points, each optionally carrying a normal, a colour and a
    descriptor vector, with the operations that create, resize, copy, crop,
    concatenate and down-sample such clouds.

    Conventions of the embedding:
    - [int] is a [Z]; arithmetic that can leave the 32-bit range is checked
      and reported as undefined behaviour;
    - [float] and [double] are IEEE 754 binary32 and binary64 values, written
      as [spec_float] and computed with the Standard Library's [SpecFloat]
      operations (round to nearest, ties to even);
    - an Eigen matrix with a dynamic number of columns is its row count and
      the list of its columns;
    - a function that can throw or abort returns a [result]; a member
      function that mutates the cloud returns the [result] together with the
      cloud as it is left, also when it fails. *)

From Stdlib Require Import ZArith Zpower Lia Bool.
From Stdlib Require Import Floats.SpecFloat.
From stdpp Require Import base numbers list gmap strings sorting.

Local Open Scope Z_scope.

(** ** Failures *)

(** How a call can fail. [RuntimeError] is a thrown [std::runtime_error];
    [ThrowUnless] is a failed [DRAKE_THROW_UNLESS] (an exception);
    [DemandFailed] is a failed [DRAKE_DEMAND] (the process aborts);
    [EigenAssert] is a violated precondition of an Eigen call;
    [UndefinedBehaviour] is arithmetic the C++ standard leaves undefined. *)
Inductive failure : Type :=
  | RuntimeError (what : string)
  | ThrowUnless (condition : string)
  | DemandFailed (condition : string)
  | EigenAssert (what : string)
  | UndefinedBehaviour (what : string).

Inductive result (A : Type) : Type :=
  | Ok (a : A)
  | Fail (f : failure).
Arguments Ok {A} a.
Arguments Fail {A} f.

#[global] Instance result_ret : MRet result := fun A a => Ok a.
#[global] Instance result_bind : MBind result := fun A B k r =>
  match r with
  | Ok a => k a
  | Fail f => Fail f
  end.

Definition is_ok {A} (r : result A) : bool :=
  match r with Ok _ => true | Fail _ => false end.

(** An exception, as opposed to an abort or undefined behaviour. *)
Definition is_exception (f : failure) : bool :=
  match f with
  | RuntimeError _ | ThrowUnless _ => true
  | _ => false
  end.

Definition throws {A} (r : result A) : bool :=
  match r with Ok _ => false | Fail f => is_exception f end.

Definition DRAKE_DEMAND (condition : bool) (text : string) : result unit :=
  if condition then Ok tt else Fail (DemandFailed text).

Definition DRAKE_THROW_UNLESS (condition : bool) (text : string) : result unit :=
  if condition then Ok tt else Fail (ThrowUnless text).

(** ** Machine integers *)

Definition INT_MAX : Z := 2147483647.
Definition INT_MIN : Z := -2147483648.

Definition in_int (z : Z) : bool := (INT_MIN <=? z) && (z <=? INT_MAX).

(** Signed [int] addition: overflow is undefined behaviour. *)
Definition int_add (a b : Z) : result Z :=
  if in_int (a + b) then Ok (a + b)
  else Fail (UndefinedBehaviour "signed integer overflow").

(** ** Floating point *)

Definition float := spec_float.
Definition double := spec_float.

Module F32.
Definition prec : Z := 24.
Definition emax : Z := 128.
Definition sub : float -> float -> float := SFsub prec emax.
Definition div : float -> float -> float := SFdiv prec emax.
(** Conversion of a [double] to [float]: rounds the value. *)
Definition of_double (d : double) : float :=
  match d with
  | S754_finite s m e => binary_round prec emax s m e
  | _ => d
  end.
End F32.

Module F64.
Definition prec : Z := 53.
Definition emax : Z := 1024.
Definition zero : double := S754_zero false.
Definition add : double -> double -> double := SFadd prec emax.
Definition div : double -> double -> double := SFdiv prec emax.
(** Conversion of a [float] to [double]: exact. *)
Definition of_float (x : float) : double :=
  match x with
  | S754_finite s m e => binary_round prec emax s m e
  | _ => x
  end.
(** Conversion of an integer ([int], [size_t]) to [double]. *)
Definition of_Z (z : Z) : double := binary_normalize prec emax z 0 false.
End F64.

Definition infinity : float := S754_infinity false.

(** [std::isfinite]. *)
Definition isFinite (x : spec_float) : bool :=
  match x with
  | S754_zero _ | S754_finite _ _ _ => true
  | S754_infinity _ | S754_nan => false
  end.

(** [std::min(a, b)]: [b] when [b < a], otherwise [a]. *)
Definition std_min (a b : float) : float := if SFltb b a then b else a.

(** The integer part of a finite value, rounded toward zero. *)
Definition truncate (x : spec_float) : option Z :=
  match x with
  | S754_zero _ => Some 0
  | S754_finite s m e => Some (cond_Zopp s (Z.shiftl (Z.pos m) e))
  | S754_infinity _ | S754_nan => None
  end.

(** [static_cast<int>] of a floating-point value: truncation toward zero,
    undefined when the truncated value is not an [int]. *)
Definition cast_int (x : spec_float) : result Z :=
  match truncate x with
  | Some z =>
      if in_int z then Ok z
      else Fail (UndefinedBehaviour "float to int conversion out of range")
  | None => Fail (UndefinedBehaviour "float to int conversion of a non-finite value")
  end.

(** ** Field sets *)

Module pc_flags.

(** Modelled from the spec: the field-set type [pc_flags::Fields] and the
    descriptor types are declared in point_cloud_flags.h, which is not among
    the sources.  The spec describes a field set as a fixed bitmask for the
    built-in kinds together with a named descriptor kind of fixed
    dimensionality, with the sentinels [kNone] (empty) and [kInherit], and
    with containment and exact equality; point_cloud.cc reads one
    descriptor type per field set ([descriptor_type()], [has_descriptor()]). *)
Record DescriptorType : Type := mkDescriptorType {
  size : nat;
  name : string;
}.

#[global] Instance DescriptorType_eq_dec : EqDecision DescriptorType.
Proof. solve_decision. Defined.

Definition kDescriptorNone : DescriptorType :=
  {| size := 0; name := "kDescriptorNone" |}.

Record Fields : Type := mkFields {
  base_fields : Z;
  descriptor_type : DescriptorType;
}.

#[global] Instance Fields_eq_dec : EqDecision Fields.
Proof. solve_decision. Defined.

Definition kNone : Z := 0.
Definition kInherit : Z := 1.
Definition kXYZs : Z := 2.
Definition kNormals : Z := 4.
Definition kRGBs : Z := 8.

(** The implicit conversion of a base field mask to a field set. *)
Definition base (b : Z) : Fields :=
  {| base_fields := b; descriptor_type := kDescriptorNone |}.

(** The implicit conversion of a descriptor type to a field set. *)
Definition descriptor (d : DescriptorType) : Fields :=
  {| base_fields := kNone; descriptor_type := d |}.

Definition has_descriptor (f : Fields) : bool :=
  bool_decide (descriptor_type f ≠ kDescriptorNone).

(** Intersection: the common base fields, and the descriptor type when both
    sides carry the same one. *)
Definition and (a b : Fields) : Fields :=
  {| base_fields := Z.land (base_fields a) (base_fields b);
     descriptor_type :=
       if bool_decide (descriptor_type a = descriptor_type b)
       then descriptor_type a else kDescriptorNone |}.

Definition eqb (a b : Fields) : bool := bool_decide (a = b).

(** [a.contains(b)]: every field of [b] is a field of [a]. *)
Definition contains (a b : Fields) : bool := eqb (and a b) b.

(** The values a [Fields] object can hold: the base mask uses the four
    declared bits only. *)
Definition valid (f : Fields) : Prop := 0 <= base_fields f < 16.

End pc_flags.

Import pc_flags (Fields, DescriptorType).

(** ** Eigen matrices with a dynamic number of columns *)

Record Mat (A : Type) : Type := mkMat {
  rows : nat;
  columns : list (list A);
}.
Arguments mkMat {A} rows columns.
Arguments rows {A} m.
Arguments columns {A} m.

Definition cols {A} (m : Mat A) : Z := Z.of_nat (length (columns m)).

Module Eigen.
Section Eigen.
Context {A : Type}.

(** Columns [start, start + count) of freshly allocated storage: whatever
    the memory holds, given by [uninit column row]. *)
Definition fresh (uninit : nat → nat → A) (r start count : nat) : list (list A) :=
  (λ j, uninit j <$> seq 0 r) <$> seq start count.

(** [m.conservativeResize(NoChange, new_cols)]: the common columns are
    kept, added columns are not initialised. *)
Definition conservativeResize (uninit : nat → nat → A) (new_cols : Z) (m : Mat A)
    : result (Mat A) :=
  if new_cols <? 0 then Fail (EigenAssert "conservativeResize: cols >= 0")
  else
    let n := Z.to_nat new_cols in
    let old := length (columns m) in
    Ok {| rows := rows m;
          columns := take n (columns m) ++ fresh uninit (rows m) old (n - old) |}.

Definition block_ok (start num : Z) (m : Mat A) : bool :=
  (0 <=? start) && (0 <=? num) && (start + num <=? cols m).

(** [m.middleCols(start, num).setConstant(value)]. *)
Definition setConstant (start num : Z) (value : A) (m : Mat A) : result (Mat A) :=
  if block_ok start num m then
    Ok {| rows := rows m;
          columns := take (Z.to_nat start) (columns m)
                     ++ replicate (Z.to_nat num) (replicate (rows m) value)
                     ++ drop (Z.to_nat (start + num)) (columns m) |}
  else Fail (EigenAssert "middleCols: block out of range").

(** [m.middleCols(start, num) = src]. *)
Definition assign_middleCols (start num : Z) (src : Mat A) (m : Mat A) : result (Mat A) :=
  if block_ok start num m && bool_decide (rows src = rows m) && (cols src =? num) then
    Ok {| rows := rows m;
          columns := take (Z.to_nat start) (columns m)
                     ++ columns src
                     ++ drop (Z.to_nat (start + num)) (columns m) |}
  else Fail (EigenAssert "middleCols: block assignment of a different size").

(** [m.col(i)], read. *)
Definition col (i : Z) (m : Mat A) : result (list A) :=
  if (0 <=? i) && (i <? cols m) then
    match columns m !! Z.to_nat i with
    | Some c => Ok c
    | None => Fail (EigenAssert "col: index out of range")
    end
  else Fail (EigenAssert "col: index out of range").

(** [m.col(i) = c]. *)
Definition assign_col (i : Z) (c : list A) (m : Mat A) : result (Mat A) :=
  if (0 <=? i) && (i <? cols m) && bool_decide (length c = rows m) then
    Ok {| rows := rows m; columns := <[Z.to_nat i := c]> (columns m) |}
  else Fail (EigenAssert "col: assignment out of range").

(** [ref = src] through an [Eigen::Ref]: the sizes must agree. *)
Definition assign (src : Mat A) (m : Mat A) : result (Mat A) :=
  if bool_decide (rows src = rows m) && (cols src =? cols m) then
    Ok {| rows := rows m; columns := columns src |}
  else Fail (EigenAssert "Ref assignment of a different size").
End Eigen.
End Eigen.

(** ** What the platform and the missing header supply *)

(** [PointCloud::T] is [float] (the minimum of [VoxelizedDownSample] is taken
    with [std::min] against an [Eigen::Vector3f]); descriptors are stored
    with the same scalar. *)
Definition T : Type := float.
Definition D : Type := T.

(** A voxel coordinate, [Eigen::Vector3i]. *)
Definition Vector3i : Type := Z * Z * Z.

(** The colour scalar [PointCloud::C] and the default colour are declared in
    point_cloud.h, which is not among the sources: they are parameters, with
    the conversions of a colour to and from [double].  [uninit_T] and
    [uninit_C] give the contents of memory that has been allocated and not
    written, by column and row.  [iteration] is the order in which the hash
    map of [VoxelizedDownSample] is traversed: some order of its entries. *)
Class Platform : Type := {
  C : Type;
  kDefaultColor : C;
  C_to_double : C → double;
  double_to_C : double → C;
  uninit_T : nat → nat → T;
  uninit_C : nat → nat → C;
  iteration : gmap Vector3i (list Z) → list (Vector3i * list Z);
  iteration_perm : ∀ m, iteration m ≡ₚ map_to_list m;
}.

(** Modelled from the spec: [PointCloud::kDefaultValue] is declared in
    point_cloud.h, which is not among the sources; the spec documents the
    default of positions, normals and descriptors as the zero vector. *)
Definition kDefaultValue : T := S754_zero false.

(** ** Storage *)

Module Storage.
Section Storage.
Context `{Platform}.

Record t : Type := mk {
  fields_ : Fields;
  size_ : Z;
  xyzs_ : Mat T;
  normals_ : Mat T;
  rgbs_ : Mat C;
  descriptors_ : Mat T;
}.

Definition size (s : t) : Z := size_ s.

Definition CheckInvariants (s : t) : result unit :=
  (if pc_flags.contains (fields_ s) (pc_flags.base pc_flags.kXYZs)
   then DRAKE_DEMAND (cols (xyzs_ s) =? size s) "xyz_size == size()" else Ok tt);;
  (if pc_flags.contains (fields_ s) (pc_flags.base pc_flags.kNormals)
   then DRAKE_DEMAND (cols (normals_ s) =? size s) "normals_size == size()" else Ok tt);;
  (if pc_flags.contains (fields_ s) (pc_flags.base pc_flags.kRGBs)
   then DRAKE_DEMAND (cols (rgbs_ s) =? size s) "rgbs_size == size()" else Ok tt);;
  (if pc_flags.has_descriptor (fields_ s)
   then DRAKE_DEMAND (cols (descriptors_ s) =? size s) "descriptor_size == size()" else Ok tt).

Definition resize (new_size : Z) (s : t) : result t :=
  xyzs ← (if pc_flags.contains (fields_ s) (pc_flags.base pc_flags.kXYZs)
          then Eigen.conservativeResize uninit_T new_size (xyzs_ s) else Ok (xyzs_ s));
  normals ← (if pc_flags.contains (fields_ s) (pc_flags.base pc_flags.kNormals)
             then Eigen.conservativeResize uninit_T new_size (normals_ s) else Ok (normals_ s));
  rgbs ← (if pc_flags.contains (fields_ s) (pc_flags.base pc_flags.kRGBs)
          then Eigen.conservativeResize uninit_C new_size (rgbs_ s) else Ok (rgbs_ s));
  descriptors ← (if pc_flags.has_descriptor (fields_ s)
                 then Eigen.conservativeResize uninit_T new_size (descriptors_ s)
                 else Ok (descriptors_ s));
  let s' := mk (fields_ s) new_size xyzs normals rgbs descriptors in
  CheckInvariants s';;
  Ok s'.

(** [Storage(new_size, fields)]: the three fixed-height matrices start with
    no column, the descriptor matrix is given its height, then all present
    matrices are resized. *)
Definition make (new_size : Z) (fields : Fields) : result t :=
  resize new_size
    (mk fields 0 (mkMat 3 []) (mkMat 3 []) (mkMat 3 [])
        (mkMat (pc_flags.size (pc_flags.descriptor_type fields)) [])).
End Storage.
End Storage.

(** ** PointCloud *)

Section PointCloud.
Context `{Platform}.

Record PointCloud : Type := mkPointCloud {
  size_ : Z;
  fields_ : Fields;
  storage_ : Storage.t;
}.

Definition size (c : PointCloud) : Z := size_ c.
Definition fields (c : PointCloud) : Fields := fields_ c.

(** A member function that may mutate the cloud: its result and the cloud
    as it leaves it. *)
Definition method (A : Type) : Type := PointCloud → result A * PointCloud.

#[global] Instance method_ret : MRet method := λ A a c, (Ok a, c).
#[global] Instance method_bind : MBind method := λ A B k m c,
  match m c with
  | (Ok a, c') => k a c'
  | (Fail f, c') => (Fail f, c')
  end.

(** A failing step that leaves the cloud as it is. *)
Definition lift {A} (r : result A) : method A := λ c, (r, c).

(** The cloud a sequence of mutations of a local object produces. *)
Definition exec {A} (m : method A) (c : PointCloud) : result PointCloud :=
  match m c with
  | (Ok _, c') => Ok c'
  | (Fail f, _) => Fail f
  end.

Definition has_xyzs (c : PointCloud) : bool :=
  pc_flags.contains (fields_ c) (pc_flags.base pc_flags.kXYZs).
Definition has_normals (c : PointCloud) : bool :=
  pc_flags.contains (fields_ c) (pc_flags.base pc_flags.kNormals).
Definition has_rgbs (c : PointCloud) : bool :=
  pc_flags.contains (fields_ c) (pc_flags.base pc_flags.kRGBs).
Definition has_descriptors (c : PointCloud) : bool :=
  pc_flags.has_descriptor (fields_ c).

Definition xyzs (c : PointCloud) : result (Mat T) :=
  DRAKE_DEMAND (has_xyzs c) "has_xyzs()";; Ok (Storage.xyzs_ (storage_ c)).
Definition normals (c : PointCloud) : result (Mat T) :=
  DRAKE_DEMAND (has_normals c) "has_normals()";; Ok (Storage.normals_ (storage_ c)).
Definition rgbs (c : PointCloud) : result (Mat C) :=
  DRAKE_DEMAND (has_rgbs c) "has_rgbs()";; Ok (Storage.rgbs_ (storage_ c)).
Definition descriptors (c : PointCloud) : result (Mat D) :=
  DRAKE_DEMAND (has_descriptors c) "has_descriptors()";;
  Ok (Storage.descriptors_ (storage_ c)).

Definition with_storage (s : Storage.t) (c : PointCloud) : PointCloud :=
  mkPointCloud (size_ c) (fields_ c) s.

(** The cloud with one of its buffers replaced. *)
Definition set_xyzs (m : Mat T) (c : PointCloud) : PointCloud :=
  let s := storage_ c in
  with_storage
    (Storage.mk (Storage.fields_ s) (Storage.size_ s) m (Storage.normals_ s)
                (Storage.rgbs_ s) (Storage.descriptors_ s)) c.
Definition set_normals (m : Mat T) (c : PointCloud) : PointCloud :=
  let s := storage_ c in
  with_storage
    (Storage.mk (Storage.fields_ s) (Storage.size_ s) (Storage.xyzs_ s) m
                (Storage.rgbs_ s) (Storage.descriptors_ s)) c.
Definition set_rgbs (m : Mat C) (c : PointCloud) : PointCloud :=
  let s := storage_ c in
  with_storage
    (Storage.mk (Storage.fields_ s) (Storage.size_ s) (Storage.xyzs_ s)
                (Storage.normals_ s) m (Storage.descriptors_ s)) c.
Definition set_descriptors (m : Mat D) (c : PointCloud) : PointCloud :=
  let s := storage_ c in
  with_storage
    (Storage.mk (Storage.fields_ s) (Storage.size_ s) (Storage.xyzs_ s)
                (Storage.normals_ s) (Storage.rgbs_ s) m) c.

(** The mutable views: [mutable_xyzs()] and the like, followed by the
    write [f] made through the view. *)
Definition mutable_xyzs (f : Mat T → result (Mat T)) : method unit := λ c,
  match DRAKE_DEMAND (has_xyzs c) "has_xyzs()";; f (Storage.xyzs_ (storage_ c)) with
  | Ok m => (Ok tt, set_xyzs m c)
  | Fail e => (Fail e, c)
  end.
Definition mutable_normals (f : Mat T → result (Mat T)) : method unit := λ c,
  match DRAKE_DEMAND (has_normals c) "has_normals()";; f (Storage.normals_ (storage_ c)) with
  | Ok m => (Ok tt, set_normals m c)
  | Fail e => (Fail e, c)
  end.
Definition mutable_rgbs (f : Mat C → result (Mat C)) : method unit := λ c,
  match DRAKE_DEMAND (has_rgbs c) "has_rgbs()";; f (Storage.rgbs_ (storage_ c)) with
  | Ok m => (Ok tt, set_rgbs m c)
  | Fail e => (Fail e, c)
  end.
Definition mutable_descriptors (f : Mat D → result (Mat D)) : method unit := λ c,
  match DRAKE_DEMAND (has_descriptors c) "has_descriptors()";;
        f (Storage.descriptors_ (storage_ c)) with
  | Ok m => (Ok tt, set_descriptors m c)
  | Fail e => (Fail e, c)
  end.

(** [if (condition) body], the condition read from the cloud. *)
Definition when (condition : PointCloud → bool) (body : method unit) : method unit :=
  λ c, if condition c then body c else (Ok tt, c).

Definition SetDefault (start num : Z) : method unit :=
  when has_xyzs (mutable_xyzs (Eigen.setConstant start num kDefaultValue));;
  when has_normals (mutable_normals (Eigen.setConstant start num kDefaultValue));;
  when has_rgbs (mutable_rgbs (Eigen.setConstant start num kDefaultColor));;
  when has_descriptors (mutable_descriptors (Eigen.setConstant start num kDefaultValue)).

(** [PointCloud(new_size, fields, skip_initialize)]. *)
Definition PointCloud_new (new_size : Z) (fields : Fields) (skip_initialize : bool)
    : result PointCloud :=
  if pc_flags.eqb fields (pc_flags.base pc_flags.kNone) then
    Fail (RuntimeError "Cannot construct a PointCloud without fields")
  else if pc_flags.contains fields (pc_flags.base pc_flags.kInherit) then
    Fail (RuntimeError "Cannot construct a PointCloud with kInherit")
  else
    s ← Storage.make new_size fields;
    let c := mkPointCloud new_size fields s in
    if skip_initialize then Ok c else exec (SetDefault 0 new_size) c.

Definition resize (new_size : Z) (skip_initialization : bool) : method unit := λ c,
  match DRAKE_DEMAND (0 <=? new_size) "new_size >= 0" with
  | Fail e => (Fail e, c)
  | Ok _ =>
      let old_size := size c in
      match Storage.resize new_size (storage_ c) with
      | Fail e => (Fail e, mkPointCloud new_size (fields_ c) (storage_ c))
      | Ok s =>
          let c' := mkPointCloud new_size (fields_ c) s in
          match DRAKE_DEMAND (Storage.size s =? new_size) "storage_->size() == new_size" with
          | Fail e => (Fail e, c')
          | Ok _ =>
              if (old_size <? new_size) && negb skip_initialization then
                let size_diff := new_size - old_size in
                SetDefault old_size size_diff c'
              else (Ok tt, c')
          end
      end
  end.

Definition Expand (add_size : Z) (skip_initialization : bool) : method unit := λ c,
  match DRAKE_DEMAND (0 <=? add_size) "add_size >= 0";; int_add (size c) add_size with
  | Fail e => (Fail e, c)
  | Ok new_size => resize new_size skip_initialization c
  end.

Definition HasFields (fields_in : Fields) (c : PointCloud) : result bool :=
  DRAKE_DEMAND (negb (pc_flags.contains fields_in (pc_flags.base pc_flags.kInherit)))
               "!fields_in.contains(pc_flags::kInherit)";;
  Ok (pc_flags.contains (fields_ c) fields_in).

Definition RequireFields (fields_in : Fields) (c : PointCloud) : result unit :=
  HasFields fields_in c ≫= λ b : bool,
  if b then Ok tt
  else Fail (RuntimeError "PointCloud does not have expected fields.").

Definition HasExactFields (fields_in : Fields) (c : PointCloud) : bool :=
  pc_flags.eqb (fields c) fields_in.

Definition RequireExactFields (fields_in : Fields) (c : PointCloud) : result unit :=
  if HasExactFields fields_in c then Ok tt
  else Fail (RuntimeError "PointCloud does not have the exact expected fields.").

Definition ResolveFields (other : PointCloud) (fields : Fields) : Fields :=
  if pc_flags.eqb fields (pc_flags.base pc_flags.kInherit) then fields_ other
  else fields.

(** Resolves the fields from a pair of point clouds and desired fields. *)
Definition ResolvePairFields (a b : PointCloud) (fields : Fields) : result Fields :=
  if pc_flags.eqb fields (pc_flags.base pc_flags.kInherit) then
    RequireExactFields (fields_ b) a;;
    Ok (fields_ a)
  else
    RequireFields fields a;;
    RequireFields fields b;;
    Ok fields.

(** The four guarded assignments that end [SetFrom]. *)
Definition copy_fields_from (other : PointCloud) (fields_resolved : Fields)
    : method unit :=
  (if pc_flags.contains fields_resolved (pc_flags.base pc_flags.kXYZs)
   then src ← lift (xyzs other); mutable_xyzs (Eigen.assign src) else mret tt);;
  (if pc_flags.contains fields_resolved (pc_flags.base pc_flags.kNormals)
   then src ← lift (normals other); mutable_normals (Eigen.assign src) else mret tt);;
  (if pc_flags.contains fields_resolved (pc_flags.base pc_flags.kRGBs)
   then src ← lift (rgbs other); mutable_rgbs (Eigen.assign src) else mret tt);;
  (if pc_flags.has_descriptor fields_resolved
   then src ← lift (descriptors other); mutable_descriptors (Eigen.assign src)
   else mret tt).

(** [SetFrom(other, fields_in, allow_resize)]; the header gives
    [fields_in] the default [kInherit] and [allow_resize] the default
    [true], and [resize] the default [skip_initialization = false]. *)
Definition SetFrom (other : PointCloud) (fields_in : Fields) (allow_resize : bool)
    : method unit := λ c,
  let old_size := size c in
  let new_size := size other in
  ((if allow_resize then resize new_size false
    else if negb (new_size =? old_size) then
      lift (Fail (RuntimeError "SetFrom: sizes differ"))
    else mret tt);;
   fields_resolved ← (λ c', (ResolvePairFields c' other fields_in, c'));
   copy_fields_from other fields_resolved) c.

Definition Inherit : Fields := pc_flags.base pc_flags.kInherit.

(** [PointCloud(const PointCloud& other, pc_flags::Fields copy_fields)]. *)
Definition PointCloud_copy (other : PointCloud) (copy_fields : Fields)
    : result PointCloud :=
  c ← PointCloud_new (size other) (ResolveFields other copy_fields) false;
  exec (SetFrom other Inherit true) c.

(** [PointCloud(PointCloud&& other)]: the new cloud and [other] as it is
    left. *)
Definition PointCloud_move (other : PointCloud) : result (PointCloud * PointCloud) :=
  c ← PointCloud_new 0 (fields other) true;
  let this' := mkPointCloud (size_ other) (fields_ c) (storage_ other) in
  let other' := mkPointCloud (size_ c) (fields_ other) (storage_ c) in
  DRAKE_DEMAND (Storage.size (storage_ this') =? size this') "storage_->size() == size()";;
  Ok (this', other').

(** [operator=(const PointCloud& other)]. *)
Definition assign_copy (other : PointCloud) : method unit :=
  SetFrom other Inherit true.

(** [operator=(PointCloud&& other)]: the result, the receiver and [other]
    as they are left. *)
Definition assign_move (other : PointCloud) (c : PointCloud)
    : result unit * (PointCloud * PointCloud) :=
  match RequireExactFields (fields other) c with
  | Fail e => (Fail e, (c, other))
  | Ok _ =>
      let this' := mkPointCloud (size_ other) (fields_ c) (storage_ other) in
      let other' := mkPointCloud (size_ other) (fields_ other) (storage_ c) in
      match DRAKE_DEMAND (Storage.size (storage_ this') =? size this')
                         "storage_->size() == size()" with
      | Fail e => (Fail e, (this', other'))
      | Ok _ =>
          let '(r, other'') := resize 0 false other' in
          (r, (this', other''))
      end
  end.

(** A [for] loop over [l] that threads the loop state through a body that
    may fail. *)
Fixpoint for_each {A S : Type} (body : A → S → result S) (l : list A) (s : S)
    : result S :=
  match l with
  | [] => Ok s
  | a :: l' => s' ← body a s; for_each body l' s'
  end.

(** Coefficient-wise comparisons of two arrays, followed by [.all()]. *)
Definition SFgeb (a b : spec_float) : bool :=
  match SFcompare a b with
  | Some (Gt | Eq) => true
  | _ => false
  end.
Definition array_le (a b : list T) : bool :=
  forallb (λ p, SFleb p.1 p.2) (zip a b).
Definition array_ge (a b : list T) : bool :=
  forallb (λ p, SFgeb p.1 p.2) (zip a b).

Definition in_box (lower_xyz upper_xyz p : list T) : bool :=
  array_ge p lower_xyz && array_le p upper_xyz.

(** One iteration of the loop of [Crop]: the state is the cloud under
    construction and [index]. *)
Definition Crop_body (this : PointCloud) (lower_xyz upper_xyz : list T) (i : Z)
    (st : PointCloud * Z) : result (PointCloud * Z) :=
  let '(crop, index) := st in
  p ← xyzs this ≫= Eigen.col i;
  if in_box lower_xyz upper_xyz p then
    crop' ← exec
      (mutable_xyzs (Eigen.assign_col index p);;
       (if has_normals this
        then n ← lift (normals this ≫= Eigen.col i);
             mutable_normals (Eigen.assign_col index n)
        else mret tt);;
       (if has_rgbs this
        then n ← lift (rgbs this ≫= Eigen.col i);
             mutable_rgbs (Eigen.assign_col index n)
        else mret tt);;
       (if has_descriptors this
        then n ← lift (descriptors this ≫= Eigen.col i);
             mutable_descriptors (Eigen.assign_col index n)
        else mret tt)) crop;
    Ok (crop', index + 1)
  else Ok (crop, index).

Definition Crop (lower_xyz upper_xyz : list T) (this : PointCloud) : result PointCloud :=
  DRAKE_DEMAND (array_le lower_xyz upper_xyz)
               "(lower_xyz.array() <= upper_xyz.array()).all()";;
  (if has_xyzs this then Ok tt
   else Fail (RuntimeError "PointCloud must have xyzs in order to Crop"));;
  crop ← PointCloud_new (size_ this) (fields this) true;
  st ← for_each (Crop_body this lower_xyz upper_xyz) (seqZ 0 (size_ this)) (crop, 0);
  exec (resize st.2 false) st.1.

(** One iteration of the copying loop of [Concatenate]: the state is the
    new cloud and [index]. *)
Definition Concatenate_body (cloud : PointCloud) (st : PointCloud * Z)
    : result (PointCloud * Z) :=
  let '(new_cloud, index) := st in
  let s := size cloud in
  new_cloud' ← exec
    (when has_normals
       (src ← lift (xyzs cloud); mutable_xyzs (Eigen.assign_middleCols index s src));;
     when has_normals
       (src ← lift (normals cloud); mutable_normals (Eigen.assign_middleCols index s src));;
     when has_rgbs
       (src ← lift (rgbs cloud); mutable_rgbs (Eigen.assign_middleCols index s src));;
     when has_descriptors
       (src ← lift (descriptors cloud);
        mutable_descriptors (Eigen.assign_middleCols index s src))) new_cloud;
  Ok (new_cloud', index + s).

Definition Concatenate (clouds : list PointCloud) : result PointCloud :=
  match clouds with
  | [] => Fail (DemandFailed "num_clouds >= 1")
  | first :: rest =>
      count ← for_each
        (λ cloud count,
           DRAKE_THROW_UNLESS (pc_flags.eqb (fields cloud) (fields first))
                              "clouds[i].fields() == clouds[0].fields()";;
           int_add count (size cloud))
        rest (size first);
      new_cloud ← PointCloud_new count (fields first) true;
      st ← for_each Concatenate_body clouds (new_cloud, 0);
      Ok st.1
  end.

(** [xyz(i)], the position of point [i]. *)
Definition xyz (i : Z) (c : PointCloud) : result (list T) :=
  xyzs c ≫= Eigen.col i.

(** [v.array().isFinite().all()]. *)
Definition all_finite (v : list spec_float) : bool := forallb isFinite v.

Definition SFgtb (a b : spec_float) : bool :=
  match SFcompare a b with
  | Some Gt => true
  | _ => false
  end.

(** First loop of [VoxelizedDownSample]: the per-axis minimum. *)
Definition lower_body (this : PointCloud) (i : Z) (lower_xyz : list float)
    : result (list float) :=
  p ← xyz i this;
  if all_finite p then Ok (zip_with std_min p lower_xyz) else Ok lower_xyz.

(** [((p - lower_xyz) / voxel_size).cast<int>()]: the subtraction and the
    division are [float] operations (Eigen converts the [double] scalar to
    the scalar type of the vector). *)
Definition voxel_quotient (voxel_size : double) (lower_xyz p : list float)
    : list float :=
  (λ x, F32.div x (F32.of_double voxel_size)) <$> zip_with F32.sub p lower_xyz.

Definition voxel_of (voxel_size : double) (lower_xyz p : list float)
    : result Vector3i :=
  match voxel_quotient voxel_size lower_xyz p with
  | [x; y; z] => a ← cast_int x; b ← cast_int y; c ← cast_int z; Ok (a, b, c)
  | _ => Fail (EigenAssert "not a vector of three coefficients")
  end.

(** [voxel_map[key].emplace_back(i)]. *)
Definition emplace_back (key : Vector3i) (i : Z) (voxel_map : gmap Vector3i (list Z))
    : gmap Vector3i (list Z) :=
  <[key := default [] (voxel_map !! key) ++ [i]]> voxel_map.

(** Second loop: the map from voxel coordinate to the points in it. *)
Definition voxel_body (this : PointCloud) (voxel_size : double) (lower_xyz : list float)
    (i : Z) (voxel_map : gmap Vector3i (list Z)) : result (gmap Vector3i (list Z)) :=
  p ← xyz i this;
  if all_finite p then
    key ← voxel_of voxel_size lower_xyz p;
    Ok (emplace_back key i voxel_map)
  else Ok voxel_map.

(** The accumulators of one voxel. *)
Record accumulators : Type := mkAcc {
  acc_xyz : list double;
  acc_normal : list double;
  acc_rgb : list double;
  acc_descriptor : list double;
  num_normals : Z;
  num_descriptors : Z;
}.

(** [acc += v.cast<double>()]. *)
Definition add_to (acc : list double) (v : list double) : list double :=
  zip_with F64.add acc v.

(** [(acc / n)], coefficient by coefficient, [n] converted to [double]. *)
Definition divide_by (n : Z) (acc : list double) : list double :=
  (λ x, F64.div x (F64.of_Z n)) <$> acc.

Definition accumulate (this : PointCloud) (index_in_this : Z) (a : accumulators)
    : result accumulators :=
  p ← xyzs this ≫= Eigen.col index_in_this;
  let xyz := add_to (acc_xyz a) (F64.of_float <$> p) in
  nn ← (if has_normals this then
          n ← normals this ≫= Eigen.col index_in_this;
          if all_finite n
          then Ok (add_to (acc_normal a) (F64.of_float <$> n), num_normals a + 1)
          else Ok (acc_normal a, num_normals a)
        else Ok (acc_normal a, num_normals a));
  rgb ← (if has_rgbs this then
           c ← rgbs this ≫= Eigen.col index_in_this;
           Ok (add_to (acc_rgb a) (C_to_double <$> c))
         else Ok (acc_rgb a));
  dd ← (if has_descriptors this then
          d ← descriptors this ≫= Eigen.col index_in_this;
          if all_finite d
          then Ok (add_to (acc_descriptor a) (F64.of_float <$> d), num_descriptors a + 1)
          else Ok (acc_descriptor a, num_descriptors a)
        else Ok (acc_descriptor a, num_descriptors a));
  Ok (mkAcc xyz nn.1 rgb dd.1 nn.2 dd.2).

Definition accumulators_zero (this : PointCloud) : accumulators :=
  mkAcc (replicate 3 F64.zero) (replicate 3 F64.zero) (replicate 3 F64.zero)
        (replicate (if has_descriptors this
                    then rows (Storage.descriptors_ (storage_ this)) else 0%nat)
                   F64.zero)
        0 0.

(** Third loop: one output point per entry of the map. *)
Definition emit_body (this : PointCloud) (entry : Vector3i * list Z)
    (st : PointCloud * Z) : result (PointCloud * Z) :=
  let '(down_sampled, index_in_down_sampled) := st in
  let indices_in_this := entry.2 in
  a ← for_each (accumulate this) indices_in_this (accumulators_zero this);
  let count := Z.of_nat (length indices_in_this) in
  down_sampled' ← exec
    (mutable_xyzs (Eigen.assign_col index_in_down_sampled
                     (F32.of_double <$> divide_by count (acc_xyz a)));;
     (if has_normals this then
        mutable_normals (Eigen.assign_col index_in_down_sampled
                           (F32.of_double <$> divide_by (num_normals a) (acc_normal a)))
      else mret tt);;
     (if has_rgbs this then
        mutable_rgbs (Eigen.assign_col index_in_down_sampled
                        (double_to_C <$> divide_by count (acc_rgb a)))
      else mret tt);;
     (if has_descriptors this then
        mutable_descriptors (Eigen.assign_col index_in_down_sampled
                               (F32.of_double <$> divide_by (num_descriptors a)
                                                              (acc_descriptor a)))
      else mret tt)) down_sampled;
  Ok (down_sampled', index_in_down_sampled + 1).

Definition VoxelizedDownSample (voxel_size : double) (this : PointCloud)
    : result PointCloud :=
  DRAKE_THROW_UNLESS (has_xyzs this) "has_xyzs()";;
  DRAKE_THROW_UNLESS (SFgtb voxel_size (F64.of_Z 0)) "voxel_size > 0";;
  lower_xyz ← for_each (lower_body this) (seqZ 0 (size_ this)) (replicate 3 infinity);
  voxel_map ← for_each (voxel_body this voxel_size lower_xyz) (seqZ 0 (size_ this)) ∅;
  down_sampled ← PointCloud_new (Z.of_nat (base.size voxel_map)) (fields this) false;
  st ← for_each (emit_body this) (iteration voxel_map) (down_sampled, 0);
  Ok st.1.
End PointCloud.

(** ** What the operations leave behind, as functions *)

Section Outcomes.
Context `{Platform}.

(** The columns of a matrix after [conservativeResize] to [n] columns. *)
Definition resized {A} (uninit : nat → nat → A) (n : Z) (m : Mat A) : Mat A :=
  mkMat (rows m)
        (take (Z.to_nat n) (columns m)
         ++ Eigen.fresh uninit (rows m) (length (columns m))
              (Z.to_nat n - length (columns m))).

Definition resized_storage (n : Z) (s : Storage.t) : Storage.t :=
  let f := Storage.fields_ s in
  Storage.mk f n
    (if pc_flags.contains f (pc_flags.base pc_flags.kXYZs)
     then resized uninit_T n (Storage.xyzs_ s) else Storage.xyzs_ s)
    (if pc_flags.contains f (pc_flags.base pc_flags.kNormals)
     then resized uninit_T n (Storage.normals_ s) else Storage.normals_ s)
    (if pc_flags.contains f (pc_flags.base pc_flags.kRGBs)
     then resized uninit_C n (Storage.rgbs_ s) else Storage.rgbs_ s)
    (if pc_flags.has_descriptor f
     then resized uninit_T n (Storage.descriptors_ s) else Storage.descriptors_ s).

(** The columns of a matrix after [middleCols(start, num).setConstant(v)]. *)
Definition filled {A} (start num : Z) (v : A) (m : Mat A) : Mat A :=
  mkMat (rows m)
        (take (Z.to_nat start) (columns m)
         ++ replicate (Z.to_nat num) (replicate (rows m) v)
         ++ drop (Z.to_nat (start + num)) (columns m)).

Definition defaulted (start num : Z) (c : PointCloud) : PointCloud :=
  let s := storage_ c in
  with_storage
    (Storage.mk (Storage.fields_ s) (Storage.size_ s)
       (if has_xyzs c then filled start num kDefaultValue (Storage.xyzs_ s)
        else Storage.xyzs_ s)
       (if has_normals c then filled start num kDefaultValue (Storage.normals_ s)
        else Storage.normals_ s)
       (if has_rgbs c then filled start num kDefaultColor (Storage.rgbs_ s)
        else Storage.rgbs_ s)
       (if has_descriptors c then filled start num kDefaultValue (Storage.descriptors_ s)
        else Storage.descriptors_ s)) c.

(** The storage of a cloud before its first resize, and the cloud the
    constructor allocates before it writes the defaults. *)
Definition empty_storage (f : Fields) : Storage.t :=
  Storage.mk f 0 (mkMat 3 []) (mkMat 3 []) (mkMat 3 [])
             (mkMat (pc_flags.size (pc_flags.descriptor_type f)) []).

Definition allocated (n : Z) (f : Fields) : PointCloud :=
  mkPointCloud n f (resized_storage n (empty_storage f)).

(** The cloud [resize(n, skip)] leaves when it succeeds. *)
Definition resized_cloud (n : Z) (skip : bool) (c : PointCloud) : PointCloud :=
  let c' := mkPointCloud n (fields_ c) (resized_storage n (storage_ c)) in
  if (size c <? n) && negb skip then defaulted (size c) (n - size c) c' else c'.

(** [new] holds the first [n] columns of [old], followed, when [n] exceeds
    the number of columns of [old], by columns of [r] copies of [v]. *)
Definition grown {A} (r : nat) (v : A) (n : Z) (old new : Mat A) : Prop :=
  columns new
  = take (Z.to_nat n) (columns old)
    ++ replicate (Z.to_nat n - length (columns old)) (replicate r v).

(** [c'] is [c] brought to [n] points: same field set, and every present
    field keeps its retained columns and has its new columns filled with
    the default of the field. *)
Definition default_grown (n : Z) (c c' : PointCloud) : Prop :=
  size c' = n ∧ fields c' = fields c
  ∧ (has_xyzs c = true →
     grown 3 kDefaultValue n (Storage.xyzs_ (storage_ c)) (Storage.xyzs_ (storage_ c')))
  ∧ (has_normals c = true →
     grown 3 kDefaultValue n (Storage.normals_ (storage_ c))
           (Storage.normals_ (storage_ c')))
  ∧ (has_rgbs c = true →
     grown 3 kDefaultColor n (Storage.rgbs_ (storage_ c)) (Storage.rgbs_ (storage_ c')))
  ∧ (has_descriptors c = true →
     grown (pc_flags.size (pc_flags.descriptor_type (fields c))) kDefaultValue n
           (Storage.descriptors_ (storage_ c)) (Storage.descriptors_ (storage_ c'))).

(** The member functions that can write to a cloud, with their arguments. *)
Inductive mutation : Type :=
  | call_resize (new_size : Z) (skip_initialization : bool)
  | call_Expand (add_size : Z) (skip_initialization : bool)
  | call_SetDefault (start num : Z)
  | call_SetFrom (other : PointCloud) (fields_in : Fields) (allow_resize : bool)
  | call_assign_copy (other : PointCloud)
  | call_mutable_xyzs (write : Mat T → result (Mat T))
  | call_mutable_normals (write : Mat T → result (Mat T))
  | call_mutable_rgbs (write : Mat C → result (Mat C))
  | call_mutable_descriptors (write : Mat D → result (Mat D)).

Definition run (call : mutation) : method unit :=
  match call with
  | call_resize n skip => resize n skip
  | call_Expand n skip => Expand n skip
  | call_SetDefault start num => SetDefault start num
  | call_SetFrom other f allow => SetFrom other f allow
  | call_assign_copy other => assign_copy other
  | call_mutable_xyzs w => mutable_xyzs w
  | call_mutable_normals w => mutable_normals w
  | call_mutable_rgbs w => mutable_rgbs w
  | call_mutable_descriptors w => mutable_descriptors w
  end.

(** A member function that leaves the field set as it is. *)
Definition keeps_fields {A} (m : method A) : Prop :=
  ∀ c, fields_ (m c).2 = fields_ c.

(** A member function that throws no exception: when it fails, it is by an
    abort or a violated precondition. *)
Definition throws_nothing {A} (m : method A) : Prop :=
  ∀ c e c', m c = (Fail e, c') → is_exception e = false.

(** The cloud [c] after the present fields of [other] have been assigned
    to it through the mutable views. *)
Definition copied (other c : PointCloud) : PointCloud :=
  let s := storage_ c in
  let o := storage_ other in
  with_storage
    (Storage.mk (Storage.fields_ s) (Storage.size_ s)
       (if has_xyzs other
        then mkMat (rows (Storage.xyzs_ s)) (columns (Storage.xyzs_ o))
        else Storage.xyzs_ s)
       (if has_normals other
        then mkMat (rows (Storage.normals_ s)) (columns (Storage.normals_ o))
        else Storage.normals_ s)
       (if has_rgbs other
        then mkMat (rows (Storage.rgbs_ s)) (columns (Storage.rgbs_ o))
        else Storage.rgbs_ s)
       (if has_descriptors other
        then mkMat (rows (Storage.descriptors_ s)) (columns (Storage.descriptors_ o))
        else Storage.descriptors_ s)) c.

(** [c] has the size and the field set of [other], and every present
    field of [c] holds the data of [other]. *)
Definition populated_from (other c : PointCloud) : Prop :=
  size c = size other ∧ fields c = fields other
  ∧ (has_xyzs other = true →
     Storage.xyzs_ (storage_ c) = Storage.xyzs_ (storage_ other))
  ∧ (has_normals other = true →
     Storage.normals_ (storage_ c) = Storage.normals_ (storage_ other))
  ∧ (has_rgbs other = true →
     Storage.rgbs_ (storage_ c) = Storage.rgbs_ (storage_ other))
  ∧ (has_descriptors other = true →
     Storage.descriptors_ (storage_ c) = Storage.descriptors_ (storage_ other)).

(** *** What Crop computes *)

(** Point [i] of [c] lies in the closed box. *)
Definition inside (lower_xyz upper_xyz : list T) (c : PointCloud) (i : Z) : bool :=
  match columns (Storage.xyzs_ (storage_ c)) !! Z.to_nat i with
  | Some p => in_box lower_xyz upper_xyz p
  | None => false
  end.

(** The indices of the points that lie in the box, in increasing order. *)
Definition retained (lower_xyz upper_xyz : list T) (c : PointCloud) : list Z :=
  List.filter (inside lower_xyz upper_xyz c) (seqZ 0 (size c)).

(** The columns of [m] at the indices [idx], in the order of [idx]. *)
Definition pick {A} (idx : list Z) (m : Mat A) : list (list A) :=
  (λ i, default [] (columns m !! Z.to_nat i)) <$> idx.

(** [dst.col(index) = src.col(i)]. *)
Definition put {A} (index i : Z) (src dst : Mat A) : Mat A :=
  mkMat (rows dst)
        (<[Z.to_nat index := default [] (columns src !! Z.to_nat i)]> (columns dst)).

(** The cloud [crop] after point [i] of [this] has been written to its
    column [index], field by field. *)
Definition written (this : PointCloud) (i index : Z) (crop : PointCloud) : PointCloud :=
  let s := storage_ crop in
  let o := storage_ this in
  with_storage
    (Storage.mk (Storage.fields_ s) (Storage.size_ s)
       (put index i (Storage.xyzs_ o) (Storage.xyzs_ s))
       (if has_normals this
        then put index i (Storage.normals_ o) (Storage.normals_ s)
        else Storage.normals_ s)
       (if has_rgbs this
        then put index i (Storage.rgbs_ o) (Storage.rgbs_ s)
        else Storage.rgbs_ s)
       (if has_descriptors this
        then put index i (Storage.descriptors_ o) (Storage.descriptors_ s)
        else Storage.descriptors_ s)) crop.

(** [out] is [c] restricted to the points at [idx]: the same field set,
    and every present field holds the columns of [c] at [idx], in order. *)
Definition restricted_to (idx : list Z) (c out : PointCloud) : Prop :=
  size out = Z.of_nat (length idx) ∧ fields out = fields c
  ∧ (has_xyzs c = true →
     columns (Storage.xyzs_ (storage_ out)) = pick idx (Storage.xyzs_ (storage_ c)))
  ∧ (has_normals c = true →
     columns (Storage.normals_ (storage_ out))
     = pick idx (Storage.normals_ (storage_ c)))
  ∧ (has_rgbs c = true →
     columns (Storage.rgbs_ (storage_ out)) = pick idx (Storage.rgbs_ (storage_ c)))
  ∧ (has_descriptors c = true →
     columns (Storage.descriptors_ (storage_ out))
     = pick idx (Storage.descriptors_ (storage_ c))).

(** ** Valid clouds *)

(** A matrix of [r] rows and [n] columns. *)
Definition shaped {A} (r : nat) (n : Z) (m : Mat A) : Prop :=
  rows m = r ∧ cols m = n ∧ Forall (λ c, length c = r) (columns m).

(** The class invariant: what every constructed cloud satisfies, and every
    operation keeps. *)
Record valid (c : PointCloud) : Prop := mkValid {
  valid_size : 0 <= size_ c <= INT_MAX;
  valid_not_none : fields_ c ≠ pc_flags.base pc_flags.kNone;
  valid_not_inherit :
    pc_flags.contains (fields_ c) (pc_flags.base pc_flags.kInherit) = false;
  valid_storage_fields : Storage.fields_ (storage_ c) = fields_ c;
  valid_storage_size : Storage.size_ (storage_ c) = size_ c;
  valid_xyzs : has_xyzs c = true → shaped 3 (size_ c) (Storage.xyzs_ (storage_ c));
  valid_normals :
    has_normals c = true → shaped 3 (size_ c) (Storage.normals_ (storage_ c));
  valid_rgbs : has_rgbs c = true → shaped 3 (size_ c) (Storage.rgbs_ (storage_ c));
  valid_descriptors :
    has_descriptors c = true →
    shaped (pc_flags.size (pc_flags.descriptor_type (fields_ c))) (size_ c)
           (Storage.descriptors_ (storage_ c));
}.
(** The first [length done] columns of [dst] are the columns of [src] at
    [done]; [dst] has [n] columns of height [r]. *)
Definition prefix_from {A} (r : nat) (n : Z) (done : list Z) (src dst : Mat A) : Prop :=
  shaped r n dst ∧ take (length done) (columns dst) = pick done src.

(** The invariant of the loop of [Crop]: [crop] has the size and the field
    set of [this], and the points at [done] fill its first columns. *)
Definition crop_invariant (this : PointCloud) (done : list Z) (crop : PointCloud)
    : Prop :=
  fields_ crop = fields_ this ∧ size_ crop = size_ this
  ∧ Storage.fields_ (storage_ crop) = fields_ this
  ∧ Storage.size_ (storage_ crop) = size_ this
  ∧ (has_xyzs this = true →
     prefix_from 3 (size_ this) done
       (Storage.xyzs_ (storage_ this)) (Storage.xyzs_ (storage_ crop)))
  ∧ (has_normals this = true →
     prefix_from 3 (size_ this) done
       (Storage.normals_ (storage_ this)) (Storage.normals_ (storage_ crop)))
  ∧ (has_rgbs this = true →
     prefix_from 3 (size_ this) done
       (Storage.rgbs_ (storage_ this)) (Storage.rgbs_ (storage_ crop)))
  ∧ (has_descriptors this = true →
     prefix_from (pc_flags.size (pc_flags.descriptor_type (fields_ this)))
       (size_ this) done
       (Storage.descriptors_ (storage_ this)) (Storage.descriptors_ (storage_ crop))).
End Outcomes.


(** ** Floating point: the order of numbers *)

(** A value other than NaN. *)
Definition is_number (x : spec_float) : bool :=
  match x with S754_nan => false | _ => true end.

(** The order of [SFcompare] on numbers, read on a key: the class of the
    value, then exponent and mantissa. *)
Definition order_key (x : spec_float) : Z * Z * Z :=
  match x with
  | S754_infinity true => (-2, 0, 0)
  | S754_finite true m e => (-1, - e, Z.neg m)
  | S754_zero _ | S754_nan => (0, 0, 0)
  | S754_finite false m e => (1, e, Z.pos m)
  | S754_infinity false => (2, 0, 0)
  end.

Definition key_lt (a b : Z * Z * Z) : Prop :=
  a.1.1 < b.1.1
  ∨ (a.1.1 = b.1.1 ∧ (a.1.2 < b.1.2 ∨ (a.1.2 = b.1.2 ∧ a.2 < b.2))).

(** ** What VoxelizedDownSample computes *)

(** The floor of a finite value. *)
Definition SF_floor (x : spec_float) : option Z :=
  match x with
  | S754_zero _ => Some 0
  | S754_finite s m e => Some (Z.shiftl (cond_Zopp s (Z.pos m)) e)
  | S754_infinity _ | S754_nan => None
  end.

(** A value that is not below zero: a zero of either sign, a positive
    number, plus infinity; NaN counts, it has no sign. *)
Definition not_negative (x : spec_float) : Prop :=
  match x with
  | S754_finite s _ _ | S754_infinity s => s = false
  | S754_zero _ | S754_nan => True
  end.

(** A value with a clear sign bit; NaN counts. *)
Definition positive_sign (x : spec_float) : Prop :=
  match x with
  | S754_zero s | S754_finite s _ _ | S754_infinity s => s = false
  | S754_nan => True
  end.

(** [m.col(j) = col]. *)
Definition store {A} (j : Z) (col : list A) (m : Mat A) : Mat A :=
  mkMat (rows m) (<[Z.to_nat j := col]> (columns m)).

(** The first [length done] columns of [dst] are the columns that [g]
    gives for [done]; [dst] has [n] columns of height [r]. *)
Definition prefix_written {A E} (r : nat) (n : Z) (g : E → list A) (done : list E)
    (dst : Mat A) : Prop :=
  shaped r n dst ∧ take (length done) (columns dst) = g <$> done.

Section DownSampleSpec.
Context `{Platform}.
Variables (this : PointCloud) (voxel_size : double).

(** The position of point [i], and whether it is entirely finite. *)
Definition position (i : Z) : list T :=
  default [] (columns (Storage.xyzs_ (storage_ this)) !! Z.to_nat i).
Definition finite_point (i : Z) : bool := all_finite (position i).

(** The points with a finite position, in increasing order. *)
Definition finite_points : list Z := List.filter finite_point (seqZ 0 (size this)).

(** Coordinate [a] of point [i]. *)
Definition coordinate (a : nat) (i : Z) : float := default S754_nan (position i !! a).

(** The minimum of coordinate [a] over the points [idx], plus infinity when
    there is none. *)
Definition minimum_over (a : nat) (idx : list Z) : float :=
  foldl (λ acc i, std_min (coordinate a i) acc) infinity idx.

(** The per-axis minimum over the finite positions. *)
Definition minima : list float :=
  [minimum_over 0 finite_points; minimum_over 1 finite_points;
   minimum_over 2 finite_points].

(** [floor((position - minimum) / voxel_size)], axis by axis. *)
Definition voxel_floor (i : Z) : option Vector3i :=
  match SF_floor <$> voxel_quotient voxel_size minima (position i) with
  | [Some a; Some b; Some c] => Some (a, b, c)
  | _ => None
  end.

(** The points of voxel [k], in increasing order: the bucket of [k]. *)
Definition bucket_in (l : list Z) (k : Vector3i) : list Z :=
  List.filter (λ i, finite_point i && bool_decide (voxel_floor i = Some k)) l.
Definition bucket (k : Vector3i) : list Z := bucket_in (seqZ 0 (size this)) k.

(** The map after point [i] has been entered. *)
Definition insert_point (voxel_map : gmap Vector3i (list Z)) (i : Z)
    : gmap Vector3i (list Z) :=
  if finite_point i then
    match voxel_floor i with
    | Some k => emplace_back k i voxel_map
    | None => voxel_map
    end
  else voxel_map.

(** The map of the second loop. *)
Definition voxels : gmap Vector3i (list Z) :=
  foldl insert_point ∅ (seqZ 0 (size this)).

(** Voxel [k] is occupied. *)
Definition occupied (k : Vector3i) : Prop :=
  ∃ i, 0 <= i < size this ∧ finite_point i = true ∧ voxel_floor i = Some k.

(** The sum of vectors of [r] coefficients, accumulated in [double] from
    zero, in the order of the list. *)
Definition sum_vectors (r : nat) (vs : list (list double)) : list double :=
  foldl add_to (replicate r F64.zero) vs.

(** The arithmetic mean of [float] vectors: the sum accumulated in
    [double], divided by the number of vectors, rounded to [float]. *)
Definition mean_float (r : nat) (vs : list (list float)) : list float :=
  F32.of_double
    <$> divide_by (Z.of_nat (length vs)) (sum_vectors r ((λ v : list float, F64.of_float <$> v) <$> vs)).

(** The arithmetic mean of colours, likewise. *)
Definition mean_color (vs : list (list C)) : list C :=
  double_to_C
    <$> divide_by (Z.of_nat (length vs)) (sum_vectors 3 ((λ v : list C, C_to_double <$> v) <$> vs)).

(** The vectors of a list that are entirely finite. *)
Definition finite_only (vs : list (list float)) : list (list float) :=
  List.filter all_finite vs.

(** The accumulators after the points [b] have been added to [a]. *)
Definition accumulated (b : list Z) (a : accumulators) : accumulators :=
  mkAcc
    (foldl add_to (acc_xyz a)
       ((λ v : list float, F64.of_float <$> v)
          <$> pick b (Storage.xyzs_ (storage_ this))))
    (if has_normals this
     then foldl add_to (acc_normal a)
            ((λ v : list float, F64.of_float <$> v)
               <$> finite_only (pick b (Storage.normals_ (storage_ this))))
     else acc_normal a)
    (if has_rgbs this
     then foldl add_to (acc_rgb a)
            ((λ v : list C, C_to_double <$> v) <$> pick b (Storage.rgbs_ (storage_ this)))
     else acc_rgb a)
    (if has_descriptors this
     then foldl add_to (acc_descriptor a)
            ((λ v : list float, F64.of_float <$> v)
               <$> finite_only (pick b (Storage.descriptors_ (storage_ this))))
     else acc_descriptor a)
    (if has_normals this
     then num_normals a
          + Z.of_nat (length (finite_only (pick b (Storage.normals_ (storage_ this)))))
     else num_normals a)
    (if has_descriptors this
     then num_descriptors a
          + Z.of_nat (length (finite_only (pick b (Storage.descriptors_ (storage_ this)))))
     else num_descriptors a).

(** The averages of the bucket [b], field by field. *)
Definition xyz_mean (b : list Z) : list T :=
  mean_float 3 (pick b (Storage.xyzs_ (storage_ this))).
Definition normal_mean (b : list Z) : list T :=
  mean_float 3 (finite_only (pick b (Storage.normals_ (storage_ this)))).
Definition rgb_mean (b : list Z) : list C :=
  mean_color (pick b (Storage.rgbs_ (storage_ this))).
Definition descriptor_mean (b : list Z) : list D :=
  mean_float (rows (Storage.descriptors_ (storage_ this)))
             (finite_only (pick b (Storage.descriptors_ (storage_ this)))).

(** The cloud [down] after the averages of the bucket [b] have been
    written to its column [j]. *)
Definition emitted (b : list Z) (j : Z) (down : PointCloud) : PointCloud :=
  let s := storage_ down in
  with_storage
    (Storage.mk (Storage.fields_ s) (Storage.size_ s)
       (store j (xyz_mean b) (Storage.xyzs_ s))
       (if has_normals this then store j (normal_mean b) (Storage.normals_ s)
        else Storage.normals_ s)
       (if has_rgbs this then store j (rgb_mean b) (Storage.rgbs_ s)
        else Storage.rgbs_ s)
       (if has_descriptors this then store j (descriptor_mean b) (Storage.descriptors_ s)
        else Storage.descriptors_ s)) down.

(** The invariant of the third loop: the entries [done] fill the first
    columns of [down], a cloud of [n] points with the field set of [this]. *)
Definition emit_invariant (n : Z) (done : list (Vector3i * list Z))
    (down : PointCloud) : Prop :=
  fields_ down = fields_ this ∧ size_ down = n
  ∧ Storage.fields_ (storage_ down) = fields_ this
  ∧ Storage.size_ (storage_ down) = n
  ∧ (has_xyzs this = true →
     prefix_written 3 n (λ e, xyz_mean e.2) done (Storage.xyzs_ (storage_ down)))
  ∧ (has_normals this = true →
     prefix_written 3 n (λ e, normal_mean e.2) done (Storage.normals_ (storage_ down)))
  ∧ (has_rgbs this = true →
     prefix_written 3 n (λ e, rgb_mean e.2) done (Storage.rgbs_ (storage_ down)))
  ∧ (has_descriptors this = true →
     prefix_written (pc_flags.size (pc_flags.descriptor_type (fields_ this))) n
       (λ e, descriptor_mean e.2) done (Storage.descriptors_ (storage_ down))).

(** Column [j] of [out] is the average of the bucket of voxel [k], field
    by field. *)
Definition averages (out : PointCloud) (j : nat) (k : Vector3i) : Prop :=
  columns (Storage.xyzs_ (storage_ out)) !! j = Some (xyz_mean (bucket k))
  ∧ (has_normals this = true →
     columns (Storage.normals_ (storage_ out)) !! j = Some (normal_mean (bucket k)))
  ∧ (has_rgbs this = true →
     columns (Storage.rgbs_ (storage_ out)) !! j = Some (rgb_mean (bucket k)))
  ∧ (has_descriptors this = true →
     columns (Storage.descriptors_ (storage_ out)) !! j
     = Some (descriptor_mean (bucket k))).

(** [out] is the down-sampled cloud: one point per occupied voxel, in the
    order [keys], each the average of its bucket. *)
Definition down_sampled_by (keys : list Vector3i) (out : PointCloud) : Prop :=
  fields out = fields this ∧ size out = Z.of_nat (length keys)
  ∧ NoDup keys ∧ (∀ k, k ∈ keys ↔ occupied k)
  ∧ (∀ j k, keys !! j = Some k → averages out j k).

(** Every voxel coordinate is a number that fits an [int]. *)
Definition coordinates_fit : Prop :=
  ∀ i q, 0 <= i < size this → finite_point i = true →
         q ∈ voxel_quotient voxel_size minima (position i) →
         ∃ z, SF_floor q = Some z ∧ in_int z = true.

(** The stored positions are [float] values in canonical form. *)
Definition positions_canonical : Prop :=
  Forall (Forall (λ x, valid_binary F32.prec F32.emax x = true))
         (columns (Storage.xyzs_ (storage_ this))).
End DownSampleSpec.

(** ** A concrete platform and sample clouds *)

(** Colours are bytes, the default colour is 0, memory that was not written
    reads as NaN (floats) and as 205 (bytes), and the hash map is traversed
    in the order of [map_to_list]. *)
Definition byte_platform : Platform := {|
  C := Z;
  kDefaultColor := 0;
  C_to_double := F64.of_Z;
  double_to_C := λ d, default 0 (truncate d) `mod` 256;
  uninit_T := λ _ _, S754_nan;
  uninit_C := λ _ _, 205;
  iteration := map_to_list;
  iteration_perm := λ m, Permutation_refl _;
|}.

Module Sample.
(** The [float] nearest to [m * 2^e]. *)
Definition f32 (m e : Z) : float := binary_normalize F32.prec F32.emax m e false.
Definition point (x y z : Z) : list T := [f32 x 0; f32 y 0; f32 z 0].

Definition XYZs : Fields := pc_flags.base pc_flags.kXYZs.
Definition Normals : Fields := pc_flags.base pc_flags.kNormals.
Definition XYZs_Normals : Fields :=
  pc_flags.base (Z.lor pc_flags.kXYZs pc_flags.kNormals).
Definition XYZs_RGBs : Fields :=
  pc_flags.base (Z.lor pc_flags.kXYZs pc_flags.kRGBs).

(** A cloud of positions only. *)
Definition positions (l : list (list T)) : @PointCloud byte_platform :=
  mkPointCloud (Z.of_nat (length l)) XYZs
    (Storage.mk XYZs (Z.of_nat (length l)) (mkMat 3 l) (mkMat 3 []) (mkMat 3 [])
                (mkMat 0 [])).

(** A cloud of positions and normals. *)
Definition with_normals (l n : list (list T)) : @PointCloud byte_platform :=
  mkPointCloud (Z.of_nat (length l)) XYZs_Normals
    (Storage.mk XYZs_Normals (Z.of_nat (length l)) (mkMat 3 l) (mkMat 3 n) (mkMat 3 [])
                (mkMat 0 [])).

Definition A : @PointCloud byte_platform :=
  positions [point 1 2 3; point 4 5 6; point 7 8 9].
Definition B : @PointCloud byte_platform :=
  positions [point 10 0 0; point 11 0 0].
Definition N : @PointCloud byte_platform :=
  with_normals [point 1 1 1; point 2 2 2] [point 0 0 1; point 0 1 0].

(** A cloud of normals only. *)
Definition M : @PointCloud byte_platform :=
  mkPointCloud 1 Normals
    (Storage.mk Normals 1 (mkMat 3 []) (mkMat 3 [point 0 0 1]) (mkMat 3 [])
                (mkMat 0 [])).

(** Five points whose positions read as memory that was never written. *)
Definition unwritten5 : @PointCloud byte_platform :=
  positions (replicate 5 [S754_nan; S754_nan; S754_nan]).

(** The four points of the cropping example of the spec:
    (0.5, 0.5, 0.5), (2, 2, 2), (0, 0, 0) and (1, 1, 1). *)
Definition P4 : @PointCloud byte_platform :=
  positions [[f32 1 (-1); f32 1 (-1); f32 1 (-1)]; point 2 2 2; point 0 0 0;
             point 1 1 1].

(** The three points of the down-sampling example of the spec, with the
    [float] values nearest to 0.1 and 0.2: (0.1, 0, 0), (0.2, 0, 0) and
    (5, 0, 0). *)
Definition V3 : @PointCloud byte_platform :=
  positions [[f32 13421773 (-27); f32 0 0; f32 0 0];
             [f32 13421773 (-26); f32 0 0; f32 0 0]; point 5 0 0].

(** Three points with normals: the two points of the first voxel have
    normals that are not finite, the point of the second has one. *)
Definition W3 : @PointCloud byte_platform :=
  with_normals [point 0 0 0; [f32 1 (-1); f32 0 0; f32 0 0]; point 5 0 0]
               [[S754_nan; f32 0 0; f32 1 0]; [S754_infinity false; f32 0 0; f32 0 0];
                point 0 0 1].

(** Two points three thousand million apart. *)
Definition Far : @PointCloud byte_platform :=
  positions [point 0 0 0; point 3000000000 0 0].
End Sample.

(** ** The class invariant under the member functions *)

Section Invariant.
Context `{Platform}.

(** A member function that leaves a valid cloud valid whenever it returns
    or throws. *)
Definition keeps_valid {A} (m : method A) : Prop :=
  ∀ c r c', valid c → m c = (r, c') → is_ok r = true ∨ throws r = true → valid c'.

(** A write through a mutable view leaves the shape of the matrix as it
    is: an [Eigen::Ref] cannot be resized. *)
Definition keeps_shape {A} (w : Mat A → result (Mat A)) : Prop :=
  ∀ r n m m', shaped r n m → w m = Ok m' → shaped r n m'.

(** The arguments of a call are values of their C++ types: an [int] is in
    range, a cloud is a valid cloud, a write goes through a view. *)
Definition well_typed (call : mutation) : Prop :=
  match call with
  | call_resize n _ => in_int n = true
  | call_Expand n _ => in_int n = true
  | call_SetDefault start num => in_int start = true ∧ in_int num = true
  | call_SetFrom other _ _ => valid other
  | call_assign_copy other => valid other
  | call_mutable_xyzs w => keeps_shape w
  | call_mutable_normals w => keeps_shape w
  | call_mutable_rgbs w => keeps_shape w
  | call_mutable_descriptors w => keeps_shape w
  end.
End Invariant.

(** ** Comparing the data of two clouds *)

Section Comparing.
Context `{Platform}.

(** [c'] has the size, the field set and, in every present field, the
    columns of [c]. *)
Definition same_data (c c' : PointCloud) : Prop :=
  size c' = size c ∧ fields c' = fields c
  ∧ (has_xyzs c = true →
     columns (Storage.xyzs_ (storage_ c')) = columns (Storage.xyzs_ (storage_ c)))
  ∧ (has_normals c = true →
     columns (Storage.normals_ (storage_ c')) = columns (Storage.normals_ (storage_ c)))
  ∧ (has_rgbs c = true →
     columns (Storage.rgbs_ (storage_ c')) = columns (Storage.rgbs_ (storage_ c)))
  ∧ (has_descriptors c = true →
     columns (Storage.descriptors_ (storage_ c'))
     = columns (Storage.descriptors_ (storage_ c))).

(** The first [k] points of [c'] are the first [k] points of [c], in
    every present field. *)
Definition same_prefix (k : Z) (c c' : PointCloud) : Prop :=
  (has_xyzs c = true →
   take (Z.to_nat k) (columns (Storage.xyzs_ (storage_ c')))
   = take (Z.to_nat k) (columns (Storage.xyzs_ (storage_ c))))
  ∧ (has_normals c = true →
     take (Z.to_nat k) (columns (Storage.normals_ (storage_ c')))
     = take (Z.to_nat k) (columns (Storage.normals_ (storage_ c))))
  ∧ (has_rgbs c = true →
     take (Z.to_nat k) (columns (Storage.rgbs_ (storage_ c')))
     = take (Z.to_nat k) (columns (Storage.rgbs_ (storage_ c))))
  ∧ (has_descriptors c = true →
     take (Z.to_nat k) (columns (Storage.descriptors_ (storage_ c')))
     = take (Z.to_nat k) (columns (Storage.descriptors_ (storage_ c)))).
End Comparing.

(** ** SetFrom with a list of fields *)

Section PartialCopy.
Context `{Platform}.

(** The cloud [c] after the fields [fr] of [other] have been assigned to
    it through the mutable views. *)
Definition copied_fields (fr : Fields) (other c : PointCloud) : PointCloud :=
  let s := storage_ c in
  let o := storage_ other in
  with_storage
    (Storage.mk (Storage.fields_ s) (Storage.size_ s)
       (if pc_flags.contains fr (pc_flags.base pc_flags.kXYZs)
        then mkMat (rows (Storage.xyzs_ s)) (columns (Storage.xyzs_ o))
        else Storage.xyzs_ s)
       (if pc_flags.contains fr (pc_flags.base pc_flags.kNormals)
        then mkMat (rows (Storage.normals_ s)) (columns (Storage.normals_ o))
        else Storage.normals_ s)
       (if pc_flags.contains fr (pc_flags.base pc_flags.kRGBs)
        then mkMat (rows (Storage.rgbs_ s)) (columns (Storage.rgbs_ o))
        else Storage.rgbs_ s)
       (if pc_flags.has_descriptor fr
        then mkMat (rows (Storage.descriptors_ s)) (columns (Storage.descriptors_ o))
        else Storage.descriptors_ s)) c.

(** The receiver of [SetFrom] after the size check or the resize. *)
Definition sized_for (other : PointCloud) (allow_resize : bool) (c : PointCloud)
    : PointCloud :=
  if allow_resize then resized_cloud (size other) false c else c.
End PartialCopy.

(** ** What Concatenate computes *)

Section ConcatenateOutcome.
Context `{Platform}.

(** The sum of the sizes of the clouds. *)
Definition total_size (clouds : list PointCloud) : Z :=
  foldr (λ c n, size c + n) 0 clouds.

(** The columns of one buffer of the clouds, one cloud after the other. *)
Definition joined {A} (buffer : Storage.t → Mat A) (clouds : list PointCloud)
    : list (list A) :=
  concat ((λ c, columns (buffer (storage_ c))) <$> clouds).

(** [dst.middleCols(index, src.cols()) = src]. *)
Definition placed {A} (index : Z) (src dst : Mat A) : Mat A :=
  mkMat (rows dst)
        (take (Z.to_nat index) (columns dst) ++ columns src
         ++ drop (Z.to_nat (index + cols src)) (columns dst)).

(** The new cloud after the buffers of [cloud] have been placed at
    [index]: the positions and the normals when the new cloud has normals,
    the colours and the descriptors when it has them. *)
Definition appended (cloud : PointCloud) (index : Z) (new_cloud : PointCloud)
    : PointCloud :=
  let s := storage_ new_cloud in
  let o := storage_ cloud in
  with_storage
    (Storage.mk (Storage.fields_ s) (Storage.size_ s)
       (if has_normals new_cloud
        then placed index (Storage.xyzs_ o) (Storage.xyzs_ s) else Storage.xyzs_ s)
       (if has_normals new_cloud
        then placed index (Storage.normals_ o) (Storage.normals_ s)
        else Storage.normals_ s)
       (if has_rgbs new_cloud
        then placed index (Storage.rgbs_ o) (Storage.rgbs_ s) else Storage.rgbs_ s)
       (if has_descriptors new_cloud
        then placed index (Storage.descriptors_ o) (Storage.descriptors_ s)
        else Storage.descriptors_ s)) new_cloud.

(** The buffer of the new cloud has [n] columns of height [r], the first
    of which are the columns of the clouds [done]. *)
Definition laid_out {A} (r : nat) (n : Z) (buffer : Storage.t → Mat A)
    (done : list PointCloud) (new_cloud : PointCloud) : Prop :=
  shaped r n (buffer (storage_ new_cloud))
  ∧ take (length (joined buffer done)) (columns (buffer (storage_ new_cloud)))
    = joined buffer done.

(** The invariant of the copying loop of [Concatenate]: the new cloud has
    [n] points and the field set [f]; the clouds [done] fill the first
    columns of its normals, colours and descriptors, and of its positions
    when it has normals; without normals its positions are as they were
    allocated. *)
Definition concatenate_invariant (f : Fields) (n : Z) (done : list PointCloud)
    (new_cloud : PointCloud) : Prop :=
  fields_ new_cloud = f ∧ size_ new_cloud = n
  ∧ Storage.fields_ (storage_ new_cloud) = f
  ∧ Storage.size_ (storage_ new_cloud) = n
  ∧ (has_normals new_cloud = true → laid_out 3 n Storage.xyzs_ done new_cloud)
  ∧ (has_normals new_cloud = true → laid_out 3 n Storage.normals_ done new_cloud)
  ∧ (has_rgbs new_cloud = true → laid_out 3 n Storage.rgbs_ done new_cloud)
  ∧ (has_descriptors new_cloud = true →
     laid_out (pc_flags.size (pc_flags.descriptor_type f)) n Storage.descriptors_
              done new_cloud)
  ∧ (has_normals new_cloud = false →
     Storage.xyzs_ (storage_ new_cloud) = Storage.xyzs_ (storage_ (allocated n f))).

(** [out] is the concatenation of the clouds, as the code lays it out. *)
Definition concatenated (clouds : list PointCloud) (f : Fields) (out : PointCloud)
    : Prop :=
  size out = total_size clouds ∧ fields out = f
  ∧ (has_normals out = true →
     columns (Storage.xyzs_ (storage_ out)) = joined Storage.xyzs_ clouds)
  ∧ (has_normals out = true →
     columns (Storage.normals_ (storage_ out)) = joined Storage.normals_ clouds)
  ∧ (has_rgbs out = true →
     columns (Storage.rgbs_ (storage_ out)) = joined Storage.rgbs_ clouds)
  ∧ (has_descriptors out = true →
     columns (Storage.descriptors_ (storage_ out)) = joined Storage.descriptors_ clouds)
  ∧ (has_normals out = false →
     Storage.xyzs_ (storage_ out)
     = Storage.xyzs_ (storage_ (allocated (total_size clouds) f))).
End ConcatenateOutcome.

(** ** Voxel coordinates *)

(** Coordinate [a] of a voxel. *)
Definition axis (a : nat) (k : Vector3i) : Z :=
  match a with
  | O => k.1.1
  | S O => k.1.2
  | _ => k.2
  end.

(** ** The box that holds every number *)

Definition everything_lower : list T := replicate 3 (S754_infinity true).
Definition everything_upper : list T := replicate 3 (S754_infinity false).

Section Numbers.
Context `{Platform}.

(** The points of [c] none of whose coordinates is NaN, in increasing
    order. *)
Definition number_points (c : PointCloud) : list Z :=
  List.filter (λ i, forallb is_number (position c i)) (seqZ 0 (size c)).
End Numbers.

(** ** The closed box, by the order of the coordinates *)

(** [lower <= upper] on every axis. *)
Definition box_ordered (lower upper : list T) : Prop :=
  ∀ k l u, lower !! k = Some l → upper !! k = Some u → SFleb l u = true.

(** The position [p] lies in the closed box: on every axis its coordinate
    is neither below the lower bound nor above the upper bound. *)
Definition in_closed_box (lower upper p : list T) : Prop :=
  (∀ k l x, lower !! k = Some l → p !! k = Some x → SFleb l x = true)
  ∧ (∀ k x u, p !! k = Some x → upper !! k = Some u → SFleb x u = true).

(** ** The arithmetic mean, coordinate by coordinate *)

(** The sum of the numbers, added up in [double] from zero, in the order
    of the list, and their mean: the sum divided by their count. *)
Definition total (xs : list double) : double := foldl F64.add F64.zero xs.
Definition mean (xs : list double) : double :=
  F64.div (total xs) (F64.of_Z (Z.of_nat (length xs))).

(** Coordinate [a] of every vector, as a [double]. *)
Definition coordinates_of {A} (to_double : A → double) (a : nat) (vs : list (list A))
    : list double :=
  (λ v, default S754_nan (to_double <$> v !! a)) <$> vs.

(** The mean of vectors of [r] coordinates: coordinate by coordinate, the
    mean of that coordinate, converted to the scalar of the result. *)
Definition arithmetic_mean {A B} (to_double : A → double) (of_double : double → B)
    (r : nat) (vs : list (list A)) : list B :=
  (λ a, of_double (mean (coordinates_of to_double a vs))) <$> seq 0 r.

(** A vector all of whose coordinates are finite, and the vectors of a list
    that are. *)
Definition entirely_finite (v : list float) : Prop :=
  ∀ x, x ∈ v → isFinite x = true.
Definition keep_finite (vs : list (list float)) : list (list float) :=
  List.filter (λ v, bool_decide (Forall (λ x, isFinite x = true) v)) vs.

Section DownSampleMeans.
Context `{Platform}.
Variables (this : PointCloud) (voxel_size : double).

(** [(position - minimum) / voxel_size] on axis [a], in [float]. *)
Definition axis_quotient (a : nat) (i : Z) : float :=
  F32.div (F32.sub (coordinate this a i) (minimum_over this a (finite_points this)))
          (F32.of_double voxel_size).

(** Point [i] lies in voxel [k]: on every axis the coordinate of [k] is
    the floor of the quotient. *)
Definition in_voxel (i : Z) (k : Vector3i) : Prop :=
  ∀ a, (a < 3)%nat → SF_floor (axis_quotient a i) = Some (axis a k).

(** The points of [b] are the points with an entirely finite position
    that lie in voxel [k], in increasing order. *)
Definition bucket_of (k : Vector3i) (b : list Z) : Prop :=
  StronglySorted Z.lt b
  ∧ ∀ i, i ∈ b ↔ 0 <= i < size this ∧ entirely_finite (position this i) ∧ in_voxel i k.

(** Column [j] of [out] holds the means over the points [b]: the mean
    position, the mean of the finite normals, the mean colour and the mean
    of the finite descriptors. *)
Definition means_of (out : PointCloud) (j : nat) (b : list Z) : Prop :=
  columns (Storage.xyzs_ (storage_ out)) !! j
  = Some (arithmetic_mean F64.of_float F32.of_double 3
            (pick b (Storage.xyzs_ (storage_ this))))
  ∧ (has_normals this = true →
     columns (Storage.normals_ (storage_ out)) !! j
     = Some (arithmetic_mean F64.of_float F32.of_double 3
               (keep_finite (pick b (Storage.normals_ (storage_ this))))))
  ∧ (has_rgbs this = true →
     columns (Storage.rgbs_ (storage_ out)) !! j
     = Some (arithmetic_mean C_to_double double_to_C 3
               (pick b (Storage.rgbs_ (storage_ this)))))
  ∧ (has_descriptors this = true →
     columns (Storage.descriptors_ (storage_ out)) !! j
     = Some (arithmetic_mean F64.of_float F32.of_double
               (rows (Storage.descriptors_ (storage_ this)))
               (keep_finite (pick b (Storage.descriptors_ (storage_ this)))))).

(** [out] is the cloud down-sampled on the voxels [keys]: one point per
    voxel that holds a point with a finite position, no voxel twice, and
    point [j] holds the means over the bucket of voxel [keys !! j]. *)
Definition voxel_means (keys : list Vector3i) (out : PointCloud) : Prop :=
  fields out = fields this ∧ size out = Z.of_nat (length keys)
  ∧ NoDup keys
  ∧ (∀ k, k ∈ keys ↔
          ∃ i, 0 <= i < size this ∧ entirely_finite (position this i) ∧ in_voxel i k)
  ∧ (∀ j k, keys !! j = Some k →
       ∃ b, bucket_of k b ∧ means_of out j b).

(** Every voxel coordinate is a number that fits an [int]. *)
Definition voxels_fit : Prop :=
  ∀ i a, 0 <= i < size this → entirely_finite (position this i) → (a < 3)%nat →
         ∃ z, SF_floor (axis_quotient a i) = Some z ∧ in_int z = true.
End DownSampleMeans.

(** ** The copy with fewer fields *)

Section NarrowingCopy.
Context `{Platform}.

(** [c] has the size of [other] and the field set [f], and every field of
    [f] holds the columns of [other]. *)
Definition narrowed_from (f : Fields) (other c : PointCloud) : Prop :=
  size c = size other ∧ fields c = f
  ∧ (pc_flags.contains f (pc_flags.base pc_flags.kXYZs) = true →
     columns (Storage.xyzs_ (storage_ c)) = columns (Storage.xyzs_ (storage_ other)))
  ∧ (pc_flags.contains f (pc_flags.base pc_flags.kNormals) = true →
     columns (Storage.normals_ (storage_ c))
     = columns (Storage.normals_ (storage_ other)))
  ∧ (pc_flags.contains f (pc_flags.base pc_flags.kRGBs) = true →
     columns (Storage.rgbs_ (storage_ c)) = columns (Storage.rgbs_ (storage_ other)))
  ∧ (pc_flags.has_descriptor f = true →
     columns (Storage.descriptors_ (storage_ c))
     = columns (Storage.descriptors_ (storage_ other))).
End NarrowingCopy.

(** ** The expected output of the examples *)

Module Expected.
(** The example of the spec for [VoxelizedDownSample]: the mean of
    (0.1, 0, 0) and (0.2, 0, 0) is (0.15, 0, 0), and (5, 0, 0) stays. *)
Definition V3 : @PointCloud byte_platform :=
  Sample.positions [[Sample.f32 10066330 (-26); Sample.f32 0 0; Sample.f32 0 0];
                    Sample.point 5 0 0].

(** The box from (0.5, 0.5, 0.5) to (1, 1, 1) holds the first and the
    fourth of the four points of [Sample.P4]. *)
Definition half : list T := [Sample.f32 1 (-1); Sample.f32 1 (-1); Sample.f32 1 (-1)].
Definition P4_cropped : @PointCloud byte_platform :=
  Sample.positions [half; Sample.point 1 1 1].

(** The positions of [Sample.N], without its normals. *)
Definition N_positions : @PointCloud byte_platform :=
  Sample.positions [Sample.point 1 1 1; Sample.point 2 2 2].
End Expected.
(** ** Field sets: basic facts *)

Lemma contains_base (f : Fields) (k : Z) :
  pc_flags.contains f (pc_flags.base k) = (Z.land (pc_flags.base_fields f) k =? k).
Proof.
  unfold pc_flags.contains, pc_flags.eqb, pc_flags.and, pc_flags.base. simpl.
  destruct (Z.eqb_spec (Z.land (pc_flags.base_fields f) k) k) as [E|E].
  - apply bool_decide_eq_true. rewrite E. f_equal.
    case_bool_decide; congruence.
  - apply bool_decide_eq_false. intros [= E']. contradiction.
Qed.

Lemma eqb_true (a b : Fields) : pc_flags.eqb a b = true ↔ a = b.
Proof. unfold pc_flags.eqb. apply bool_decide_eq_true. Qed.

Lemma eqb_false (a b : Fields) : pc_flags.eqb a b = false ↔ a ≠ b.
Proof. unfold pc_flags.eqb. apply bool_decide_eq_false. Qed.

Lemma contains_refl (f : Fields) : pc_flags.contains f f = true.
Proof.
  unfold pc_flags.contains. apply eqb_true. destruct f as [b d].
  unfold pc_flags.and. simpl. rewrite Z.land_diag.
  rewrite bool_decide_eq_true_2 by reflexivity. reflexivity.
Qed.

(** A field set that is neither empty nor marked [kInherit] names at least
    one buffer. *)
Lemma some_field_present (f : Fields) :
  pc_flags.valid f →
  f ≠ pc_flags.base pc_flags.kNone →
  pc_flags.contains f (pc_flags.base pc_flags.kInherit) = false →
  pc_flags.contains f (pc_flags.base pc_flags.kXYZs) = true
  ∨ pc_flags.contains f (pc_flags.base pc_flags.kNormals) = true
  ∨ pc_flags.contains f (pc_flags.base pc_flags.kRGBs) = true
  ∨ pc_flags.has_descriptor f = true.
Proof.
  intros Hv Hn Hi. rewrite !contains_base in *. unfold pc_flags.valid in Hv.
  destruct f as [b d]. simpl in *.
  destruct (decide (d = pc_flags.kDescriptorNone)) as [->|Hd].
  - assert (b ≠ 0) as Hb by (intros ->; apply Hn; reflexivity).
    assert (b = 1 ∨ b = 2 ∨ b = 3 ∨ b = 4 ∨ b = 5 ∨ b = 6 ∨ b = 7 ∨ b = 8 ∨ b = 9
            ∨ b = 10 ∨ b = 11 ∨ b = 12 ∨ b = 13 ∨ b = 14 ∨ b = 15) as Hc by lia.
    repeat (destruct Hc as [->|Hc]); try subst b; vm_compute in Hi; try discriminate;
      vm_compute; auto.
  - right; right; right. unfold pc_flags.has_descriptor. simpl.
    apply bool_decide_eq_true. exact Hd.
Qed.

(** ** Eigen operations *)

Arguments Eigen.fresh : simpl never.

Section EigenFacts.
Context {A : Type}.
Implicit Types (m : Mat A) (n : Z).

Lemma length_fresh (u : nat → nat → A) r start count :
  length (Eigen.fresh u r start count) = count.
Proof. unfold Eigen.fresh. by rewrite length_fmap, length_seq. Qed.

Lemma conservativeResize_ok u n m :
  0 <= n → Eigen.conservativeResize u n m = Ok (resized u n m).
Proof.
  intros Hn. unfold Eigen.conservativeResize.
  destruct (Z.ltb_spec n 0); [lia | reflexivity].
Qed.

Lemma conservativeResize_negative u n m :
  n < 0 → is_ok (Eigen.conservativeResize u n m) = false.
Proof.
  intros Hn. unfold Eigen.conservativeResize.
  destruct (Z.ltb_spec n 0); [reflexivity | lia].
Qed.

Lemma cols_resized u n m : 0 <= n → cols (resized u n m) = n.
Proof.
  intros Hn. unfold cols, resized. simpl.
  rewrite length_app, length_take, length_fresh. lia.
Qed.

Lemma rows_resized u n m : rows (resized u n m) = rows m.
Proof. reflexivity. Qed.

Lemma setConstant_ok start num (v : A) m :
  Eigen.block_ok start num m = true →
  Eigen.setConstant start num v m = Ok (filled start num v m).
Proof. intros Hb. unfold Eigen.setConstant. by rewrite Hb. Qed.

Lemma block_ok_iff start num m :
  Eigen.block_ok start num m = true ↔ 0 <= start ∧ 0 <= num ∧ start + num <= cols m.
Proof. unfold Eigen.block_ok. rewrite !andb_true_iff, !Z.leb_le. tauto. Qed.
End EigenFacts.

(** ** Storage *)

Section StorageFacts.
Context `{Platform}.

Lemma Storage_resize_ok n s :
  0 <= n → Storage.resize n s = Ok (resized_storage n s).
Proof.
  intros Hn. unfold Storage.resize, resized_storage, Storage.CheckInvariants.
  destruct s as [f sz x nm c d]. simpl.
  destruct (pc_flags.contains f (pc_flags.base pc_flags.kXYZs));
    destruct (pc_flags.contains f (pc_flags.base pc_flags.kNormals));
    destruct (pc_flags.contains f (pc_flags.base pc_flags.kRGBs));
    destruct (pc_flags.has_descriptor f);
    rewrite ?conservativeResize_ok by done; simpl;
    unfold Storage.size; simpl;
    rewrite ?cols_resized by done; rewrite ?Z.eqb_refl; reflexivity.
Qed.

Lemma Storage_resize_negative n s :
  n < 0 →
  pc_flags.contains (Storage.fields_ s) (pc_flags.base pc_flags.kXYZs) = true
  ∨ pc_flags.contains (Storage.fields_ s) (pc_flags.base pc_flags.kNormals) = true
  ∨ pc_flags.contains (Storage.fields_ s) (pc_flags.base pc_flags.kRGBs) = true
  ∨ pc_flags.has_descriptor (Storage.fields_ s) = true →
  is_ok (Storage.resize n s) = false.
Proof.
  intros Hn Hf. unfold Storage.resize. destruct s as [f sz x nm c d]. simpl in *.
  unfold Eigen.conservativeResize.
  destruct (Z.ltb_spec n 0); [|lia].
  destruct (pc_flags.contains f (pc_flags.base pc_flags.kXYZs));
    [reflexivity|].
  destruct (pc_flags.contains f (pc_flags.base pc_flags.kNormals));
    [reflexivity|].
  destruct (pc_flags.contains f (pc_flags.base pc_flags.kRGBs));
    [reflexivity|].
  destruct (pc_flags.has_descriptor f); [reflexivity|].
  destruct Hf as [?|[?|[?|?]]]; discriminate.
Qed.
End StorageFacts.

(** ** SetDefault *)

Section SetDefaultFacts.
Context `{Platform}.

Lemma SetDefault_ok start num c :
  (has_xyzs c = true → Eigen.block_ok start num (Storage.xyzs_ (storage_ c)) = true) →
  (has_normals c = true →
   Eigen.block_ok start num (Storage.normals_ (storage_ c)) = true) →
  (has_rgbs c = true → Eigen.block_ok start num (Storage.rgbs_ (storage_ c)) = true) →
  (has_descriptors c = true →
   Eigen.block_ok start num (Storage.descriptors_ (storage_ c)) = true) →
  SetDefault start num c = (Ok tt, defaulted start num c).
Proof.
  intros Hx Hn Hr Hd.
  unfold SetDefault, defaulted, when, mbind, method_bind,
    mutable_xyzs, mutable_normals, mutable_rgbs, mutable_descriptors.
  destruct c as [sz f [sf ss x nm cl d]].
  unfold has_xyzs, has_normals, has_rgbs, has_descriptors in *. simpl in *.
  destruct (pc_flags.contains f (pc_flags.base pc_flags.kXYZs)) eqn:Ex; simpl;
    [rewrite setConstant_ok by auto; simpl|];
    (destruct (pc_flags.contains f (pc_flags.base pc_flags.kNormals)) eqn:En; simpl;
     [rewrite setConstant_ok by auto; simpl|]);
    (destruct (pc_flags.contains f (pc_flags.base pc_flags.kRGBs)) eqn:Er; simpl;
     [rewrite setConstant_ok by auto; simpl|]);
    (destruct (pc_flags.has_descriptor f) eqn:Ed; simpl;
     [rewrite setConstant_ok by auto; simpl|]);
    reflexivity.
Qed.
End SetDefaultFacts.

(** ** Construction *)

Section Construction.
Context `{Platform}.

Lemma cols_allocated_block n f :
  0 <= n →
  let c := allocated n f in
  (has_xyzs c = true → Eigen.block_ok 0 n (Storage.xyzs_ (storage_ c)) = true)
  ∧ (has_normals c = true → Eigen.block_ok 0 n (Storage.normals_ (storage_ c)) = true)
  ∧ (has_rgbs c = true → Eigen.block_ok 0 n (Storage.rgbs_ (storage_ c)) = true)
  ∧ (has_descriptors c = true →
     Eigen.block_ok 0 n (Storage.descriptors_ (storage_ c)) = true).
Proof.
  intros Hn. unfold allocated, has_xyzs, has_normals, has_rgbs, has_descriptors.
  simpl. repeat split; intros ->; apply block_ok_iff;
    rewrite cols_resized by done; lia.
Qed.

Lemma PointCloud_new_ok n f skip :
  f ≠ pc_flags.base pc_flags.kNone →
  pc_flags.contains f (pc_flags.base pc_flags.kInherit) = false →
  0 <= n →
  PointCloud_new n f skip
  = Ok (if skip then allocated n f else defaulted 0 n (allocated n f)).
Proof.
  intros Hnone Hinh Hn. unfold PointCloud_new.
  rewrite (proj2 (eqb_false _ _) Hnone), Hinh.
  unfold Storage.make. fold (empty_storage f).
  rewrite Storage_resize_ok by done. simpl.
  fold (allocated n f). destruct skip; [reflexivity|].
  unfold exec. destruct (cols_allocated_block n f Hn) as (Hx & Hm & Hr & Hd).
  rewrite SetDefault_ok by done. reflexivity.
Qed.

Lemma PointCloud_new_negative n f skip :
  pc_flags.valid f → n < 0 → is_ok (PointCloud_new n f skip) = false.
Proof.
  intros Hv Hn. unfold PointCloud_new.
  destruct (pc_flags.eqb f (pc_flags.base pc_flags.kNone)) eqn:E1; [reflexivity|].
  destruct (pc_flags.contains f (pc_flags.base pc_flags.kInherit)) eqn:E2;
    [reflexivity|].
  apply eqb_false in E1.
  pose proof (some_field_present f Hv E1 E2) as Hp.
  unfold Storage.make.
  pose proof (Storage_resize_negative n
    (Storage.mk f 0 (mkMat 3 []) (mkMat 3 []) (mkMat 3 [])
       (mkMat (pc_flags.size (pc_flags.descriptor_type f)) [])) Hn Hp) as Hr.
  destruct (Storage.resize _ _); [discriminate | reflexivity].
Qed.

Lemma size_defaulted start num c : size (defaulted start num c) = size c.
Proof. reflexivity. Qed.

Lemma fields_defaulted start num c : fields (defaulted start num c) = fields c.
Proof. reflexivity. Qed.
End Construction.

(** C8. Construction fails, producing no object, exactly when the requested
    field set is the [kNone] sentinel, contains the [kInherit] sentinel, or
    the requested point count is negative; for every other count and field
    set it succeeds, and the cloud has the requested size and field set.
    The negative count is not tested by the constructor itself: it violates
    the precondition of the Eigen resize that allocates the first buffer. *)
Theorem construction_fails_exactly `{Platform} (count : Z) (f : Fields) (skip : bool) :
  pc_flags.valid f →
  (is_ok (PointCloud_new count f skip) = false
   ↔ f = pc_flags.base pc_flags.kNone
     ∨ pc_flags.contains f (pc_flags.base pc_flags.kInherit) = true
     ∨ count < 0)
  ∧ (∀ c, PointCloud_new count f skip = Ok c → size c = count ∧ fields c = f).
Proof.
  intros Hv.
  destruct (decide (f = pc_flags.base pc_flags.kNone)) as [E1|E1].
  { split; [|subst f; intros c Hc; discriminate Hc].
    subst f. split; [auto | reflexivity]. }
  destruct (pc_flags.contains f (pc_flags.base pc_flags.kInherit)) eqn:E2.
  { assert (∀ r, PointCloud_new count f skip = r → is_ok r = false) as Hf.
    { intros r <-. unfold PointCloud_new.
      rewrite (proj2 (eqb_false _ _) E1), E2. reflexivity. }
    split; [split; [auto | intros _; by apply Hf]|].
    intros c Hc. apply Hf in Hc. discriminate. }
  destruct (Z.lt_ge_cases count 0) as [Hn|Hn].
  { pose proof (PointCloud_new_negative count f skip Hv Hn) as Hf.
    split; [split; auto|]. intros c Hc. rewrite Hc in Hf. discriminate. }
  rewrite (PointCloud_new_ok count f skip E1 E2 Hn). split.
  - split; [discriminate|]. intros [?|[?|?]]; [contradiction | discriminate | lia].
  - intros c [= <-]. destruct skip; split; reflexivity.
Qed.

(** ** resize and Expand *)

Section Resize.
Context `{Platform}.

Lemma resize_ok n skip c :
  valid c → 0 <= n → resize n skip c = (Ok tt, resized_cloud n skip c).
Proof.
  intros Hv Hn. unfold resize, resized_cloud, DRAKE_DEMAND.
  destruct (Z.leb_spec 0 n); [|lia]. simpl.
  rewrite Storage_resize_ok by done. unfold Storage.size. simpl.
  rewrite Z.eqb_refl.
  destruct ((size c <? n) && negb skip) eqn:E; [|reflexivity].
  apply andb_true_iff in E as [E _]. apply Z.ltb_lt in E. unfold size in E.
  pose proof (valid_size c Hv) as Hs.
  apply SetDefault_ok; unfold has_xyzs, has_normals, has_rgbs, has_descriptors;
    simpl; rewrite (valid_storage_fields c Hv); intros ->;
    apply block_ok_iff; rewrite cols_resized by done; unfold size; lia.
Qed.

Lemma Expand_ok add skip c :
  valid c → 0 <= add → size c + add <= INT_MAX →
  Expand add skip c = (Ok tt, resized_cloud (size c + add) skip c).
Proof.
  intros Hv Ha Hb. unfold Expand, DRAKE_DEMAND, int_add, in_int.
  pose proof (valid_size c Hv) as Hs. unfold size in *.
  destruct (Z.leb_spec 0 add); [|lia]. simpl.
  destruct (Z.leb_spec INT_MIN (size_ c + add)); [|unfold INT_MIN in *; lia].
  destruct (Z.leb_spec (size_ c + add) INT_MAX); [|lia]. simpl.
  apply resize_ok; [done | lia].
Qed.

Lemma grown_resized {A} (u : nat → nat → A) (v : A) n sz (m : Mat A) :
  cols m = sz → 0 <= n → n <= sz →
  grown (rows m) v n m (resized u n m).
Proof.
  intros Hc Hn Hle. unfold grown, resized, cols in *. simpl.
  replace (Z.to_nat n - length (columns m))%nat with 0%nat by lia.
  reflexivity.
Qed.

Lemma grown_filled {A} (u : nat → nat → A) (v : A) n sz (m : Mat A) :
  cols m = sz → 0 <= sz → sz < n →
  grown (rows m) v n m (filled sz (n - sz) v (resized u n m)).
Proof.
  intros Hc Hs Hlt. unfold grown, filled, resized, cols in *. simpl.
  assert (length (columns m) = Z.to_nat sz) as Hl by lia.
  rewrite (take_ge (columns m)) by lia.
  rewrite take_app_length' by done.
  rewrite drop_ge, app_nil_r.
  - f_equal. f_equal. lia.
  - rewrite length_app, length_fresh. lia.
Qed.

Lemma resized_cloud_grown n c :
  valid c → 0 <= n → default_grown n c (resized_cloud n false c).
Proof.
  intros Hv Hn. pose proof (valid_size c Hv) as Hs.
  unfold default_grown, resized_cloud. rewrite andb_true_r.
  destruct (Z.ltb_spec (size c) n) as [Hlt|Hge]; unfold size in *.
  - split; [reflexivity|]. split; [reflexivity|].
    unfold defaulted, has_xyzs, has_normals, has_rgbs, has_descriptors, resized_storage,
      fields.
    simpl. rewrite (valid_storage_fields c Hv).
    repeat split; intros Hp; rewrite Hp.
    + destruct (valid_xyzs c Hv Hp) as (Hr & Hc & _). rewrite <- Hr.
      apply grown_filled; [done | lia | lia].
    + destruct (valid_normals c Hv Hp) as (Hr & Hc & _). rewrite <- Hr.
      apply grown_filled; [done | lia | lia].
    + destruct (valid_rgbs c Hv Hp) as (Hr & Hc & _). rewrite <- Hr.
      apply grown_filled; [done | lia | lia].
    + destruct (valid_descriptors c Hv Hp) as (Hr & Hc & _). rewrite <- Hr.
      apply grown_filled; [done | lia | lia].
  - split; [reflexivity|]. split; [reflexivity|].
    unfold has_xyzs, has_normals, has_rgbs, has_descriptors, resized_storage, fields.
    simpl. rewrite (valid_storage_fields c Hv).
    repeat split; intros Hp; rewrite Hp.
    + destruct (valid_xyzs c Hv Hp) as (Hr & Hc & _). rewrite <- Hr.
      eapply grown_resized; [done | lia | lia].
    + destruct (valid_normals c Hv Hp) as (Hr & Hc & _). rewrite <- Hr.
      eapply grown_resized; [done | lia | lia].
    + destruct (valid_rgbs c Hv Hp) as (Hr & Hc & _). rewrite <- Hr.
      eapply grown_resized; [done | lia | lia].
    + destruct (valid_descriptors c Hv Hp) as (Hr & Hc & _). rewrite <- Hr.
      eapply grown_resized; [done | lia | lia].
Qed.
End Resize.

Section ConstructionDefaults.
Context `{Platform}.

Lemma filled_allocated {A} (u : nat → nat → A) (v : A) n r :
  0 <= n →
  columns (filled 0 n v (resized u n (mkMat r []))) = replicate (Z.to_nat n) (replicate r v).
Proof.
  intros Hn. unfold filled, resized. simpl.
  rewrite drop_ge, app_nil_r; [reflexivity|].
  rewrite length_app, length_take, length_fresh. simpl. lia.
Qed.
End ConstructionDefaults.

(** C7. Constructing a cloud without [skip_initialize] fills every column of
    every present field with the default of the field, and growing a cloud
    with [resize] or [Expand] without [skip_initialize] fills every new
    column with it, while the retained columns (all of them when growing,
    the first [n] when shrinking) are unchanged.  The default of positions,
    normals and descriptors is [kDefaultValue], the zero of the spec; the
    default colour is the [kDefaultColor] of the header. *)
Theorem defaults_fill_new_columns `{Platform} :
  (∀ n f,
     f ≠ pc_flags.base pc_flags.kNone →
     pc_flags.contains f (pc_flags.base pc_flags.kInherit) = false →
     0 <= n →
     ∃ c, PointCloud_new n f false = Ok c ∧ size c = n ∧ fields c = f
       ∧ (has_xyzs c = true →
          columns (Storage.xyzs_ (storage_ c))
          = replicate (Z.to_nat n) (replicate 3 kDefaultValue))
       ∧ (has_normals c = true →
          columns (Storage.normals_ (storage_ c))
          = replicate (Z.to_nat n) (replicate 3 kDefaultValue))
       ∧ (has_rgbs c = true →
          columns (Storage.rgbs_ (storage_ c))
          = replicate (Z.to_nat n) (replicate 3 kDefaultColor))
       ∧ (has_descriptors c = true →
          columns (Storage.descriptors_ (storage_ c))
          = replicate (Z.to_nat n)
              (replicate (pc_flags.size (pc_flags.descriptor_type f)) kDefaultValue)))
  ∧ (∀ n c, valid c → 0 <= n →
       ∃ c', resize n false c = (Ok tt, c') ∧ default_grown n c c')
  ∧ (∀ add c, valid c → 0 <= add → size c + add <= INT_MAX →
       ∃ c', Expand add false c = (Ok tt, c') ∧ default_grown (size c + add) c c')
  ∧ kDefaultValue = S754_zero false.
Proof.
  split; [|split; [|split; [|reflexivity]]].
  - intros n f Hnone Hinh Hn. eexists. split; [by apply PointCloud_new_ok|].
    split; [reflexivity|]. split; [reflexivity|].
    unfold defaulted, allocated, resized_storage, empty_storage,
      has_xyzs, has_normals, has_rgbs, has_descriptors.
    simpl. repeat split; intros Hp; rewrite Hp;
      first [exact (filled_allocated _ _ _ 3%nat Hn) | by apply filled_allocated].
  - intros n c Hv Hn. eexists. split; [by apply resize_ok|].
    by apply resized_cloud_grown.
  - intros add c Hv Ha Hb. eexists. split; [by apply Expand_ok|].
    apply resized_cloud_grown; [done|]. pose proof (valid_size c Hv). unfold size. lia.
Qed.

(** ** The class invariant is kept *)

Section Shapes.
Context {A : Type}.
Implicit Types (m : Mat A).

Lemma Forall_fresh (u : nat → nat → A) r start count :
  Forall (λ c, length c = r) (Eigen.fresh u r start count).
Proof.
  unfold Eigen.fresh. apply Forall_fmap, Forall_forall. intros j _. simpl.
  by rewrite length_fmap, length_seq.
Qed.

Lemma shaped_resized (u : nat → nat → A) r k n m :
  shaped r k m → 0 <= n → shaped r n (resized u n m).
Proof.
  intros (Hr & _ & Hf) Hn. split; [exact Hr|]. split; [by apply cols_resized|].
  unfold resized. simpl. apply Forall_app. split.
  - by apply Forall_take.
  - rewrite Hr. apply Forall_fresh.
Qed.

Lemma shaped_filled r n start num (v : A) m :
  shaped r n m → Eigen.block_ok start num m = true →
  shaped r n (filled start num v m).
Proof.
  intros (Hr & Hc & Hf) Hb. apply block_ok_iff in Hb as (H0 & H1 & H2).
  unfold cols in *. split; [exact Hr|]. split.
  - unfold filled, cols. simpl.
    rewrite !length_app, length_take, length_replicate, length_drop. lia.
  - unfold filled. simpl. rewrite !Forall_app. split; [by apply Forall_take|].
    split; [|by apply Forall_drop].
    apply Forall_replicate. rewrite length_replicate. exact Hr.
Qed.

Lemma shaped_empty r : shaped r 0 (@mkMat A r []).
Proof. repeat split. constructor. Qed.
End Shapes.

Section Validity.
Context `{Platform}.

(** Resizing the storage of a cloud whose buffers have the right heights
    gives a valid cloud, whatever the number of columns was. *)
Lemma valid_resized_storage n f s :
  0 <= n <= INT_MAX →
  f ≠ pc_flags.base pc_flags.kNone →
  pc_flags.contains f (pc_flags.base pc_flags.kInherit) = false →
  Storage.fields_ s = f →
  (pc_flags.contains f (pc_flags.base pc_flags.kXYZs) = true →
   ∃ k, shaped 3 k (Storage.xyzs_ s)) →
  (pc_flags.contains f (pc_flags.base pc_flags.kNormals) = true →
   ∃ k, shaped 3 k (Storage.normals_ s)) →
  (pc_flags.contains f (pc_flags.base pc_flags.kRGBs) = true →
   ∃ k, shaped 3 k (Storage.rgbs_ s)) →
  (pc_flags.has_descriptor f = true →
   ∃ k, shaped (pc_flags.size (pc_flags.descriptor_type f)) k (Storage.descriptors_ s)) →
  valid (mkPointCloud n f (resized_storage n s)).
Proof.
  intros Hn Hnone Hinh Hsf Hx Hm Hr Hd.
  split; simpl; try done;
    unfold has_xyzs, has_normals, has_rgbs, has_descriptors, resized_storage;
    simpl; rewrite Hsf; intros Hp; rewrite Hp.
  - destruct (Hx Hp) as [k Hk]. eapply shaped_resized; [exact Hk | lia].
  - destruct (Hm Hp) as [k Hk]. eapply shaped_resized; [exact Hk | lia].
  - destruct (Hr Hp) as [k Hk]. eapply shaped_resized; [exact Hk | lia].
  - destruct (Hd Hp) as [k Hk]. eapply shaped_resized; [exact Hk | lia].
Qed.

Lemma valid_defaulted start num c :
  valid c →
  (has_xyzs c = true → Eigen.block_ok start num (Storage.xyzs_ (storage_ c)) = true) →
  (has_normals c = true →
   Eigen.block_ok start num (Storage.normals_ (storage_ c)) = true) →
  (has_rgbs c = true → Eigen.block_ok start num (Storage.rgbs_ (storage_ c)) = true) →
  (has_descriptors c = true →
   Eigen.block_ok start num (Storage.descriptors_ (storage_ c)) = true) →
  valid (defaulted start num c).
Proof.
  intros [Hs Hnone Hinh Hsf Hss Hx Hm Hr Hd] Bx Bm Br Bd.
  split; simpl; try done; intros Hp.
  - change (has_xyzs c = true) in Hp. rewrite Hp. apply shaped_filled; auto.
  - change (has_normals c = true) in Hp. rewrite Hp. apply shaped_filled; auto.
  - change (has_rgbs c = true) in Hp. rewrite Hp. apply shaped_filled; auto.
  - change (has_descriptors c = true) in Hp. rewrite Hp. apply shaped_filled; auto.
Qed.

Lemma valid_resized_cloud n skip c :
  valid c → 0 <= n <= INT_MAX → valid (resized_cloud n skip c).
Proof.
  intros Hv Hn.
  assert (valid (mkPointCloud n (fields_ c) (resized_storage n (storage_ c)))) as Hv'.
  { destruct Hv as [Hs Hnone Hinh Hsf Hss Hx Hm Hr Hd].
    apply valid_resized_storage; try done; intros Hp; eexists; eauto. }
  unfold resized_cloud.
  destruct ((size c <? n) && negb skip) eqn:E; [|exact Hv'].
  apply andb_true_iff in E as [E _]. apply Z.ltb_lt in E. unfold size in E.
  pose proof (valid_size c Hv) as Hs.
  apply valid_defaulted; [exact Hv'|..]; intros Hp; apply block_ok_iff;
    [destruct (valid_xyzs _ Hv' Hp) as (_ & Hc & _)
    |destruct (valid_normals _ Hv' Hp) as (_ & Hc & _)
    |destruct (valid_rgbs _ Hv' Hp) as (_ & Hc & _)
    |destruct (valid_descriptors _ Hv' Hp) as (_ & Hc & _)];
    simpl in Hc |- *; rewrite Hc; unfold size; lia.
Qed.

Lemma valid_allocated n f :
  0 <= n <= INT_MAX →
  f ≠ pc_flags.base pc_flags.kNone →
  pc_flags.contains f (pc_flags.base pc_flags.kInherit) = false →
  valid (allocated n f).
Proof.
  intros Hn Hnone Hinh. unfold allocated.
  apply valid_resized_storage; try done; intros _; exists 0; apply shaped_empty.
Qed.

Lemma valid_PointCloud_new n f skip c :
  0 <= n <= INT_MAX → PointCloud_new n f skip = Ok c → valid c.
Proof.
  intros Hn Hc.
  destruct (decide (f = pc_flags.base pc_flags.kNone)) as [->|Hnone];
    [discriminate Hc|].
  destruct (pc_flags.contains f (pc_flags.base pc_flags.kInherit)) eqn:Hinh.
  { unfold PointCloud_new in Hc.
    rewrite (proj2 (eqb_false _ _) Hnone), Hinh in Hc. discriminate. }
  rewrite PointCloud_new_ok in Hc by (done || lia). injection Hc as <-.
  pose proof (valid_allocated n f Hn Hnone Hinh) as Hv.
  destruct skip; [exact Hv|].
  destruct (cols_allocated_block n f (proj1 Hn)) as (Bx & Bm & Br & Bd).
  by apply valid_defaulted.
Qed.
End Validity.

(** ** Move assignment *)

Section MoveAssignment.
Context `{Platform}.

Lemma resize_shrink n skip c :
  0 <= n → n <= size c →
  resize n skip c = (Ok tt, mkPointCloud n (fields_ c) (resized_storage n (storage_ c))).
Proof.
  intros Hn Hle. unfold resize, DRAKE_DEMAND.
  destruct (Z.leb_spec 0 n); [|lia]. simpl.
  rewrite Storage_resize_ok by done. unfold Storage.size. simpl.
  rewrite Z.eqb_refl.
  destruct (Z.ltb_spec (size c) n); [lia|]. reflexivity.
Qed.

Lemma RequireExactFields_ok f c :
  fields c = f → RequireExactFields f c = Ok tt.
Proof.
  intros <-. unfold RequireExactFields, HasExactFields.
  by rewrite (proj2 (eqb_true _ _) eq_refl).
Qed.

Lemma RequireExactFields_fail f c :
  fields c ≠ f →
  RequireExactFields f c
  = Fail (RuntimeError "PointCloud does not have the exact expected fields.").
Proof.
  intros Hne. unfold RequireExactFields, HasExactFields.
  by rewrite (proj2 (eqb_false _ _) Hne).
Qed.
End MoveAssignment.

(** C6. Move assignment between clouds whose field sets are not exactly
    equal fails with a field-set mismatch error (and leaves both clouds as
    they were); between clouds with equal field sets it succeeds: the
    receiver becomes what the source was (its storage and its size), and the
    source is left a valid cloud of size zero with its original field set. *)
Theorem move_assignment_exact_fields `{Platform} (a b : PointCloud) :
  valid a → valid b →
  (fields a ≠ fields b →
   assign_move b a
   = (Fail (RuntimeError "PointCloud does not have the exact expected fields."), (a, b)))
  ∧ (fields a = fields b →
     ∃ b', assign_move b a = (Ok tt, (b, b'))
           ∧ valid b' ∧ size b' = 0 ∧ fields b' = fields b).
Proof.
  intros Ha Hb. split; intros Hf; unfold assign_move.
  - by rewrite RequireExactFields_fail.
  - rewrite RequireExactFields_ok by done.
    unfold DRAKE_DEMAND, Storage.size, size. simpl.
    rewrite (valid_storage_size b Hb), Z.eqb_refl.
    pose proof (valid_size b Hb) as Hs.
    rewrite resize_shrink by (unfold size; simpl; lia). simpl.
    unfold fields in Hf.
    exists (mkPointCloud 0 (fields_ b) (resized_storage 0 (storage_ a))).
    split; [|split; [|split; reflexivity]].
    + rewrite Hf. by destruct b.
    + destruct Ha as [Has Hnone Hinh Hsf Hss Hx Hm Hr Hd].
      unfold has_xyzs, has_normals, has_rgbs, has_descriptors in *.
      rewrite Hf in *.
      apply valid_resized_storage; try done; try (unfold INT_MAX; lia);
        intros Hp; eexists; eauto.
Qed.

(** ** The field set of a cloud never changes *)

Section FieldSet.
Context `{Platform}.

Lemma keeps_fields_bind {A B} (m : method A) (k : A → method B) :
  keeps_fields m → (∀ a, keeps_fields (k a)) → keeps_fields (m ≫= k).
Proof.
  intros Hm Hk c. unfold mbind, method_bind.
  specialize (Hm c). destruct (m c) as [[a|e] c']; simpl in *; [|exact Hm].
  rewrite Hk. exact Hm.
Qed.

Lemma keeps_fields_ret {A} (a : A) : keeps_fields (mret a).
Proof. intros c. reflexivity. Qed.

Lemma keeps_fields_lift {A} (r : result A) : keeps_fields (lift r).
Proof. intros c. reflexivity. Qed.

Lemma keeps_fields_when p (m : method unit) : keeps_fields m → keeps_fields (when p m).
Proof. intros Hm c. unfold when. destruct (p c); [apply Hm | reflexivity]. Qed.

Lemma keeps_fields_mutable_xyzs w : keeps_fields (mutable_xyzs w).
Proof. intros c. unfold mutable_xyzs. by destruct (_ ;; _). Qed.

Lemma keeps_fields_mutable_normals w : keeps_fields (mutable_normals w).
Proof. intros c. unfold mutable_normals. by destruct (_ ;; _). Qed.

Lemma keeps_fields_mutable_rgbs w : keeps_fields (mutable_rgbs w).
Proof. intros c. unfold mutable_rgbs. by destruct (_ ;; _). Qed.

Lemma keeps_fields_mutable_descriptors w : keeps_fields (mutable_descriptors w).
Proof. intros c. unfold mutable_descriptors. by destruct (_ ;; _). Qed.

Lemma keeps_fields_SetDefault start num : keeps_fields (SetDefault start num).
Proof.
  unfold SetDefault.
  repeat (apply keeps_fields_bind; [|intros _]); apply keeps_fields_when;
    auto using keeps_fields_mutable_xyzs, keeps_fields_mutable_normals,
      keeps_fields_mutable_rgbs, keeps_fields_mutable_descriptors.
Qed.

Lemma keeps_fields_resize n skip : keeps_fields (resize n skip).
Proof.
  intros c. unfold resize.
  destruct (DRAKE_DEMAND (0 <=? n) _); [|reflexivity].
  destruct (Storage.resize n (storage_ c)); [|reflexivity].
  destruct (DRAKE_DEMAND _ _); [|reflexivity].
  destruct (_ && _); [|reflexivity].
  by rewrite keeps_fields_SetDefault.
Qed.

Lemma keeps_fields_Expand n skip : keeps_fields (Expand n skip).
Proof.
  intros c. unfold Expand. destruct (_ ;; _); [|reflexivity].
  apply keeps_fields_resize.
Qed.

Lemma keeps_fields_SetFrom other f allow : keeps_fields (SetFrom other f allow).
Proof.
  intros c. unfold SetFrom.
  apply (keeps_fields_bind _ _); [|intros _].
  { destruct allow; [apply keeps_fields_resize|].
    destruct (negb _); [apply keeps_fields_lift | apply keeps_fields_ret]. }
  apply keeps_fields_bind; [intros c'; reflexivity | intros fr].
  unfold copy_fields_from.
  repeat (apply keeps_fields_bind; [|intros _]);
    match goal with
    | |- keeps_fields (if ?b then _ else _) =>
        destruct b; [|apply keeps_fields_ret];
        (apply keeps_fields_bind; [apply keeps_fields_lift | intros src])
    end;
    auto using keeps_fields_mutable_xyzs, keeps_fields_mutable_normals,
      keeps_fields_mutable_rgbs, keeps_fields_mutable_descriptors.
Qed.

Lemma keeps_fields_run call : keeps_fields (run call).
Proof.
  destruct call; simpl;
    auto using keeps_fields_resize, keeps_fields_Expand, keeps_fields_SetDefault,
      keeps_fields_SetFrom, keeps_fields_mutable_xyzs, keeps_fields_mutable_normals,
      keeps_fields_mutable_rgbs, keeps_fields_mutable_descriptors.
  apply keeps_fields_SetFrom.
Qed.

Lemma PointCloud_new_fields n f skip c :
  PointCloud_new n f skip = Ok c → fields c = f.
Proof.
  unfold PointCloud_new. intros Hc.
  destruct (pc_flags.eqb _ _); [discriminate|].
  destruct (pc_flags.contains _ _); [discriminate|].
  destruct (Storage.make n f) as [s|]; [|discriminate]. simpl in Hc.
  destruct skip; [by injection Hc as <-|].
  unfold exec in Hc.
  pose proof (keeps_fields_SetDefault 0 n (mkPointCloud n f s)) as Hk.
  destruct (SetDefault 0 n _) as [[u|e] c']; [|discriminate].
  injection Hc as <-. exact Hk.
Qed.

Lemma ResolvePairFields_inherit_mismatch a b :
  fields a ≠ fields b →
  ResolvePairFields a b Inherit
  = Fail (RuntimeError "PointCloud does not have the exact expected fields.").
Proof.
  intros Hne. unfold ResolvePairFields, Inherit.
  rewrite (proj2 (eqb_true _ _) eq_refl).
  by rewrite RequireExactFields_fail.
Qed.

(** [SetFrom] in [kInherit] mode on clouds with different field sets: the
    receiver is resized, then the mismatch is thrown. *)
Lemma SetFrom_inherit_mismatch a b :
  valid a → valid b → fields a ≠ fields b →
  SetFrom b Inherit true a
  = (Fail (RuntimeError "PointCloud does not have the exact expected fields."),
     resized_cloud (size b) false a).
Proof.
  intros Ha Hb Hne. unfold SetFrom, mbind, method_bind.
  pose proof (valid_size b Hb) as Hs.
  rewrite resize_ok by (done || (unfold size; lia)).
  rewrite ResolvePairFields_inherit_mismatch; [reflexivity|].
  unfold fields in *.
  pose proof (keeps_fields_resize (size b) false a) as Hk.
  rewrite resize_ok in Hk by (done || (unfold size; lia)). simpl in Hk.
  by rewrite Hk.
Qed.
End FieldSet.

(** C9. No operation changes the field set of a cloud: every member
    function that writes to a cloud leaves its field set as it was, whether
    it succeeds or fails; move assignment and move construction leave the
    field sets of both clouds as they were; and copy assignment from a cloud
    with a different field set throws the field-set mismatch error, the
    receiver keeping its field set. *)
Theorem field_set_never_changes `{Platform} :
  (∀ call c, fields (run call c).2 = fields c)
  ∧ (∀ a b, fields (assign_move b a).2.1 = fields a
            ∧ fields (assign_move b a).2.2 = fields b)
  ∧ (∀ b a' b', PointCloud_move b = Ok (a', b') →
                fields a' = fields b ∧ fields b' = fields b)
  ∧ (∀ a b, valid a → valid b → fields a ≠ fields b →
       ∃ a', assign_copy b a
             = (Fail (RuntimeError "PointCloud does not have the exact expected fields."),
                a')
             ∧ fields a' = fields a).
Proof.
  split; [|split; [|split]].
  - intros call c. apply keeps_fields_run.
  - intros a b. unfold assign_move.
    destruct (RequireExactFields (fields b) a); [|split; reflexivity].
    destruct (DRAKE_DEMAND _ _); [|split; reflexivity].
    pose proof (keeps_fields_resize 0 false
                  (mkPointCloud (size_ b) (fields_ b) (storage_ a))) as Hk.
    destruct (resize 0 false _) as [r c']. simpl in *. split; [reflexivity | exact Hk].
  - intros b a' b' Hm. unfold PointCloud_move in Hm.
    destruct (PointCloud_new 0 (fields b) true) as [c|] eqn:Hc; [|discriminate].
    simpl in Hm. destruct (DRAKE_DEMAND _ _); [|discriminate]. simpl in Hm.
    injection Hm as <- <-. split; [|reflexivity]. simpl.
    unfold PointCloud_new in Hc.
    destruct (pc_flags.eqb _ _); [discriminate|].
    destruct (pc_flags.contains _ _); [discriminate|].
    destruct (Storage.make 0 (fields b)); [|discriminate].
    simpl in Hc. by injection Hc as <-.
  - intros a b Ha Hb Hne. eexists. split.
    + unfold assign_copy. by apply SetFrom_inherit_mismatch.
    + pose proof (keeps_fields_resize (size b) false a) as Hk.
      pose proof (valid_size b Hb) as Hs.
      rewrite resize_ok in Hk by (done || (unfold size; lia)). exact Hk.
Qed.

(** ** SetFrom: what a failing call leaves *)

Section SetFromFailure.
Context `{Platform}.

Lemma throws_nothing_bind {A B} (m : method A) (k : A → method B) :
  throws_nothing m → (∀ a, throws_nothing (k a)) → throws_nothing (m ≫= k).
Proof.
  intros Hm Hk c e c'. unfold mbind, method_bind.
  destruct (m c) as [[a|e0] c0] eqn:E.
  - apply Hk.
  - intros [= <- <-]. by eapply Hm.
Qed.

Lemma throws_nothing_ret {A} (a : A) : throws_nothing (mret a).
Proof. intros c e c'. discriminate. Qed.

Lemma Eigen_assign_no_exception {A} (src m : Mat A) e :
  Eigen.assign src m = Fail e → is_exception e = false.
Proof. unfold Eigen.assign. destruct (_ && _); [discriminate|]. by intros [= <-]. Qed.

Lemma DRAKE_DEMAND_no_exception b text e :
  DRAKE_DEMAND b text = Fail e → is_exception e = false.
Proof. unfold DRAKE_DEMAND. destruct b; [discriminate|]. by intros [= <-]. Qed.

Lemma throws_nothing_copy_fields_from other fr :
  throws_nothing (copy_fields_from other fr).
Proof.
  unfold copy_fields_from.
  repeat (apply throws_nothing_bind; [|intros _]);
    match goal with
    | |- throws_nothing (if ?b then _ else _) =>
        destruct b; [|apply throws_nothing_ret]
    end;
    (apply throws_nothing_bind;
     [intros c e c';
      unfold lift, xyzs, normals, rgbs, descriptors; intros [= E <-];
      destruct (DRAKE_DEMAND _ _) eqn:D; [discriminate E|];
      injection E as <-; by eapply DRAKE_DEMAND_no_exception
     |intros src c e c';
      unfold mutable_xyzs, mutable_normals, mutable_rgbs, mutable_descriptors;
      destruct (DRAKE_DEMAND _ _) eqn:D; simpl;
      [destruct (Eigen.assign _ _) eqn:E; [discriminate|];
       intros [= <- <-]; by eapply Eigen_assign_no_exception
      |intros [= <- <-]; by eapply DRAKE_DEMAND_no_exception]]).
Qed.

Lemma resized_same {A} (u : nat → nat → A) n (m : Mat A) :
  cols m = n → resized u n m = m.
Proof.
  intros Hc. unfold resized, cols in *. destruct m as [r l]. simpl in *. f_equal.
  rewrite take_ge by lia.
  replace (Z.to_nat n - length l)%nat with 0%nat by lia.
  unfold Eigen.fresh. simpl. apply app_nil_r.
Qed.

(** Resizing a valid cloud to its own size changes nothing. *)
Lemma resized_cloud_same skip c : valid c → resized_cloud (size c) skip c = c.
Proof.
  intros [Hs Hnone Hinh Hsf Hss Hx Hm Hr Hd]. unfold resized_cloud.
  rewrite Z.ltb_irrefl. simpl.
  unfold has_xyzs, has_normals, has_rgbs, has_descriptors, size in *.
  destruct c as [sz f [sf ss x nm cl d]]. simpl in *. subst sf ss.
  f_equal. unfold resized_storage. simpl. f_equal.
  - destruct (pc_flags.contains f (pc_flags.base pc_flags.kXYZs)); [|done].
    apply resized_same. by apply Hx.
  - destruct (pc_flags.contains f (pc_flags.base pc_flags.kNormals)); [|done].
    apply resized_same. by apply Hm.
  - destruct (pc_flags.contains f (pc_flags.base pc_flags.kRGBs)); [|done].
    apply resized_same. by apply Hr.
  - destruct (pc_flags.has_descriptor f); [|done]. apply resized_same. by apply Hd.
Qed.

(** The cloud a throwing [SetFrom] leaves: the receiver, resized when
    [allow_resize] is set. *)
Lemma SetFrom_throws b f allow a e a' :
  valid a → valid b →
  SetFrom b f allow a = (Fail e, a') → is_exception e = true →
  a' = if allow then resized_cloud (size b) false a else a.
Proof.
  intros Ha Hb Hs He. unfold SetFrom, mbind, method_bind in Hs.
  pose proof (valid_size b Hb) as Hsb.
  assert (∀ c, match ResolvePairFields c b f with
               | Ok fr => copy_fields_from b fr c
               | Fail f0 => (Fail f0, c)
               end = (Fail e, a') → a' = c) as Hrest.
  { intros c Hc. destruct (ResolvePairFields c b f) as [fr|e0].
    - apply throws_nothing_copy_fields_from in Hc. congruence.
    - by injection Hc as _ <-. }
  destruct allow.
  - rewrite resize_ok in Hs by (done || (unfold size; lia)). by apply Hrest.
  - destruct (negb (size b =? size a)); simpl in Hs.
    + by injection Hs as _ <-.
    + by apply Hrest.
Qed.
End SetFromFailure.

(** C3, as amended. Whenever [SetFrom] throws on valid clouds, the
    receiver is left as it was if [allow_resize] is false or the two clouds
    already have the same size; with [allow_resize] set it is left resized
    to the size of [other] (retained columns unchanged, new columns holding
    the defaults), because the resize precedes the check of the field
    sets. *)
Theorem SetFrom_failure_leaves `{Platform} (a b : PointCloud) (f : Fields)
    (allow_resize : bool) (e : failure) (a' : PointCloud) :
  valid a → valid b →
  SetFrom b f allow_resize a = (Fail e, a') → is_exception e = true →
  (allow_resize = false ∨ size b = size a → a' = a)
  ∧ (allow_resize = true → a' = resized_cloud (size b) false a ∧ default_grown (size b) a a').
Proof.
  intros Ha Hb Hs He. pose proof (SetFrom_throws b f allow_resize a e a' Ha Hb Hs He) as ->.
  split.
  - intros [->| ->]; [reflexivity|]. destruct allow_resize; [|reflexivity].
    by apply resized_cloud_same.
  - intros ->. split; [reflexivity|]. apply resized_cloud_grown; [done|].
    pose proof (valid_size b Hb). unfold size. lia.
Qed.

(** ** Copy construction *)

Section CopyConstruction.
Context `{Platform}.

Lemma Eigen_assign_ok {A} (src m : Mat A) :
  rows src = rows m → cols src = cols m →
  Eigen.assign src m = Ok (mkMat (rows m) (columns src)).
Proof.
  intros Hr Hc. unfold Eigen.assign.
  by rewrite (bool_decide_eq_true_2 _ Hr), Hc, Z.eqb_refl.
Qed.

Lemma shaped_same_size {A} r n (m m' : Mat A) :
  shaped r n m → shaped r n m' → rows m = rows m' ∧ cols m = cols m'.
Proof. intros (-> & -> & _) (-> & -> & _). done. Qed.

Lemma copy_fields_from_ok other c :
  valid other → valid c → fields c = fields other → size c = size other →
  copy_fields_from other (fields other) c = (Ok tt, copied other c).
Proof.
  intros [Os Onone Oinh Osf Oss Ox Om Or Od] [Cs Cnone Cinh Csf Css Cx Cm Cr Cd] Hf Hs.
  unfold copy_fields_from, copied, mbind, method_bind, lift,
    xyzs, normals, rgbs, descriptors,
    mutable_xyzs, mutable_normals, mutable_rgbs, mutable_descriptors.
  destruct c as [sz f [sf ss x nm cl d]].
  destruct other as [osz fo [osf oss ox onm ocl od]].
  unfold has_xyzs, has_normals, has_rgbs, has_descriptors, fields, size in *.
  simpl in *. subst.
  destruct (pc_flags.contains fo (pc_flags.base pc_flags.kXYZs)) eqn:Ex; simpl;
    [rewrite ?Ex; simpl; destruct (shaped_same_size _ _ ox x (Ox eq_refl) (Cx eq_refl)) as [? ?];
     rewrite Eigen_assign_ok by done; simpl|];
    (destruct (pc_flags.contains fo (pc_flags.base pc_flags.kNormals)) eqn:En; simpl;
     [rewrite ?En; simpl; destruct (shaped_same_size _ _ onm nm (Om eq_refl) (Cm eq_refl)) as [? ?];
      rewrite Eigen_assign_ok by done; simpl|]);
    (destruct (pc_flags.contains fo (pc_flags.base pc_flags.kRGBs)) eqn:Er; simpl;
     [rewrite ?Er; simpl; destruct (shaped_same_size _ _ ocl cl (Or eq_refl) (Cr eq_refl)) as [? ?];
      rewrite Eigen_assign_ok by done; simpl|]);
    (destruct (pc_flags.has_descriptor fo) eqn:Ed; simpl;
     [rewrite ?Ed; simpl; destruct (shaped_same_size _ _ od d (Od eq_refl) (Cd eq_refl)) as [? ?];
      rewrite Eigen_assign_ok by done; simpl|]);
    reflexivity.
Qed.

Lemma populated_from_copied other c :
  valid other → valid c → fields c = fields other → size c = size other →
  populated_from other (copied other c) ∧ valid (copied other c).
Proof.
  intros Ho Hc Hf Hs.
  assert (∀ A r n (m o : Mat A), shaped r n m → shaped r n o →
            mkMat (rows m) (columns o) = o) as Heq.
  { intros A r n m [ro lo] (-> & _) (Hr & _). simpl in *. by subst. }
  destruct Ho as [Os Onone Oinh Osf Oss Ox Om Or Od].
  destruct Hc as [Cs Cnone Cinh Csf Css Cx Cm Cr Cd].
  unfold fields, size in *.
  assert (has_xyzs c = has_xyzs other) as Hx by (unfold has_xyzs; by rewrite Hf).
  assert (has_normals c = has_normals other) as Hm
    by (unfold has_normals; by rewrite Hf).
  assert (has_rgbs c = has_rgbs other) as Hr by (unfold has_rgbs; by rewrite Hf).
  assert (has_descriptors c = has_descriptors other) as Hd
    by (unfold has_descriptors; by rewrite Hf).
  rewrite Hx in Cx. rewrite Hm in Cm. rewrite Hr in Cr. rewrite Hd in Cd.
  rewrite Hf, Hs in *.
  split.
  - unfold populated_from, copied, fields, size. simpl.
    split; [done|]. split; [done|].
    repeat split; intros Hp; rewrite Hp; eapply Heq; eauto.
  - split; unfold copied; simpl; rewrite ?Hf, ?Hs; try done.
    + change (has_xyzs c = true → shaped 3 (size_ other)
                (if has_xyzs other
                 then mkMat (rows (Storage.xyzs_ (storage_ c)))
                            (columns (Storage.xyzs_ (storage_ other)))
                 else Storage.xyzs_ (storage_ c))).
      rewrite Hx. intros Hp. rewrite Hp. erewrite Heq; eauto.
    + change (has_normals c = true → shaped 3 (size_ other)
                (if has_normals other
                 then mkMat (rows (Storage.normals_ (storage_ c)))
                            (columns (Storage.normals_ (storage_ other)))
                 else Storage.normals_ (storage_ c))).
      rewrite Hm. intros Hp. rewrite Hp. erewrite Heq; eauto.
    + change (has_rgbs c = true → shaped 3 (size_ other)
                (if has_rgbs other
                 then mkMat (rows (Storage.rgbs_ (storage_ c)))
                            (columns (Storage.rgbs_ (storage_ other)))
                 else Storage.rgbs_ (storage_ c))).
      rewrite Hr. intros Hp. rewrite Hp. erewrite Heq; eauto.
    + change (has_descriptors c = true →
              shaped (pc_flags.size (pc_flags.descriptor_type (fields_ other)))
                (size_ other)
                (if has_descriptors other
                 then mkMat (rows (Storage.descriptors_ (storage_ c)))
                            (columns (Storage.descriptors_ (storage_ other)))
                 else Storage.descriptors_ (storage_ c))).
      rewrite Hd. intros Hp. rewrite Hp. erewrite Heq; eauto.
Qed.

Lemma ResolveFields_inherit other : ResolveFields other Inherit = fields other.
Proof.
  unfold ResolveFields, Inherit. by rewrite (proj2 (eqb_true _ _) eq_refl).
Qed.

Lemma ResolveFields_other other cf : cf ≠ Inherit → ResolveFields other cf = cf.
Proof.
  intros Hne. unfold ResolveFields, Inherit in *.
  by rewrite (proj2 (eqb_false _ _) Hne).
Qed.

(** Copying with the field set of [other]. *)
Lemma PointCloud_copy_exact other cf :
  valid other → ResolveFields other cf = fields other →
  ∃ c, PointCloud_copy other cf = Ok c ∧ populated_from other c ∧ valid c.
Proof.
  intros Ho Hr. unfold PointCloud_copy. rewrite Hr.
  pose proof (valid_size other Ho) as Hs. unfold size in *.
  destruct (PointCloud_new (size_ other) (fields other) false) as [c0|] eqn:Hc0.
  2:{ rewrite PointCloud_new_ok in Hc0; [discriminate| | |lia];
      [apply (valid_not_none other Ho) | apply (valid_not_inherit other Ho)]. }
  pose proof (valid_PointCloud_new _ _ _ _ Hs Hc0) as Hv0.
  assert (size c0 = size other ∧ fields c0 = fields other) as [Hsz Hf].
  { rewrite PointCloud_new_ok in Hc0;
      [|apply (valid_not_none other Ho) | apply (valid_not_inherit other Ho) | lia].
    by injection Hc0 as <-. }
  simpl. unfold exec, SetFrom, mbind, method_bind.
  rewrite <- Hsz.
  rewrite resize_ok by (done || (rewrite Hsz; unfold size; lia)).
  rewrite resized_cloud_same by done.
  unfold ResolvePairFields, Inherit.
  rewrite (proj2 (eqb_true _ _) eq_refl).
  rewrite RequireExactFields_ok by done. simpl.
  change (fields_ c0) with (fields c0). rewrite Hf.
  rewrite copy_fields_from_ok by done.
  eexists. split; [reflexivity|]. by apply populated_from_copied.
Qed.

(** Copying with any other field set fails. *)
Lemma PointCloud_copy_other other cf :
  valid other → cf ≠ Inherit → cf ≠ fields other →
  is_ok (PointCloud_copy other cf) = false.
Proof.
  intros Ho Hi Hne. unfold PointCloud_copy. rewrite ResolveFields_other by done.
  pose proof (valid_size other Ho) as Hs. unfold size in *.
  destruct (PointCloud_new (size_ other) cf false) as [c0|] eqn:Hc0; [|reflexivity].
  pose proof (valid_PointCloud_new _ _ _ _ Hs Hc0) as Hv0.
  pose proof (PointCloud_new_fields _ _ _ _ Hc0) as Hf.
  simpl. unfold exec.
  rewrite SetFrom_inherit_mismatch by (done || congruence). reflexivity.
Qed.
End CopyConstruction.

(** ** Crop *)

Section CropFacts.
Context {A : Type}.
Implicit Types (m src dst : Mat A).

Lemma Eigen_col_ok i m :
  0 <= i < cols m → Eigen.col i m = Ok (default [] (columns m !! Z.to_nat i)).
Proof.
  intros Hi. unfold Eigen.col, cols in *.
  destruct (Z.leb_spec 0 i); [|lia]. destruct (Z.ltb_spec i (Z.of_nat (length (columns m)))); [|lia].
  simpl. destruct (lookup_lt_is_Some_2 (columns m) (Z.to_nat i)) as [c ->]; [lia|].
  reflexivity.
Qed.

Lemma Eigen_assign_col_ok index v m :
  0 <= index < cols m → length v = rows m →
  Eigen.assign_col index v m
  = Ok (mkMat (rows m) (<[Z.to_nat index := v]> (columns m))).
Proof.
  intros Hi Hl. unfold Eigen.assign_col, cols in *.
  destruct (Z.leb_spec 0 index); [|lia].
  destruct (Z.ltb_spec index (Z.of_nat (length (columns m)))); [|lia].
  by rewrite (bool_decide_eq_true_2 _ Hl).
Qed.

(** The column read at a valid index has the height of the matrix. *)
Lemma length_column r n i m :
  shaped r n m → 0 <= i < n → length (default [] (columns m !! Z.to_nat i)) = r.
Proof.
  intros (Hr & Hc & Hf) Hi. unfold cols in Hc.
  destruct (lookup_lt_is_Some_2 (columns m) (Z.to_nat i)) as [c Hl]; [lia|].
  rewrite Hl. simpl. by eapply Forall_lookup_1 in Hf.
Qed.

Lemma put_prefix r n done i src dst :
  prefix_from r n done src dst → shaped r n src →
  0 <= i < n → Z.of_nat (length done) < n →
  prefix_from r n (done ++ [i]) src (put (Z.of_nat (length done)) i src dst).
Proof.
  intros [(Hr & Hc & Hf) Ht] Hs Hi Hd. unfold cols in Hc. split.
  - split; [exact Hr|]. split.
    + unfold cols, put. simpl. by rewrite length_insert.
    + unfold put. simpl. apply Forall_insert; [exact Hf|].
      by eapply length_column.
  - unfold put. simpl. rewrite Nat2Z.id, length_app. simpl.
    rewrite Nat.add_1_r.
    erewrite take_S_r; [|apply list_lookup_insert_eq; lia].
    rewrite take_insert_ge by lia. rewrite Ht.
    unfold pick. by rewrite fmap_app.
Qed.

Lemma prefix_from_nil r n src dst : shaped r n dst → prefix_from r n [] src dst.
Proof. intros Hs. split; [exact Hs | reflexivity]. Qed.

(** Cutting the matrix after the filled prefix leaves the picked columns. *)
Lemma resized_prefix (u : nat → nat → A) r n done src dst :
  prefix_from r n done src dst → Z.of_nat (length done) <= n →
  columns (resized u (Z.of_nat (length done)) dst) = pick done src.
Proof.
  intros [(Hr & Hc & Hf) Ht] Hd. unfold resized, cols in *. simpl.
  rewrite Nat2Z.id, Ht.
  replace (length done - length (columns dst))%nat with 0%nat by lia.
  unfold Eigen.fresh. simpl. apply app_nil_r.
Qed.
End CropFacts.

Section MutableViews.
Context `{Platform}.

Lemma mutable_xyzs_ok w c m :
  has_xyzs c = true → w (Storage.xyzs_ (storage_ c)) = Ok m →
  mutable_xyzs w c = (Ok tt, set_xyzs m c).
Proof. intros Hp Hw. unfold mutable_xyzs. rewrite Hp. simpl. by rewrite Hw. Qed.

Lemma mutable_normals_ok w c m :
  has_normals c = true → w (Storage.normals_ (storage_ c)) = Ok m →
  mutable_normals w c = (Ok tt, set_normals m c).
Proof. intros Hp Hw. unfold mutable_normals. rewrite Hp. simpl. by rewrite Hw. Qed.

Lemma mutable_rgbs_ok w c m :
  has_rgbs c = true → w (Storage.rgbs_ (storage_ c)) = Ok m →
  mutable_rgbs w c = (Ok tt, set_rgbs m c).
Proof. intros Hp Hw. unfold mutable_rgbs. rewrite Hp. simpl. by rewrite Hw. Qed.

Lemma mutable_descriptors_ok w c m :
  has_descriptors c = true → w (Storage.descriptors_ (storage_ c)) = Ok m →
  mutable_descriptors w c = (Ok tt, set_descriptors m c).
Proof. intros Hp Hw. unfold mutable_descriptors. rewrite Hp. simpl. by rewrite Hw. Qed.

Lemma xyzs_ok c : has_xyzs c = true → xyzs c = Ok (Storage.xyzs_ (storage_ c)).
Proof. intros Hp. unfold xyzs. by rewrite Hp. Qed.
Lemma normals_ok c :
  has_normals c = true → normals c = Ok (Storage.normals_ (storage_ c)).
Proof. intros Hp. unfold normals. by rewrite Hp. Qed.
Lemma rgbs_ok c : has_rgbs c = true → rgbs c = Ok (Storage.rgbs_ (storage_ c)).
Proof. intros Hp. unfold rgbs. by rewrite Hp. Qed.
Lemma descriptors_ok c :
  has_descriptors c = true → descriptors c = Ok (Storage.descriptors_ (storage_ c)).
Proof. intros Hp. unfold descriptors. by rewrite Hp. Qed.
End MutableViews.

Section CropLoop.
Context `{Platform}.
Variables (this : PointCloud) (lower_xyz upper_xyz : list T).
Hypothesis this_valid : valid this.
Hypothesis this_has_xyzs : has_xyzs this = true.

Lemma Crop_body_skip i crop index :
  0 <= i < size_ this → inside lower_xyz upper_xyz this i = false →
  Crop_body this lower_xyz upper_xyz i (crop, index) = Ok (crop, index).
Proof.
  intros Hi Hin. unfold Crop_body. rewrite xyzs_ok by done. simpl.
  destruct (valid_xyzs this this_valid this_has_xyzs) as (Hr & Hc & Hf).
  rewrite Eigen_col_ok by lia. simpl.
  unfold inside in Hin. unfold cols in Hc.
  destruct (lookup_lt_is_Some_2 (columns (Storage.xyzs_ (storage_ this))) (Z.to_nat i))
    as [p Hp]; [lia|].
  rewrite Hp in *. simpl. by rewrite Hin.
Qed.

Lemma Crop_body_keep i crop done :
  crop_invariant this done crop →
  0 <= i < size_ this → Z.of_nat (length done) < size_ this →
  inside lower_xyz upper_xyz this i = true →
  Crop_body this lower_xyz upper_xyz i (crop, Z.of_nat (length done))
  = Ok (written this i (Z.of_nat (length done)) crop, Z.of_nat (length done) + 1).
Proof.
  intros (If & Is & Isf & Iss & Ix & Im & Ir & Id) Hi Hd Hin.
  unfold Crop_body. rewrite xyzs_ok by done. simpl.
  destruct (valid_xyzs this this_valid this_has_xyzs) as (Hr & Hc & Hf).
  rewrite Eigen_col_ok by lia. simpl.
  assert (in_box lower_xyz upper_xyz
            (default [] (columns (Storage.xyzs_ (storage_ this)) !! Z.to_nat i)) = true)
    as ->.
  { unfold inside in Hin. by destruct (_ !! _). }
  assert (∀ A r (src dst : Mat A),
            shaped r (size_ this) src → prefix_from r (size_ this) done src dst →
            Eigen.col i src = Ok (default [] (columns src !! Z.to_nat i))
            ∧ Eigen.assign_col (Z.of_nat (length done))
                (default [] (columns src !! Z.to_nat i)) dst
              = Ok (put (Z.of_nat (length done)) i src dst)) as Hstep.
  { intros A r src dst Hs [Hd' _]. split.
    - apply Eigen_col_ok. destruct Hs as (_ & -> & _). lia.
    - apply Eigen_assign_col_ok.
      + destruct Hd' as (_ & -> & _). lia.
      + destruct Hd' as (-> & _ & _). by eapply length_column. }
  unfold exec, mbind, method_bind, lift, mret, method_ret.
  assert (has_xyzs crop = has_xyzs this) as Px by (unfold has_xyzs; by rewrite If).
  assert (has_normals crop = has_normals this) as Pm
    by (unfold has_normals; by rewrite If).
  assert (has_rgbs crop = has_rgbs this) as Pr by (unfold has_rgbs; by rewrite If).
  assert (has_descriptors crop = has_descriptors this) as Pd
    by (unfold has_descriptors; by rewrite If).
  destruct (Hstep _ _ _ _ (valid_xyzs _ this_valid this_has_xyzs) (Ix this_has_xyzs))
    as [_ Wx].
  rewrite (mutable_xyzs_ok _ _ _ (eq_trans Px this_has_xyzs) Wx).
  unfold written.
  destruct (has_normals this) eqn:En.
  - destruct (Hstep _ _ _ _ (valid_normals _ this_valid En) (Im eq_refl)) as [Rm Wm].
    replace (result_bind _ _ (Eigen.col i) (normals this)) with (Eigen.col i (Storage.normals_ (storage_ this)))
      by (by rewrite normals_ok).
    rewrite Rm.
    cbn beta iota. erewrite mutable_normals_ok; [|exact Pm|exact Wm].
    destruct (has_rgbs this) eqn:Er.
    + destruct (Hstep _ _ _ _ (valid_rgbs _ this_valid Er) (Ir eq_refl)) as [Rr Wr].
      replace (result_bind _ _ (Eigen.col i) (rgbs this)) with (Eigen.col i (Storage.rgbs_ (storage_ this)))
        by (by rewrite rgbs_ok).
      rewrite Rr.
      cbn beta iota. erewrite mutable_rgbs_ok; [|exact Pr|exact Wr].
      destruct (has_descriptors this) eqn:Ed; [|reflexivity].
      destruct (Hstep _ _ _ _ (valid_descriptors _ this_valid Ed) (Id eq_refl))
        as [Rd Wd].
      replace (result_bind _ _ (Eigen.col i) (descriptors this))
        with (Eigen.col i (Storage.descriptors_ (storage_ this)))
        by (by rewrite descriptors_ok).
      rewrite Rd.
      cbn beta iota. erewrite mutable_descriptors_ok; [|exact Pd|exact Wd]. reflexivity.
    + destruct (has_descriptors this) eqn:Ed; [|reflexivity].
      destruct (Hstep _ _ _ _ (valid_descriptors _ this_valid Ed) (Id eq_refl))
        as [Rd Wd].
      replace (result_bind _ _ (Eigen.col i) (descriptors this))
        with (Eigen.col i (Storage.descriptors_ (storage_ this)))
        by (by rewrite descriptors_ok).
      rewrite Rd.
      cbn beta iota. erewrite mutable_descriptors_ok; [|exact Pd|exact Wd]. reflexivity.
  - destruct (has_rgbs this) eqn:Er.
    + destruct (Hstep _ _ _ _ (valid_rgbs _ this_valid Er) (Ir eq_refl)) as [Rr Wr].
      replace (result_bind _ _ (Eigen.col i) (rgbs this)) with (Eigen.col i (Storage.rgbs_ (storage_ this)))
        by (by rewrite rgbs_ok).
      rewrite Rr.
      cbn beta iota. erewrite mutable_rgbs_ok; [|exact Pr|exact Wr].
      destruct (has_descriptors this) eqn:Ed; [|reflexivity].
      destruct (Hstep _ _ _ _ (valid_descriptors _ this_valid Ed) (Id eq_refl))
        as [Rd Wd].
      replace (result_bind _ _ (Eigen.col i) (descriptors this))
        with (Eigen.col i (Storage.descriptors_ (storage_ this)))
        by (by rewrite descriptors_ok).
      rewrite Rd.
      cbn beta iota. erewrite mutable_descriptors_ok; [|exact Pd|exact Wd]. reflexivity.
    + destruct (has_descriptors this) eqn:Ed; [|reflexivity].
      destruct (Hstep _ _ _ _ (valid_descriptors _ this_valid Ed) (Id eq_refl))
        as [Rd Wd].
      replace (result_bind _ _ (Eigen.col i) (descriptors this))
        with (Eigen.col i (Storage.descriptors_ (storage_ this)))
        by (by rewrite descriptors_ok).
      rewrite Rd.
      cbn beta iota. erewrite mutable_descriptors_ok; [|exact Pd|exact Wd]. reflexivity.
Qed.
End CropLoop.

Section CropCorrect.
Context `{Platform}.
Variables (this : PointCloud) (lower_xyz upper_xyz : list T).
Hypothesis this_valid : valid this.
Hypothesis this_has_xyzs : has_xyzs this = true.

Lemma crop_invariant_written i done crop :
  crop_invariant this done crop →
  0 <= i < size_ this → Z.of_nat (length done) < size_ this →
  crop_invariant this (done ++ [i]) (written this i (Z.of_nat (length done)) crop).
Proof.
  intros (If & Is & Isf & Iss & Ix & Im & Ir & Id) Hi Hd.
  unfold crop_invariant, written. simpl.
  repeat (split; [done|]).
  split; [|split; [|split]]; intros Hp; try rewrite Hp.
  - apply put_prefix; auto. by apply valid_xyzs.
  - apply put_prefix; auto. by apply valid_normals.
  - apply put_prefix; auto. by apply valid_rgbs.
  - apply put_prefix; auto. by apply valid_descriptors.
Qed.

Lemma Crop_loop l :
  ∀ done crop,
    crop_invariant this done crop →
    Forall (λ i, 0 <= i < size_ this) l →
    Z.of_nat (length done + length l) <= size_ this →
    ∃ crop',
      for_each (Crop_body this lower_xyz upper_xyz) l (crop, Z.of_nat (length done))
      = Ok (crop',
            Z.of_nat (length (done ++ List.filter (inside lower_xyz upper_xyz this) l)))
      ∧ crop_invariant this
          (done ++ List.filter (inside lower_xyz upper_xyz this) l) crop'.
Proof.
  induction l as [|i l IH]; intros done crop Hinv Hl Hlen.
  - exists crop. simpl. rewrite app_nil_r. done.
  - apply Forall_cons in Hl as [Hi Hl]. simpl in Hlen. cbn [for_each List.filter].
    destruct (inside lower_xyz upper_xyz this i) eqn:Hin.
    + rewrite Crop_body_keep by (done || lia). simpl.
      destruct (IH (done ++ [i]) (written this i (Z.of_nat (length done)) crop))
        as (crop' & Hrun & Hinv').
      * apply crop_invariant_written; [done | done | lia].
      * done.
      * rewrite length_app. simpl. lia.
      * exists crop'. rewrite <- app_assoc in Hrun, Hinv'. simpl in Hrun, Hinv'.
        split; [|exact Hinv'].
        rewrite <- Hrun. f_equal. f_equal. rewrite length_app. simpl. lia.
    + rewrite Crop_body_skip by done. simpl.
      apply IH; [done | done | lia].
Qed.

Lemma crop_invariant_allocated :
  crop_invariant this [] (allocated (size_ this) (fields_ this)).
Proof.
  pose proof (valid_allocated (size_ this) (fields_ this) (valid_size _ this_valid)
                (valid_not_none _ this_valid) (valid_not_inherit _ this_valid)) as Hv.
  unfold crop_invariant. repeat (split; [reflexivity|]).
  split; [|split; [|split]]; intros Hp; apply prefix_from_nil.
  - by apply (valid_xyzs _ Hv).
  - by apply (valid_normals _ Hv).
  - by apply (valid_rgbs _ Hv).
  - by apply (valid_descriptors _ Hv).
Qed.

Lemma Crop_ok :
  array_le lower_xyz upper_xyz = true →
  ∃ out, Crop lower_xyz upper_xyz this = Ok out ∧ valid out
         ∧ restricted_to (retained lower_xyz upper_xyz this) this out.
Proof.
  intros Hbox. unfold Crop. rewrite Hbox, this_has_xyzs. simpl.
  pose proof (valid_size _ this_valid) as Hs.
  rewrite PointCloud_new_ok;
    [|apply (valid_not_none _ this_valid)|apply (valid_not_inherit _ this_valid)|lia].
  simpl.
  destruct (Crop_loop (seqZ 0 (size_ this)) [] _ crop_invariant_allocated)
    as (crop' & Hrun & Hinv).
  { apply Forall_seqZ. intros i Hi. lia. }
  { simpl. rewrite length_seqZ. lia. }
  change (Z.of_nat (length (@nil Z))) with 0 in Hrun.
  cbn [app] in Hrun, Hinv. unfold fields. rewrite Hrun.
  cbn [mbind result_bind fst snd].
  change (List.filter _ _) with (retained lower_xyz upper_xyz this) in *.
  set (idx := retained lower_xyz upper_xyz this) in *.
  assert (Z.of_nat (length idx) <= size_ this) as Hle.
  { unfold idx, retained.
    pose proof (filter_length_le (inside lower_xyz upper_xyz this) (seqZ 0 (size this)))
      as Hf.
    rewrite length_seqZ in Hf. unfold size in *. lia. }
  destruct Hinv as (If & Is & Isf & Iss & Ix & Im & Ir & Id).
  unfold exec. rewrite resize_shrink by (unfold size; lia).
  eexists. split; [reflexivity|]. split.
  - rewrite If. apply valid_resized_storage; try done.
    + unfold INT_MAX in *. lia.
    + apply (valid_not_none _ this_valid).
    + apply (valid_not_inherit _ this_valid).
    + intros Hp. eexists. apply (Ix Hp).
    + intros Hp. eexists. apply (Im Hp).
    + intros Hp. eexists. apply (Ir Hp).
    + intros Hp. eexists. apply (Id Hp).
  - unfold restricted_to, fields, size. simpl.
    split; [reflexivity|]. split; [exact If|].
    unfold resized_storage. rewrite Isf.
    unfold has_xyzs, has_normals, has_rgbs, has_descriptors in *. simpl.
    split; [|split; [|split]]; intros Hp; rewrite Hp; eapply resized_prefix; eauto.
Qed.
End CropCorrect.

Lemma array_le_lookup (a b : list T) k x y :
  array_le a b = true → a !! k = Some x → b !! k = Some y → SFleb x y = true.
Proof.
  intros Hle Ha Hb. unfold array_le in Hle.
  rewrite forallb_forall in Hle.
  apply (Hle (x, y)). apply list_elem_of_In, list_elem_of_lookup. exists k.
  apply lookup_zip_with_Some. eauto.
Qed.

Lemma SFgtb_not_leb x y : SFgtb x y = true → SFleb x y = false.
Proof. unfold SFgtb, SFleb. by destruct (SFcompare x y) as [[]|]. Qed.

(** ** Floating point: order *)

Ltac compare_cases :=
  repeat match goal with
         | H : context [Pos.compare_cont Eq ?a ?b] |- _ =>
             change (Pos.compare_cont Eq a b) with (Pos.compare a b) in H
         | |- context [Pos.compare_cont Eq ?a ?b] =>
             change (Pos.compare_cont Eq a b) with (Pos.compare a b)
         end;
  repeat match goal with
         | H : context [Z.compare ?a ?b] |- _ =>
             destruct (Z.compare_spec a b); simpl in H; try discriminate H
         | H : context [Pos.compare ?a ?b] |- _ =>
             destruct (Pos.compare_spec a b); simpl in H; try discriminate H
         | |- context [Z.compare ?a ?b] =>
             destruct (Z.compare_spec a b); simpl
         | |- context [Pos.compare ?a ?b] =>
             destruct (Pos.compare_spec a b); simpl
         end;
  try reflexivity; try lia.

Lemma SFltb_irrefl x : SFltb x x = false.
Proof.
  unfold SFltb, SFcompare. destruct x as [s|s| |s m e]; try destruct s; try reflexivity;
    rewrite Z.compare_refl, Pos.compare_cont_refl; reflexivity.
Qed.

Lemma SFltb_asym x y : SFltb x y = true → SFltb y x = false.
Proof.
  unfold SFltb, SFcompare.
  destruct x as [sx|sx| |sx mx ex], y as [sy|sy| |sy my ey];
    try destruct sx; try destruct sy; simpl; try done; intros Hlt; compare_cases.
Qed.

Lemma SFltb_order_key x y :
  is_number x = true → is_number y = true →
  (SFltb x y = true ↔ key_lt (order_key x) (order_key y)).
Proof.
  unfold SFltb, SFcompare, key_lt.
  destruct x as [sx|sx| |sx mx ex], y as [sy|sy| |sy my ey];
    try destruct sx; try destruct sy; simpl; try done; intros _ _;
    try (split; [intros; lia | intros; (reflexivity || lia)]);
    try (split; [discriminate | intros; lia]).
  - change (Pos.compare_cont Eq mx my) with (Pos.compare mx my).
    destruct (Z.compare_spec ex ey); [destruct (Pos.compare_spec mx my)|..];
      simpl; split; try discriminate; try reflexivity; intros; lia.
  - change (Pos.compare_cont Eq mx my) with (Pos.compare mx my).
    destruct (Z.compare_spec ex ey); [destruct (Pos.compare_spec mx my)|..];
      simpl; split; try discriminate; try reflexivity; intros; lia.
Qed.

(** On numbers, "not below" is transitive. *)
Lemma SFltb_false_trans x y z :
  is_number x = true → is_number y = true → is_number z = true →
  SFltb x y = false → SFltb y z = false → SFltb x z = false.
Proof.
  intros Hx Hy Hz Hxy Hyz.
  destruct (SFltb x z) eqn:Hxz; [|reflexivity].
  apply SFltb_order_key in Hxz; [|done|done].
  assert (¬ key_lt (order_key x) (order_key y)) as Nxy.
  { intros K. apply SFltb_order_key in K; [congruence|done|done]. }
  assert (¬ key_lt (order_key y) (order_key z)) as Nyz.
  { intros K. apply SFltb_order_key in K; [congruence|done|done]. }
  unfold key_lt in *.
  destruct (order_key x) as [[a1 a2] a3], (order_key y) as [[b1 b2] b3],
    (order_key z) as [[c1 c2] c3].
  simpl in *. lia.
Qed.

Lemma isFinite_is_number x : isFinite x = true → is_number x = true.
Proof. by destruct x. Qed.

Lemma std_min_cases a b : std_min a b = a ∨ std_min a b = b.
Proof. unfold std_min. destruct (SFltb b a); auto. Qed.

Lemma std_min_le_l a b : SFltb a (std_min a b) = false.
Proof.
  unfold std_min. destruct (SFltb b a) eqn:E; [by apply SFltb_asym | apply SFltb_irrefl].
Qed.

Lemma std_min_le_r a b : SFltb b (std_min a b) = false.
Proof.
  unfold std_min. destruct (SFltb b a) eqn:E; [apply SFltb_irrefl | exact E].
Qed.

(** ** Floating point: the minimum *)

Section Minimum.
Context `{Platform}.
Variables (this : PointCloud).

(** The fold of [std_min] from [acc] over the coordinates of [idx]. *)
Lemma fold_min_spec a idx :
  Forall (λ i, isFinite (coordinate this a i) = true) idx →
  ∀ acc, is_number acc = true →
    let r := foldl (λ acc i, std_min (coordinate this a i) acc) acc idx in
    is_number r = true
    ∧ SFltb acc r = false
    ∧ Forall (λ i, SFltb (coordinate this a i) r = false) idx
    ∧ (r = acc ∨ ∃ j, j ∈ idx ∧ r = coordinate this a j).
Proof.
  induction idx as [|i idx IH]; intros Hfin acc Hacc; simpl.
  - split; [done|]. split; [apply SFltb_irrefl|]. split; [constructor | by left].
  - apply Forall_cons in Hfin as [Hi Hfin].
    pose proof (isFinite_is_number _ Hi) as Hn.
    set (acc1 := std_min (coordinate this a i) acc).
    assert (is_number acc1 = true) as Hn1.
    { unfold acc1. destruct (std_min_cases (coordinate this a i) acc) as [-> | ->]; done. }
    destruct (IH Hfin acc1 Hn1) as (Hr & Hle & Hall & Hatt).
    split; [exact Hr|]. split; [|split].
    + apply (SFltb_false_trans acc acc1 _ Hacc Hn1 Hr); [apply std_min_le_r | exact Hle].
    + constructor; [|exact Hall].
      apply (SFltb_false_trans _ acc1 _ Hn Hn1 Hr); [apply std_min_le_l | exact Hle].
    + destruct Hatt as [Hatt | (j & Hj & Hatt)].
      * destruct (std_min_cases (coordinate this a i) acc) as [E | E]; fold acc1 in E.
        -- right. exists i. split; [left | congruence].
        -- left. congruence.
      * right. exists j. split; [by right | exact Hatt].
Qed.
End Minimum.

(** ** Floating point: signs *)

Lemma digits2_pos_bounds m :
  2 ^ (Z.pos (digits2_pos m) - 1) <= Z.pos m < 2 ^ Z.pos (digits2_pos m).
Proof.
  assert (∀ d, 1 <= d → 2 ^ d = 2 * 2 ^ (d - 1)) as Hpow.
  { intros d Hd. rewrite <- Z.pow_succ_r by lia. f_equal. lia. }
  induction m as [p IH|p IH|]; simpl digits2_pos.
  - rewrite Pos2Z.inj_succ.
    replace (Z.succ (Z.pos (digits2_pos p)) - 1) with (Z.pos (digits2_pos p)) by lia.
    rewrite Z.pow_succ_r by lia.
    rewrite (Hpow (Z.pos (digits2_pos p))) in * by lia. lia.
  - rewrite Pos2Z.inj_succ.
    replace (Z.succ (Z.pos (digits2_pos p)) - 1) with (Z.pos (digits2_pos p)) by lia.
    rewrite Z.pow_succ_r by lia.
    rewrite (Hpow (Z.pos (digits2_pos p))) in * by lia. lia.
  - simpl. lia.
Qed.

(** A canonical [float] mantissa has 24 digits, or fewer at the least
    exponent. *)
Lemma bounded_cases m e :
  bounded F32.prec F32.emax m e = true →
  Z.pos m < 2 ^ 24
  ∧ -149 <= e
  ∧ (e = -149 ∨ 2 ^ 23 <= Z.pos m).
Proof.
  unfold bounded, canonical_mantissa, fexp, emin, F32.prec, F32.emax.
  intros Hb. apply andb_true_iff in Hb as [Hc _]. apply Z.eqb_eq in Hc.
  pose proof (digits2_pos_bounds m) as [Hlo Hhi].
  assert (Z.pos (digits2_pos m) <= 24) as Hd by lia.
  split; [|split].
  - eapply Z.lt_le_trans; [exact Hhi|]. apply Z.pow_le_mono_r; lia.
  - lia.
  - destruct (Z.eq_dec e (-149)) as [->|Hne]; [by left | right].
    assert (Z.pos (digits2_pos m) = 24) as E by lia.
    rewrite E in Hlo. exact Hlo.
Qed.

Lemma shl_align_fst mx ex ez :
  ez <= ex → Z.pos (fst (shl_align mx ex ez)) = Z.pos mx * 2 ^ (ex - ez).
Proof.
  intros Hle. unfold shl_align.
  destruct (ez - ex) as [|d|d] eqn:E.
  - simpl. replace (ex - ez) with 0 by lia. lia.
  - lia.
  - simpl. change (Pos.iter xO mx d) with (shift_pos d mx).
    rewrite shift_pos_correct.
    replace (ex - ez) with (Z.pos d) by lia.
    change (Z.pow_pos 2 d) with (2 ^ Z.pos d). lia.
Qed.

Lemma not_negative_binary_round_aux prec emax mx ex lx :
  not_negative (binary_round_aux prec emax false mx ex lx).
Proof.
  unfold binary_round_aux.
  destruct (shr_fexp prec emax mx ex lx) as [mrs' e'].
  destruct (shr_fexp prec emax _ e' loc_Exact) as [mrs'' e''].
  destruct (shr_m mrs''); simpl; [done| |done].
  destruct (e'' <=? emax - prec); reflexivity.
Qed.

Lemma not_negative_binary_round prec emax m e :
  not_negative (binary_round prec emax false m e).
Proof.
  unfold binary_round. destruct (shl_align m e _) as [mz ez].
  apply not_negative_binary_round_aux.
Qed.

Lemma not_negative_binary_normalize prec emax n e :
  0 <= n → not_negative (binary_normalize prec emax n e false).
Proof.
  intros Hn. destruct n as [|m|m]; simpl; [done| |lia].
  apply not_negative_binary_round.
Qed.

(** The difference of two canonical finite numbers, the first not below
    the second, is not negative. *)
Lemma SFsub_not_negative p l :
  valid_binary F32.prec F32.emax p = true → valid_binary F32.prec F32.emax l = true →
  isFinite p = true → isFinite l = true →
  SFltb p l = false →
  not_negative (F32.sub p l).
Proof.
  intros Vp Vl Fp Fl Hlt. unfold F32.sub.
  destruct p as [sp|sp| |sp mp ep], l as [sl|sl| |sl ml el]; try discriminate.
  - destruct sp, sl; exact I.
  - unfold SFltb in Hlt. simpl in *. destruct sl; [reflexivity | discriminate].
  - unfold SFltb in Hlt. simpl in *. destruct sp; [discriminate | reflexivity].
  - simpl in Vp, Vl.
    destruct (bounded_cases _ _ Vp) as (Hp1 & Hp2 & Hp3).
    destruct (bounded_cases _ _ Vl) as (Hl1 & Hl2 & Hl3).
    unfold SFsub. apply not_negative_binary_normalize.
    rewrite (shl_align_fst mp ep) by lia. rewrite (shl_align_fst ml el) by lia.
    unfold SFltb, SFcompare in Hlt.
    change (Pos.compare_cont Eq mp ml) with (Pos.compare mp ml) in Hlt.
    assert (∀ a b : Z, a < b → 2 <= 2 ^ (b - a)) as Hpow.
    { intros a b Hab. change 2 with (2 ^ 1) at 1. apply Z.pow_le_mono_r; lia. }
    destruct sp, sl; simpl in Hlt |- *; try discriminate.
    + (* both negative *)
      destruct (Z.compare_spec ep el) as [E|E|E]; simpl in Hlt; try discriminate.
      * subst el. rewrite Z.min_id, Z.sub_diag. simpl.
        destruct (Pos.compare_spec mp ml); simpl in Hlt; try discriminate; lia.
      * rewrite Z.min_l by lia. rewrite Z.sub_diag. simpl.
        pose proof (Hpow _ _ E). destruct Hl3 as [->|Hl3]; [lia|]. nia.
    + (* the first positive, the second negative *)
      assert (0 < 2 ^ (ep - Z.min ep el)) by (apply Z.pow_pos_nonneg; lia).
      assert (0 < 2 ^ (el - Z.min ep el)) by (apply Z.pow_pos_nonneg; lia).
      nia.
    + (* both positive *)
      destruct (Z.compare_spec ep el) as [E|E|E]; simpl in Hlt; try discriminate.
      * subst el. rewrite Z.min_id, Z.sub_diag. simpl.
        destruct (Pos.compare_spec mp ml); simpl in Hlt; try discriminate; lia.
      * rewrite Z.min_r by lia. rewrite Z.sub_diag. simpl.
        pose proof (Hpow _ _ E). destruct Hp3 as [->|Hp3]; [lia|]. nia.
Qed.

Lemma positive_sign_binary_round_aux prec emax mx ex lx :
  positive_sign (binary_round_aux prec emax false mx ex lx).
Proof.
  unfold binary_round_aux.
  destruct (shr_fexp prec emax mx ex lx) as [mrs' e'].
  destruct (shr_fexp prec emax _ e' loc_Exact) as [mrs'' e''].
  destruct (shr_m mrs''); simpl; [done| |done].
  destruct (e'' <=? emax - prec); reflexivity.
Qed.

Lemma positive_sign_binary_round prec emax m e :
  positive_sign (binary_round prec emax false m e).
Proof.
  unfold binary_round. destruct (shl_align m e _) as [mz ez].
  apply positive_sign_binary_round_aux.
Qed.

(** A [double] above zero converts to a [float] with a clear sign bit. *)
Lemma positive_sign_of_double voxel_size :
  SFgtb voxel_size (F64.of_Z 0) = true → positive_sign (F32.of_double voxel_size).
Proof.
  unfold SFgtb, F64.of_Z. simpl.
  destruct voxel_size as [s|s| |s m e]; simpl; try discriminate.
  - destruct s; [discriminate | reflexivity].
  - destruct s; [discriminate|]. intros _. apply positive_sign_binary_round.
Qed.

(** A quotient of a value that is not negative by one with a clear sign
    bit is not negative. *)
Lemma F32_div_not_negative x v :
  not_negative x → positive_sign v → not_negative (F32.div x v).
Proof.
  unfold F32.div.
  destruct x as [sx|sx| |sx mx ex], v as [sv|sv| |sv mv ev]; simpl;
    intros Hx Hv; subst; try done.
  destruct (SFdiv_core_binary _ _ _ _ _ _) as [[mz ez] lz].
  apply not_negative_binary_round_aux.
Qed.

(** Truncation toward zero is the floor of a value that is not negative. *)
Lemma truncate_floor q z : not_negative q → SF_floor q = Some z → truncate q = Some z.
Proof.
  destruct q as [s|s| |s m e]; simpl; try done. intros -> E. exact E.
Qed.

Lemma cast_int_floor q z :
  not_negative q → SF_floor q = Some z → in_int z = true → cast_int q = Ok z.
Proof.
  intros Hq Hf Hz. unfold cast_int. rewrite (truncate_floor q z Hq Hf). by rewrite Hz.
Qed.

(** [SF_floor] is the floor: the greatest integer not above [m * 2^e]. *)
Lemma SF_floor_spec s m e z :
  SF_floor (S754_finite s m e) = Some z →
  (0 <= e → z = cond_Zopp s (Z.pos m) * 2 ^ e)
  ∧ (e < 0 → z * 2 ^ (- e) <= cond_Zopp s (Z.pos m) < (z + 1) * 2 ^ (- e)).
Proof.
  simpl. intros [= <-]. split; intros He.
  - by rewrite Z.shiftl_mul_pow2.
  - rewrite Z.shiftl_div_pow2 by lia.
    assert (0 < 2 ^ (- e)) as Hp by (apply Z.pow_pos_nonneg; lia).
    pose proof (Z.div_mod (cond_Zopp s (Z.pos m)) (2 ^ (- e))) as Hd.
    pose proof (Z.mod_pos_bound (cond_Zopp s (Z.pos m)) (2 ^ (- e)) Hp) as Hm.
    nia.
Qed.

(** ** VoxelizedDownSample: the minimum and the voxel of a point *)

Section DownSampleVoxels.
Context `{Platform}.
Variables (this : PointCloud) (voxel_size : double).
Hypothesis this_valid : valid this.
Hypothesis this_has_xyzs : has_xyzs this = true.
Hypothesis size_positive : SFgtb voxel_size (F64.of_Z 0) = true.
Hypothesis canonical : positions_canonical this.
Hypothesis fit : coordinates_fit this voxel_size.

Lemma position_triple i :
  0 <= i < size this → ∃ x y z, position this i = [x; y; z].
Proof.
  intros Hi. pose proof (valid_xyzs _ this_valid this_has_xyzs) as Hs.
  pose proof (length_column _ _ i _ Hs Hi) as Hl. fold (position this i) in Hl.
  destruct (position this i) as [|x [|y [|z [|w l]]]]; try discriminate. eauto.
Qed.

Lemma xyz_ok i : 0 <= i < size this → xyz i this = Ok (position this i).
Proof.
  intros Hi. unfold xyz. rewrite xyzs_ok by done. simpl.
  destruct (valid_xyzs _ this_valid this_has_xyzs) as (_ & Hc & _).
  apply Eigen_col_ok. unfold size in Hi. lia.
Qed.

Lemma position_canonical i :
  0 <= i < size this →
  Forall (λ x, valid_binary F32.prec F32.emax x = true) (position this i).
Proof.
  intros Hi. destruct (valid_xyzs _ this_valid this_has_xyzs) as (_ & Hc & _).
  unfold position, cols, size in *.
  destruct (lookup_lt_is_Some_2 (columns (Storage.xyzs_ (storage_ this))) (Z.to_nat i))
    as [p Hp]; [lia|].
  rewrite Hp. simpl. by eapply Forall_lookup_1 in canonical.
Qed.

Lemma coordinate_finite a i x :
  finite_point this i = true → position this i !! a = Some x →
  isFinite x = true ∧ coordinate this a i = x.
Proof.
  intros Hf Hx. split.
  - unfold finite_point, all_finite in Hf. rewrite forallb_forall in Hf.
    apply Hf. apply list_elem_of_In, list_elem_of_lookup. eauto.
  - unfold coordinate. by rewrite Hx.
Qed.

Lemma elem_of_finite_points i :
  i ∈ finite_points this ↔ 0 <= i < size this ∧ finite_point this i = true.
Proof.
  unfold finite_points. rewrite list_elem_of_In, filter_In, <- list_elem_of_In.
  rewrite elem_of_seqZ. split; intros [? ?]; split; (done || lia).
Qed.

Lemma lower_body_step i acc :
  0 <= i < size this →
  lower_body this i acc
  = Ok (if finite_point this i then zip_with std_min (position this i) acc else acc).
Proof.
  intros Hi. unfold lower_body. rewrite xyz_ok by done. cbn [mbind result_bind].
  fold (finite_point this i). by destruct (finite_point this i).
Qed.

(** The first loop computes the per-axis minimum over the finite points. *)
Lemma lower_loop l :
  Forall (λ i, 0 <= i < size this) l →
  ∀ a0 a1 a2,
    for_each (lower_body this) l [a0; a1; a2]
    = Ok [foldl (λ acc i, std_min (coordinate this 0 i) acc) a0
            (List.filter (finite_point this) l);
          foldl (λ acc i, std_min (coordinate this 1 i) acc) a1
            (List.filter (finite_point this) l);
          foldl (λ acc i, std_min (coordinate this 2 i) acc) a2
            (List.filter (finite_point this) l)].
Proof.
  induction l as [|i l IH]; intros Hl a0 a1 a2; [reflexivity|].
  apply Forall_cons in Hl as [Hi Hl]. cbn [for_each List.filter].
  rewrite lower_body_step by done. cbn [mbind result_bind].
  destruct (finite_point this i) eqn:Hf; [|by apply IH].
  destruct (position_triple i Hi) as (x & y & z & Hp).
  rewrite Hp. cbn [zip_with]. rewrite IH by done. cbn [foldl].
  unfold coordinate. rewrite Hp. reflexivity.
Qed.

Lemma lower_loop_minima :
  for_each (lower_body this) (seqZ 0 (size_ this)) (replicate 3 infinity)
  = Ok (minima this).
Proof.
  cbn [replicate]. rewrite lower_loop; [reflexivity|].
  apply Forall_seqZ. intros i Hi. unfold size. lia.
Qed.

(** The minimum of an axis is not above the coordinate of any finite
    point, and it is the coordinate of one of them. *)
Lemma minimum_attained a i :
  (a < 3)%nat → i ∈ finite_points this →
  SFltb (coordinate this a i) (minimum_over this a (finite_points this)) = false
  ∧ ∃ j, j ∈ finite_points this
         ∧ minimum_over this a (finite_points this) = coordinate this a j.
Proof.
  intros Ha Hi.
  assert (Forall (λ i, isFinite (coordinate this a i) = true) (finite_points this))
    as Hfin.
  { apply Forall_forall. intros j Hj. apply elem_of_finite_points in Hj as [Hj Hf].
    destruct (position_triple j Hj) as (x & y & z & Hp).
    assert (∃ c, position this j !! a = Some c) as [c Hc].
    { rewrite Hp. destruct a as [|[|[|a]]]; simpl; eauto. lia. }
    destruct (coordinate_finite a j c Hf Hc) as [Hc1 Hc2]. by rewrite Hc2. }
  destruct (fold_min_spec this a (finite_points this) Hfin infinity eq_refl)
    as (Hn & _ & Hall & Hatt).
  fold (minimum_over this a (finite_points this)) in *.
  rewrite Forall_forall in Hall. split; [by apply Hall|].
  destruct Hatt as [Hinf | Hatt]; [|exact Hatt].
  exfalso. specialize (Hall i Hi). rewrite Hinf in Hall.
  rewrite Forall_forall in Hfin. specialize (Hfin i Hi).
  unfold SFltb, infinity in Hall. by destruct (coordinate this a i) as [?|?| |[] ? ?].
Qed.

(** The quotient of a finite point is not negative on any axis. *)
Lemma quotient_not_negative i q :
  0 <= i < size this → finite_point this i = true →
  q ∈ voxel_quotient voxel_size (minima this) (position this i) →
  not_negative q.
Proof.
  intros Hi Hf Hq.
  assert (i ∈ finite_points this) as Hin by (by apply elem_of_finite_points).
  destruct (position_triple i Hi) as (x & y & z & Hp).
  pose proof (position_canonical i Hi) as Hcan. rewrite Hp in Hcan.
  assert (∀ a c, (a < 3)%nat → position this i !! a = Some c →
            not_negative
              (F32.div (F32.sub c (minimum_over this a (finite_points this)))
                       (F32.of_double voxel_size))) as Haxis.
  { intros a c Ha Hc.
    destruct (coordinate_finite a i c Hf Hc) as [Hc1 Hc2].
    destruct (minimum_attained a i Ha Hin) as (Hle & j & Hj & Hatt).
    apply elem_of_finite_points in Hj as [Hj Hfj].
    destruct (position_triple j Hj) as (x' & y' & z' & Hp').
    assert (∃ c', position this j !! a = Some c') as [c' Hc'].
    { rewrite Hp'. destruct a as [|[|[|a]]]; simpl; eauto. lia. }
    destruct (coordinate_finite a j c' Hfj Hc') as [Hc1' Hc2'].
    rewrite Hatt, Hc2' in *. rewrite Hc2 in Hle.
    apply F32_div_not_negative; [|by apply positive_sign_of_double].
    apply SFsub_not_negative; try done.
    - rewrite ?Hp in Hc. exact (Forall_lookup_1 _ _ _ _ Hcan Hc).
    - exact (Forall_lookup_1 _ _ _ _ (position_canonical j Hj) Hc'). }
  unfold voxel_quotient, minima in Hq. rewrite Hp in Hq. cbn [zip_with fmap list_fmap] in Hq.
  rewrite !elem_of_cons in Hq. rewrite Hp in Haxis.
  destruct Hq as [->|[->|[->|Hq]]].
  - by apply (Haxis 0%nat x); [lia|].
  - by apply (Haxis 1%nat y); [lia|].
  - by apply (Haxis 2%nat z); [lia|].
  - by apply elem_of_nil in Hq.
Qed.

(** The voxel the code computes for a finite point is the floor of the
    quotient. *)
Lemma voxel_of_floor i :
  0 <= i < size this → finite_point this i = true →
  ∃ k, voxel_floor this voxel_size i = Some k
       ∧ voxel_of voxel_size (minima this) (position this i) = Ok k.
Proof.
  intros Hi Hf.
  pose proof (quotient_not_negative i) as Hnn.
  pose proof (fit i) as Hfit.
  unfold voxel_floor, voxel_of.
  destruct (position_triple i Hi) as (x & y & z & Hp).
  assert (∃ q0 q1 q2,
            voxel_quotient voxel_size (minima this) (position this i) = [q0; q1; q2])
    as (q0 & q1 & q2 & Hq).
  { unfold voxel_quotient, minima. rewrite Hp. simpl. eauto. }
  rewrite Hq in *. cbn [fmap list_fmap].
  destruct (Hfit q0 Hi Hf) as (z0 & F0 & I0); [by repeat constructor|].
  destruct (Hfit q1 Hi Hf) as (z1 & F1 & I1); [by repeat constructor|].
  destruct (Hfit q2 Hi Hf) as (z2 & F2 & I2); [by repeat constructor|].
  rewrite F0, F1, F2. exists (z0, z1, z2). split; [reflexivity|].
  rewrite (cast_int_floor q0 z0), (cast_int_floor q1 z1), (cast_int_floor q2 z2);
    try done; apply Hnn; try done; by repeat constructor.
Qed.

(** *** The map from voxels to buckets *)

Lemma voxel_body_step i m :
  0 <= i < size this →
  voxel_body this voxel_size (minima this) i m
  = Ok (insert_point this voxel_size m i).
Proof.
  intros Hi. unfold voxel_body, insert_point. rewrite xyz_ok by done.
  cbn [mbind result_bind]. fold (finite_point this i).
  destruct (finite_point this i) eqn:Hf; [|reflexivity].
  destruct (voxel_of_floor i Hi Hf) as (k & Hk & Hv). by rewrite Hk, Hv.
Qed.

Lemma voxel_loop l :
  Forall (λ i, 0 <= i < size this) l →
  ∀ m, for_each (voxel_body this voxel_size (minima this)) l m
       = Ok (foldl (insert_point this voxel_size) m l).
Proof.
  induction l as [|i l IH]; intros Hl m; [reflexivity|].
  apply Forall_cons in Hl as [Hi Hl]. cbn [for_each foldl].
  rewrite voxel_body_step by done. cbn [mbind result_bind]. by apply IH.
Qed.

(** Every key of the map holds the points of its voxel, in order. *)
Lemma lookup_insert_points l :
  ∀ (m : gmap Vector3i (list Z)) k,
    foldl (insert_point this voxel_size) m l !! k
    = match bucket_in this voxel_size l k with
      | [] => m !! k
      | b => Some (default [] (m !! k) ++ b)
      end.
Proof.
  induction l as [|i l IH]; intros m k; [reflexivity|].
  cbn [foldl]. rewrite IH. unfold bucket_in. cbn [List.filter].
  fold (bucket_in this voxel_size l k).
  unfold insert_point.
  destruct (finite_point this i) eqn:Hf; cbn [andb]; [|reflexivity].
  destruct (voxel_floor this voxel_size i) as [ki|] eqn:Hk.
  2:{ rewrite bool_decide_eq_false_2 by discriminate. reflexivity. }
  destruct (decide (ki = k)) as [->|Hne].
  - rewrite bool_decide_eq_true_2 by reflexivity.
    unfold emplace_back. rewrite lookup_insert_eq. cbn [default].
    destruct (bucket_in this voxel_size l k) as [|j b]; [reflexivity|].
    unfold id. by rewrite <- app_assoc.
  - rewrite bool_decide_eq_false_2 by congruence.
    unfold emplace_back. by rewrite lookup_insert_ne.
Qed.

Lemma lookup_voxels k :
  voxels this voxel_size !! k
  = match bucket this voxel_size k with [] => None | b => Some b end.
Proof.
  unfold voxels, bucket. rewrite lookup_insert_points, lookup_empty.
  by destruct (bucket_in _ _ _ _).
Qed.

Lemma voxel_loop_voxels :
  for_each (voxel_body this voxel_size (minima this)) (seqZ 0 (size_ this)) ∅
  = Ok (voxels this voxel_size).
Proof.
  rewrite voxel_loop; [reflexivity|].
  apply Forall_seqZ. intros i Hi. unfold size. lia.
Qed.

Lemma size_insert_points l :
  ∀ m : gmap Vector3i (list Z),
    (base.size (foldl (insert_point this voxel_size) m l) <= base.size m + length l)%nat.
Proof.
  induction l as [|i l IH]; intros m; cbn [foldl length]; [lia|].
  etrans; [apply IH|].
  assert (base.size (insert_point this voxel_size m i) <= S (base.size m))%nat; [|lia].
  unfold insert_point. destruct (finite_point this i); [|lia].
  destruct (voxel_floor this voxel_size i) as [k|]; [|lia].
  unfold emplace_back. destruct (m !! k) as [b|] eqn:E.
  - rewrite map_size_insert_Some by eauto. lia.
  - rewrite map_size_insert_None by done. lia.
Qed.

Lemma size_voxels : Z.of_nat (base.size (voxels this voxel_size)) <= size this.
Proof.
  pose proof (size_insert_points (seqZ 0 (size this)) ∅) as Hs.
  rewrite map_size_empty, length_seqZ in Hs.
  fold (voxels this voxel_size) in Hs.
  pose proof (valid_size _ this_valid). unfold size in *. lia.
Qed.

Lemma elem_of_bucket i k :
  i ∈ bucket this voxel_size k
  ↔ 0 <= i < size this ∧ finite_point this i = true
    ∧ voxel_floor this voxel_size i = Some k.
Proof.
  unfold bucket, bucket_in. rewrite list_elem_of_In, filter_In, <- list_elem_of_In.
  rewrite elem_of_seqZ, andb_true_iff, bool_decide_eq_true.
  split; [intros (? & ? & ?) | intros (? & ? & ?)]; repeat split; (done || lia).
Qed.

Lemma occupied_bucket k : occupied this voxel_size k ↔ bucket this voxel_size k ≠ [].
Proof.
  split.
  - intros (i & Hi & Hf & Hk) E.
    assert (i ∈ bucket this voxel_size k) as Hin by (by apply elem_of_bucket).
    rewrite E in Hin. by apply elem_of_nil in Hin.
  - intros Hne. destruct (bucket this voxel_size k) as [|i b] eqn:E; [done|].
    exists i. apply elem_of_bucket. rewrite E. left.
Qed.

(** The entries the third loop visits: the occupied voxels, each once, with
    its bucket. *)
Lemma iteration_entries :
  NoDup (iteration (voxels this voxel_size)).*1
  ∧ (∀ k, k ∈ (iteration (voxels this voxel_size)).*1 ↔ occupied this voxel_size k)
  ∧ (∀ k b, (k, b) ∈ iteration (voxels this voxel_size) → b = bucket this voxel_size k)
  ∧ length (iteration (voxels this voxel_size)) = base.size (voxels this voxel_size).
Proof.
  pose proof (iteration_perm (voxels this voxel_size)) as Hperm.
  assert (∀ k b, (k, b) ∈ iteration (voxels this voxel_size)
                 ↔ voxels this voxel_size !! k = Some b) as Hin.
  { intros k b. rewrite Hperm. apply elem_of_map_to_list. }
  split; [|split; [|split]].
  - rewrite Hperm. apply NoDup_fst_map_to_list.
  - intros k. rewrite occupied_bucket, list_elem_of_fmap. split.
    + intros ([k' b] & -> & Hkb). apply Hin in Hkb. rewrite lookup_voxels in Hkb.
      simpl. by destruct (bucket this voxel_size k').
    + intros Hne. exists (k, bucket this voxel_size k). split; [done|].
      apply Hin. rewrite lookup_voxels. by destruct (bucket this voxel_size k).
  - intros k b Hkb. apply Hin in Hkb. rewrite lookup_voxels in Hkb.
    destruct (bucket this voxel_size k); congruence.
  - rewrite Hperm. apply length_map_to_list.
Qed.
End DownSampleVoxels.

(** ** VoxelizedDownSample: the averages *)

Lemma Forall_filter_list {A} (P : A → Prop) (f : A → bool) (l : list A) :
  Forall P l → Forall P (List.filter f l).
Proof.
  induction 1 as [|x l Hx Hl IH]; simpl; [constructor|].
  destruct (f x); [by constructor | exact IH].
Qed.

Lemma length_add_to acc v : length (add_to acc v) = (length acc `min` length v)%nat.
Proof. unfold add_to. apply length_zip_with. Qed.

Lemma length_fold_add_to r vs :
  Forall (λ v, length v = r) vs →
  ∀ acc, length acc = r → length (foldl add_to acc vs) = r.
Proof.
  induction 1 as [|v vs Hv Hvs IH]; intros acc Hacc; simpl; [exact Hacc|].
  apply IH. rewrite length_add_to. lia.
Qed.

Section Means.
Context `{Platform}.

Lemma length_sum_vectors r vs :
  Forall (λ v, length v = r) vs → length (sum_vectors r vs) = r.
Proof.
  intros Hvs. unfold sum_vectors. apply length_fold_add_to; [exact Hvs|].
  apply length_replicate.
Qed.

Lemma length_mean_float r vs :
  Forall (λ v : list float, length v = r) vs → length (mean_float r vs) = r.
Proof.
  intros Hvs. unfold mean_float, divide_by. rewrite !length_fmap.
  apply length_sum_vectors. apply Forall_fmap. eapply Forall_impl; [exact Hvs|].
  intros v Hv. simpl. by rewrite length_fmap.
Qed.

Lemma length_mean_color vs :
  Forall (λ v : list C, length v = 3%nat) vs → length (mean_color vs) = 3%nat.
Proof.
  intros Hvs. unfold mean_color, divide_by. rewrite !length_fmap.
  apply length_sum_vectors. apply Forall_fmap. eapply Forall_impl; [exact Hvs|].
  intros v Hv. simpl. by rewrite length_fmap.
Qed.

Lemma Forall_pick {A} r n b (m : Mat A) :
  shaped r n m → Forall (λ i, 0 <= i < n) b →
  Forall (λ c, length c = r) (pick b m).
Proof.
  intros Hs Hb. unfold pick. apply Forall_fmap. eapply Forall_impl; [exact Hb|].
  intros i Hi. simpl. by eapply length_column.
Qed.

Lemma store_prefix {A E} r n (g : E → list A) done e dst :
  prefix_written r n g done dst → length (g e) = r →
  Z.of_nat (length done) < n →
  prefix_written r n g (done ++ [e]) (store (Z.of_nat (length done)) (g e) dst).
Proof.
  intros [(Hr & Hc & Hf) Ht] Hl Hd. unfold cols in Hc. split.
  - split; [exact Hr|]. split.
    + unfold cols, store. simpl. by rewrite length_insert.
    + unfold store. simpl. by apply Forall_insert.
  - unfold store. simpl. rewrite Nat2Z.id, length_app. simpl.
    rewrite Nat.add_1_r.
    erewrite take_S_r; [|apply list_lookup_insert_eq; lia].
    rewrite take_insert_ge by lia. rewrite Ht. by rewrite fmap_app.
Qed.
End Means.

Section DownSampleEmit.
Context `{Platform}.
Variables (this : PointCloud).
Hypothesis this_valid : valid this.
Hypothesis this_has_xyzs : has_xyzs this = true.

Lemma accumulate_step i a :
  0 <= i < size this → accumulate this i a = Ok (accumulated this [i] a).
Proof.
  intros Hi. unfold accumulate, size in *.
  change (@Eigen.col float) with (@Eigen.col T).
  change (@Eigen.col spec_float) with (@Eigen.col T).
  change (@Eigen.col D) with (@Eigen.col T).
  rewrite xyzs_ok by done. cbn [mbind result_bind].
  rewrite (Eigen_col_ok i (Storage.xyzs_ (storage_ this)))
    by (destruct (valid_xyzs _ this_valid this_has_xyzs) as (_ & -> & _); lia).
  cbn [mbind result_bind].
  destruct (has_normals this) eqn:En;
    [rewrite (normals_ok _ En); cbn [mbind result_bind];
     rewrite (Eigen_col_ok i (Storage.normals_ (storage_ this)))
       by (destruct (valid_normals _ this_valid En) as (_ & -> & _); lia);
     cbn [mbind result_bind];
     match goal with
     | |- context [if all_finite ?v then _ else _] => destruct (all_finite v) eqn:Fn
     end|];
    cbn [mbind result_bind fst snd];
    (destruct (has_rgbs this) eqn:Er;
     [rewrite (rgbs_ok _ Er); cbn [mbind result_bind];
      rewrite (Eigen_col_ok i (Storage.rgbs_ (storage_ this)))
        by (destruct (valid_rgbs _ this_valid Er) as (_ & -> & _); lia)|]);
    cbn [mbind result_bind fst snd];
    (destruct (has_descriptors this) eqn:Ed;
     [rewrite (descriptors_ok _ Ed); cbn [mbind result_bind];
      rewrite (Eigen_col_ok i (Storage.descriptors_ (storage_ this)))
        by (destruct (valid_descriptors _ this_valid Ed) as (_ & -> & _); lia);
      cbn [mbind result_bind];
      match goal with
      | |- context [if all_finite ?v then _ else _] => destruct (all_finite v) eqn:Fd
      end|]);
    cbn [mbind result_bind fst snd];
    unfold accumulated, pick, finite_only; rewrite ?En, ?Er, ?Ed;
    cbn [fmap list_fmap List.filter]; rewrite ?Fn, ?Fd;
    cbn [foldl length fmap list_fmap]; f_equal; f_equal; lia.
Qed.

Lemma accumulated_cons i b a :
  accumulated this b (accumulated this [i] a) = accumulated this (i :: b) a.
Proof.
  unfold accumulated, pick, finite_only. cbn [fmap list_fmap List.filter].
  destruct (has_normals this), (has_rgbs this), (has_descriptors this);
    cbn [acc_xyz acc_normal acc_rgb acc_descriptor num_normals num_descriptors];
    repeat match goal with
           | |- context [all_finite ?v] => destruct (all_finite v)
           end;
    cbn [foldl length fmap list_fmap]; f_equal; lia.
Qed.

(** The inner loop adds up the points of a bucket. *)
Lemma accumulate_loop b :
  Forall (λ i, 0 <= i < size this) b →
  ∀ a, for_each (accumulate this) b a = Ok (accumulated this b a).
Proof.
  induction b as [|i b IH]; intros Hb a.
  - simpl. unfold accumulated, pick, finite_only. simpl.
    destruct a. destruct (has_normals this), (has_rgbs this), (has_descriptors this);
      simpl; f_equal; f_equal; lia.
  - apply Forall_cons in Hb as [Hi Hb]. cbn [for_each].
    rewrite accumulate_step by done. cbn [mbind result_bind].
    rewrite IH by done. by rewrite accumulated_cons.
Qed.

(** The columns the third loop writes are the averages of the bucket. *)
Lemma xyz_column b :
  F32.of_double
    <$> divide_by (Z.of_nat (length b))
          (acc_xyz (accumulated this b (accumulators_zero this)))
  = xyz_mean this b.
Proof.
  unfold xyz_mean, mean_float, sum_vectors, accumulated, accumulators_zero, pick.
  cbn [acc_xyz]. by rewrite !length_fmap.
Qed.

Lemma normal_column b :
  has_normals this = true →
  F32.of_double
    <$> divide_by (num_normals (accumulated this b (accumulators_zero this)))
          (acc_normal (accumulated this b (accumulators_zero this)))
  = normal_mean this b.
Proof.
  intros Hp.
  unfold normal_mean, mean_float, sum_vectors, accumulated, accumulators_zero.
  cbn [acc_normal num_normals]. rewrite Hp, Z.add_0_l. reflexivity.
Qed.

Lemma rgb_column b :
  has_rgbs this = true →
  double_to_C
    <$> divide_by (Z.of_nat (length b))
          (acc_rgb (accumulated this b (accumulators_zero this)))
  = rgb_mean this b.
Proof.
  intros Hp.
  unfold rgb_mean, mean_color, sum_vectors, accumulated, accumulators_zero, pick.
  cbn [acc_rgb]. rewrite Hp. by rewrite !length_fmap.
Qed.

Lemma descriptor_column b :
  has_descriptors this = true →
  F32.of_double
    <$> divide_by (num_descriptors (accumulated this b (accumulators_zero this)))
          (acc_descriptor (accumulated this b (accumulators_zero this)))
  = descriptor_mean this b.
Proof.
  intros Hp.
  unfold descriptor_mean, mean_float, sum_vectors, accumulated, accumulators_zero.
  cbn [acc_descriptor num_descriptors]. rewrite Hp, Z.add_0_l. reflexivity.
Qed.

(** The heights of the averages. *)
Lemma length_means b :
  Forall (λ i, 0 <= i < size this) b →
  length (xyz_mean this b) = 3%nat
  ∧ (has_normals this = true → length (normal_mean this b) = 3%nat)
  ∧ (has_rgbs this = true → length (rgb_mean this b) = 3%nat)
  ∧ (has_descriptors this = true →
     length (descriptor_mean this b)
     = pc_flags.size (pc_flags.descriptor_type (fields_ this))
     ∧ rows (Storage.descriptors_ (storage_ this))
       = pc_flags.size (pc_flags.descriptor_type (fields_ this))).
Proof.
  intros Hb. unfold size in Hb. split; [|split; [|split]].
  - apply length_mean_float. eapply Forall_pick; [|exact Hb].
    by apply valid_xyzs.
  - intros Hp. apply length_mean_float. apply Forall_filter_list.
    eapply Forall_pick; [|exact Hb]. by apply valid_normals.
  - intros Hp. apply length_mean_color. eapply Forall_pick; [|exact Hb].
    by apply valid_rgbs.
  - intros Hp. pose proof (valid_descriptors _ this_valid Hp) as Hs.
    destruct Hs as (Hr & Hc & Hf). split; [|exact Hr].
    unfold descriptor_mean. rewrite Hr. apply length_mean_float.
    apply Forall_filter_list. eapply Forall_pick; [|exact Hb]. done.
Qed.

Lemma emit_body_ok n e done down :
  emit_invariant this n done down →
  Forall (λ i, 0 <= i < size this) e.2 →
  Z.of_nat (length done) < n →
  emit_body this e (down, Z.of_nat (length done))
  = Ok (emitted this e.2 (Z.of_nat (length done)) down, Z.of_nat (length done) + 1).
Proof.
  intros (If & Is & Isf & Iss & Ix & Im & Ir & Id) Hb Hd.
  unfold emit_body. rewrite accumulate_loop by done. cbn [mbind result_bind].
  rewrite xyz_column.
  destruct (length_means e.2 Hb) as (Lx & Lm & Lr & Ld).
  assert (∀ A r (g : Vector3i * list Z → list A) (col : list A) (dst : Mat A),
            prefix_written r n g done dst → length col = r →
            Eigen.assign_col (Z.of_nat (length done)) col dst
            = Ok (store (Z.of_nat (length done)) col dst)) as Hstep.
  { intros A r g col dst [(Hr & Hc & _) _] Hl.
    apply Eigen_assign_col_ok; [lia | congruence]. }
  unfold exec, mbind, method_bind, mret, method_ret.
  assert (has_xyzs down = has_xyzs this) as Px by (unfold has_xyzs; by rewrite If).
  assert (has_normals down = has_normals this) as Pm
    by (unfold has_normals; by rewrite If).
  assert (has_rgbs down = has_rgbs this) as Pr by (unfold has_rgbs; by rewrite If).
  assert (has_descriptors down = has_descriptors this) as Pd
    by (unfold has_descriptors; by rewrite If).
  erewrite mutable_xyzs_ok;
    [|exact (eq_trans Px this_has_xyzs)
     |exact (Hstep _ _ _ _ _ (Ix this_has_xyzs) Lx)].
  unfold emitted.
  destruct (has_normals this) eqn:En.
  - rewrite normal_column by done. cbn beta iota.
    erewrite mutable_normals_ok; [|exact Pm|exact (Hstep _ _ _ _ _ (Im eq_refl) (Lm eq_refl))].
    destruct (has_rgbs this) eqn:Er.
    + rewrite rgb_column by done. cbn beta iota.
      erewrite mutable_rgbs_ok;
        [|exact Pr|exact (Hstep _ _ _ _ _ (Ir eq_refl) (Lr eq_refl))].
      destruct (has_descriptors this) eqn:Ed; [|reflexivity].
      rewrite descriptor_column by done. cbn beta iota.
      erewrite mutable_descriptors_ok;
        [|exact Pd|exact (Hstep _ _ _ _ _ (Id eq_refl) (proj1 (Ld eq_refl)))].
      reflexivity.
    + destruct (has_descriptors this) eqn:Ed; [|reflexivity].
      rewrite descriptor_column by done. cbn beta iota.
      erewrite mutable_descriptors_ok;
        [|exact Pd|exact (Hstep _ _ _ _ _ (Id eq_refl) (proj1 (Ld eq_refl)))].
      reflexivity.
  - destruct (has_rgbs this) eqn:Er.
    + rewrite rgb_column by done. cbn beta iota.
      erewrite mutable_rgbs_ok;
        [|exact Pr|exact (Hstep _ _ _ _ _ (Ir eq_refl) (Lr eq_refl))].
      destruct (has_descriptors this) eqn:Ed; [|reflexivity].
      rewrite descriptor_column by done. cbn beta iota.
      erewrite mutable_descriptors_ok;
        [|exact Pd|exact (Hstep _ _ _ _ _ (Id eq_refl) (proj1 (Ld eq_refl)))].
      reflexivity.
    + destruct (has_descriptors this) eqn:Ed; [|reflexivity].
      rewrite descriptor_column by done. cbn beta iota.
      erewrite mutable_descriptors_ok;
        [|exact Pd|exact (Hstep _ _ _ _ _ (Id eq_refl) (proj1 (Ld eq_refl)))].
      reflexivity.
Qed.

Lemma emit_invariant_step n e done down :
  emit_invariant this n done down →
  Forall (λ i, 0 <= i < size this) e.2 →
  Z.of_nat (length done) < n →
  emit_invariant this n (done ++ [e]) (emitted this e.2 (Z.of_nat (length done)) down).
Proof.
  intros (If & Is & Isf & Iss & Ix & Im & Ir & Id) Hb Hd.
  destruct (length_means e.2 Hb) as (Lx & Lm & Lr & Ld).
  unfold emit_invariant, emitted. simpl.
  repeat (split; [done|]).
  split; [|split; [|split]]; intros Hp; try rewrite Hp.
  - apply (store_prefix 3 n (λ e, xyz_mean this e.2)); auto.
  - apply (store_prefix 3 n (λ e, normal_mean this e.2)); auto.
  - apply (store_prefix 3 n (λ e, rgb_mean this e.2)); auto.
  - apply (store_prefix _ n (λ e, descriptor_mean this e.2)); auto.
    by apply Ld.
Qed.

(** The third loop writes one column of averages per entry. *)
Lemma emit_loop n es :
  ∀ done down,
    emit_invariant this n done down →
    Forall (λ e : Vector3i * list Z, Forall (λ i, 0 <= i < size this) e.2) es →
    Z.of_nat (length done + length es) <= n →
    ∃ down',
      for_each (emit_body this) es (down, Z.of_nat (length done))
      = Ok (down', Z.of_nat (length (done ++ es)))
      ∧ emit_invariant this n (done ++ es) down'.
Proof.
  induction es as [|e es IH]; intros done down Hinv Hes Hlen.
  - exists down. simpl. rewrite app_nil_r. done.
  - apply Forall_cons in Hes as [He Hes]. simpl in Hlen. cbn [for_each].
    rewrite (emit_body_ok n) by (done || lia). cbn [mbind result_bind].
    destruct (IH (done ++ [e]) (emitted this e.2 (Z.of_nat (length done)) down))
      as (down' & Hrun & Hinv').
    + apply emit_invariant_step; [done | done | lia].
    + done.
    + rewrite length_app. simpl. lia.
    + exists down'. rewrite <- app_assoc in Hrun, Hinv'. simpl in Hrun, Hinv'.
      split; [|exact Hinv'].
      rewrite <- Hrun. f_equal. f_equal. rewrite length_app. simpl. lia.
Qed.

(** A cloud that was just constructed satisfies the invariant. *)
Lemma emit_invariant_new n down :
  0 <= n <= INT_MAX →
  PointCloud_new n (fields this) false = Ok down →
  emit_invariant this n [] down.
Proof.
  intros Hn Hnew.
  pose proof (valid_PointCloud_new _ _ _ _ Hn Hnew) as Hv.
  pose proof (PointCloud_new_fields _ _ _ _ Hnew) as Hf. unfold fields in Hf.
  assert (size_ down = n) as Hs.
  { rewrite PointCloud_new_ok in Hnew;
      [|apply (valid_not_none _ this_valid)|apply (valid_not_inherit _ this_valid)|lia].
    by injection Hnew as <-. }
  destruct Hv as [Vs Vnone Vinh Vsf Vss Vx Vm Vr Vd].
  unfold has_xyzs, has_normals, has_rgbs, has_descriptors in *.
  rewrite Hf, Hs in *.
  unfold emit_invariant. repeat (split; [done|]).
  split; [|split; [|split]]; intros Hp; (split; [auto | reflexivity]).
Qed.
End DownSampleEmit.

(** ** VoxelizedDownSample: the whole function *)

Section DownSampleCorrect.
Context `{Platform}.
Variables (this : PointCloud) (voxel_size : double).
Hypothesis this_valid : valid this.
Hypothesis this_has_xyzs : has_xyzs this = true.
Hypothesis size_positive : SFgtb voxel_size (F64.of_Z 0) = true.
Hypothesis canonical : positions_canonical this.
Hypothesis fit : coordinates_fit this voxel_size.

Lemma written_columns {A E} r n (g : E → list A) (es : list E) (dst : Mat A) :
  prefix_written r n g es dst → n = Z.of_nat (length es) → columns dst = g <$> es.
Proof.
  intros [(_ & Hc & _) Ht] ->. unfold cols in Hc.
  rewrite <- Ht. symmetry. apply take_ge. lia.
Qed.

Lemma VoxelizedDownSample_ok :
  ∃ out, VoxelizedDownSample voxel_size this = Ok out ∧ valid out
         ∧ down_sampled_by this voxel_size (iteration (voxels this voxel_size)).*1 out.
Proof.
  set (es := iteration (voxels this voxel_size)).
  set (n := Z.of_nat (base.size (voxels this voxel_size))).
  destruct (iteration_entries this voxel_size) as (Hnodup & Hocc & Hbucket & Hlen).
  fold es in Hnodup, Hocc, Hbucket, Hlen.
  pose proof (size_voxels this voxel_size this_valid) as Hsize. fold n in Hsize.
  pose proof (valid_size _ this_valid) as Hs. unfold size in Hsize.
  assert (0 <= n <= INT_MAX) as Hn by (unfold n; lia).
  unfold VoxelizedDownSample. rewrite this_has_xyzs, size_positive.
  cbn [DRAKE_THROW_UNLESS mbind result_bind].
  rewrite (lower_loop_minima this this_valid this_has_xyzs).
  cbn [mbind result_bind].
  rewrite (voxel_loop_voxels this voxel_size this_valid this_has_xyzs size_positive
             canonical fit).
  cbn [mbind result_bind]. fold n.
  destruct (PointCloud_new n (fields this) false) as [down|] eqn:Hnew.
  2:{ rewrite PointCloud_new_ok in Hnew; [discriminate| | |lia];
      [apply (valid_not_none _ this_valid) | apply (valid_not_inherit _ this_valid)]. }
  cbn [mbind result_bind]. fold es.
  destruct (emit_loop this this_valid this_has_xyzs n es [] down) as (out & Hrun & Hinv).
  { by apply emit_invariant_new. }
  { apply Forall_forall. intros [k b] Hkb. simpl.
    rewrite (Hbucket k b Hkb). apply Forall_forall. intros i Hi.
    by apply elem_of_bucket in Hi as [Hi _]. }
  { simpl. unfold n. lia. }
  change (Z.of_nat (length (@nil (Vector3i * list Z)))) with 0 in Hrun.
  cbn [app] in Hrun, Hinv. rewrite Hrun. cbn [mbind result_bind fst].
  destruct Hinv as (If & Is & Isf & Iss & Ix & Im & Ir & Id).
  assert (n = Z.of_nat (length es)) as Hnl by (unfold n; by rewrite Hlen).
  exists out. split; [reflexivity|]. split.
  - split; try done.
    + by rewrite Is.
    + rewrite If. apply (valid_not_none _ this_valid).
    + rewrite If. apply (valid_not_inherit _ this_valid).
    + by rewrite Isf, If.
    + by rewrite Iss, Is.
    + unfold has_xyzs. rewrite If, Is. intros Hp. by apply Ix.
    + unfold has_normals. rewrite If, Is. intros Hp. by apply Im.
    + unfold has_rgbs. rewrite If, Is. intros Hp. by apply Ir.
    + unfold has_descriptors. rewrite If, Is. intros Hp. by apply Id.
  - unfold down_sampled_by, fields, size.
    split; [exact If|]. split; [by rewrite length_fmap, Is|].
    split; [exact Hnodup|]. split; [exact Hocc|].
    intros j k Hj. apply list_lookup_fmap_Some in Hj as ([k' b] & Hk & Hjb).
    simpl in Hk. subst k.
    assert (b = bucket this voxel_size k') as ->.
    { apply Hbucket. apply list_elem_of_lookup. eauto. }
    unfold averages.
    split; [|split; [|split]]; try intros Hp.
    + rewrite (written_columns _ _ _ _ _ (Ix this_has_xyzs) Hnl).
      by rewrite list_lookup_fmap, Hjb.
    + rewrite (written_columns _ _ _ _ _ (Im Hp) Hnl).
      by rewrite list_lookup_fmap, Hjb.
    + rewrite (written_columns _ _ _ _ _ (Ir Hp) Hnl).
      by rewrite list_lookup_fmap, Hjb.
    + pose proof (written_columns _ _ _ _ _ (Id Hp) Hnl) as Hc.
      apply (f_equal (λ l, l !! j)) in Hc. etrans; [exact Hc|].
      by rewrite list_lookup_fmap, Hjb.
Qed.
End DownSampleCorrect.

(** Without positions, or with a voxel size that is not above zero, the
    function throws before it reads a point. *)
Lemma VoxelizedDownSample_no_positions `{Platform} (this : PointCloud) voxel_size :
  has_xyzs this = false → throws (VoxelizedDownSample voxel_size this) = true.
Proof. intros Hx. unfold VoxelizedDownSample. by rewrite Hx. Qed.

Lemma VoxelizedDownSample_bad_size `{Platform} (this : PointCloud) voxel_size :
  SFgtb voxel_size (F64.of_Z 0) = false →
  throws (VoxelizedDownSample voxel_size this) = true.
Proof.
  intros Hs. unfold VoxelizedDownSample. rewrite Hs.
  by destruct (has_xyzs this).
Qed.

(** The average of no vector at all: zero divided by zero, in every
    coefficient. *)
Lemma mean_float_nil r : mean_float r [] = replicate r S754_nan.
Proof.
  unfold mean_float, divide_by, sum_vectors. simpl.
  by rewrite !fmap_replicate.
Qed.

(** C10: when normals (or descriptors) are present and the bucket of an
    occupied voxel holds no point with an entirely finite normal (or
    descriptor), the call still returns, and every coefficient of the
    normal (or descriptor) of the output point of that voxel is NaN: the
    zero accumulator divided by the zero count. *)
Theorem empty_average_is_NaN `{Platform} (this : PointCloud) (voxel_size : double) :
  valid this → has_xyzs this = true → SFgtb voxel_size (F64.of_Z 0) = true →
  positions_canonical this → coordinates_fit this voxel_size →
  ∃ (out : PointCloud) (keys : list Vector3i),
    VoxelizedDownSample voxel_size this = Ok out
    ∧ (∀ k, k ∈ keys ↔ occupied this voxel_size k)
    ∧ ∀ j k, keys !! j = Some k →
        (has_normals this = true →
         finite_only (pick (bucket this voxel_size k) (Storage.normals_ (storage_ this)))
         = [] →
         columns (Storage.normals_ (storage_ out)) !! j = Some (replicate 3 S754_nan))
        ∧ (has_descriptors this = true →
           finite_only
             (pick (bucket this voxel_size k) (Storage.descriptors_ (storage_ this)))
           = [] →
           columns (Storage.descriptors_ (storage_ out)) !! j
           = Some (replicate (rows (Storage.descriptors_ (storage_ this))) S754_nan)).
Proof.
  intros Hv Hx Hs Hc Hfit.
  destruct (VoxelizedDownSample_ok this voxel_size Hv Hx Hs Hc Hfit)
    as (out & Hrun & _ & _ & _ & _ & Hocc & Havg).
  exists out, (iteration (voxels this voxel_size)).*1.
  split; [done|]. split; [done|].
  intros j k Hj. destruct (Havg j k Hj) as (_ & Hn & _ & Hd).
  split; intros Hp Hnone.
  - etrans; [exact (Hn Hp)|]. unfold normal_mean.
    by rewrite Hnone, mean_float_nil.
  - etrans; [exact (Hd Hp)|]. unfold descriptor_mean.
    by rewrite Hnone, mean_float_nil.
Qed.

(** * Further properties of the member functions *)

(** ** The class invariant *)

Section InvariantKept.
Context `{Platform}.

Lemma keeps_valid_bind {A B} (m : method A) (k : A → method B) :
  keeps_valid m → (∀ a, keeps_valid (k a)) → keeps_valid (m ≫= k).
Proof.
  intros Hm Hk c r c' Hv Hrun Hr. unfold mbind, method_bind in Hrun.
  destruct (m c) as [[a|e] c1] eqn:Hmc.
  - apply (Hk a c1 r c'); [|done|done]. apply (Hm c (Ok a) c1); [done|done|by left].
  - injection Hrun as <- <-. by apply (Hm c (Fail e) c1).
Qed.

Lemma keeps_valid_ret {A} (a : A) : keeps_valid (mret a).
Proof. intros c r c' Hv [= <- <-] _. done. Qed.

(** A step that does not write to the cloud. *)
Lemma keeps_valid_read {A} (f : PointCloud → result A) : keeps_valid (λ c, (f c, c)).
Proof. intros c r c' Hv [= <- <-] _. done. Qed.

Lemma keeps_valid_when p (m : method unit) : keeps_valid m → keeps_valid (when p m).
Proof.
  intros Hm c r c' Hv Hrun Hr. unfold when in Hrun.
  destruct (p c); [by apply (Hm c r c')|]. by injection Hrun as <- <-.
Qed.

Lemma valid_set_xyzs m c :
  valid c → (has_xyzs c = true → shaped 3 (size_ c) m) → valid (set_xyzs m c).
Proof. intros [] Hm. by split. Qed.

Lemma valid_set_normals m c :
  valid c → (has_normals c = true → shaped 3 (size_ c) m) → valid (set_normals m c).
Proof. intros [] Hm. by split. Qed.

Lemma valid_set_rgbs m c :
  valid c → (has_rgbs c = true → shaped 3 (size_ c) m) → valid (set_rgbs m c).
Proof. intros [] Hm. by split. Qed.

Lemma valid_set_descriptors m c :
  valid c →
  (has_descriptors c = true →
   shaped (pc_flags.size (pc_flags.descriptor_type (fields_ c))) (size_ c) m) →
  valid (set_descriptors m c).
Proof. intros [] Hm. by split. Qed.

Lemma keeps_valid_mutable_xyzs w : keeps_shape w → keeps_valid (mutable_xyzs w).
Proof.
  intros Hw c r c' Hv Hrun Hr. unfold mutable_xyzs in Hrun.
  destruct (has_xyzs c) eqn:Hp; simpl in Hrun.
  - destruct (w (Storage.xyzs_ (storage_ c))) as [m|e] eqn:Hwm;
      injection Hrun as <- <-; [|done].
    apply valid_set_xyzs; [done|]. intros _.
    apply (Hw _ _ _ _ (valid_xyzs c Hv Hp) Hwm).
  - by injection Hrun as <- <-.
Qed.

Lemma keeps_valid_mutable_normals w : keeps_shape w → keeps_valid (mutable_normals w).
Proof.
  intros Hw c r c' Hv Hrun Hr. unfold mutable_normals in Hrun.
  destruct (has_normals c) eqn:Hp; simpl in Hrun.
  - destruct (w (Storage.normals_ (storage_ c))) as [m|e] eqn:Hwm;
      injection Hrun as <- <-; [|done].
    apply valid_set_normals; [done|]. intros _.
    apply (Hw _ _ _ _ (valid_normals c Hv Hp) Hwm).
  - by injection Hrun as <- <-.
Qed.

Lemma keeps_valid_mutable_rgbs w : keeps_shape w → keeps_valid (mutable_rgbs w).
Proof.
  intros Hw c r c' Hv Hrun Hr. unfold mutable_rgbs in Hrun.
  destruct (has_rgbs c) eqn:Hp; simpl in Hrun.
  - destruct (w (Storage.rgbs_ (storage_ c))) as [m|e] eqn:Hwm;
      injection Hrun as <- <-; [|done].
    apply valid_set_rgbs; [done|]. intros _.
    apply (Hw _ _ _ _ (valid_rgbs c Hv Hp) Hwm).
  - by injection Hrun as <- <-.
Qed.

Lemma keeps_valid_mutable_descriptors w :
  keeps_shape w → keeps_valid (mutable_descriptors w).
Proof.
  intros Hw c r c' Hv Hrun Hr. unfold mutable_descriptors in Hrun.
  destruct (has_descriptors c) eqn:Hp; simpl in Hrun.
  - destruct (w (Storage.descriptors_ (storage_ c))) as [m|e] eqn:Hwm;
      injection Hrun as <- <-; [|done].
    apply valid_set_descriptors; [done|]. intros _.
    apply (Hw _ _ _ _ (valid_descriptors c Hv Hp) Hwm).
  - by injection Hrun as <- <-.
Qed.

Lemma keeps_shape_setConstant {A} start num (v : A) :
  keeps_shape (Eigen.setConstant start num v).
Proof.
  intros r n m m' Hs Hw. unfold Eigen.setConstant in Hw.
  destruct (Eigen.block_ok start num m) eqn:Hb; [|discriminate].
  injection Hw as <-. by apply (shaped_filled r n start num v m).
Qed.

Lemma keeps_shape_assign {A} r n (src : Mat A) :
  shaped r n src → keeps_shape (Eigen.assign src).
Proof.
  intros (Sr & Sc & Sf) r' n' m m' (Mr & Mc & Mf) Hw. unfold Eigen.assign in Hw.
  destruct (bool_decide (rows src = rows m) && (cols src =? cols m)) eqn:Hb;
    [|discriminate].
  injection Hw as <-. apply andb_true_iff in Hb as [Hr Hc].
  apply bool_decide_eq_true in Hr. apply Z.eqb_eq in Hc.
  unfold shaped, cols in *. simpl. repeat split; [done|lia|].
  rewrite <- Mr, <- Hr, Sr. done.
Qed.

Lemma keeps_valid_SetDefault start num : keeps_valid (SetDefault start num).
Proof.
  unfold SetDefault.
  repeat (apply keeps_valid_bind; [|intros _]); apply keeps_valid_when.
  - apply keeps_valid_mutable_xyzs, keeps_shape_setConstant.
  - apply keeps_valid_mutable_normals, keeps_shape_setConstant.
  - apply keeps_valid_mutable_rgbs, keeps_shape_setConstant.
  - apply keeps_valid_mutable_descriptors, keeps_shape_setConstant.
Qed.

Lemma keeps_valid_resize n skip : n <= INT_MAX → keeps_valid (resize n skip).
Proof.
  intros Hn c r c' Hv Hrun Hr.
  destruct (decide (0 <= n)) as [H0|H0].
  - rewrite resize_ok in Hrun by done. injection Hrun as <- <-.
    by apply valid_resized_cloud.
  - unfold resize in Hrun. assert ((0 <=? n) = false) as E by lia.
    rewrite E in Hrun. simpl in Hrun. by injection Hrun as <- <-.
Qed.

Lemma keeps_valid_Expand add skip : keeps_valid (Expand add skip).
Proof.
  intros c r c' Hv Hrun Hr. unfold Expand in Hrun.
  destruct (0 <=? add) eqn:Ha; simpl in Hrun; [|by injection Hrun as <- <-].
  unfold int_add in Hrun. destruct (in_int (size c + add)) eqn:Hi;
    [|by injection Hrun as <- <-].
  apply (keeps_valid_resize (size c + add) skip) with (c := c) (r := r); try done.
  unfold in_int in Hi. lia.
Qed.

Lemma keeps_valid_lift_bind {A B} (r : result A) (k : A → method B) :
  (∀ a, r = Ok a → keeps_valid (k a)) → keeps_valid (lift r ≫= k).
Proof.
  intros Hk c r' c' Hv Hrun Hr. unfold mbind, method_bind, lift in Hrun.
  destruct r as [a|e].
  - by apply (Hk a eq_refl c r' c').
  - by injection Hrun as <- <-.
Qed.

Lemma keeps_valid_copy_fields_from other fr :
  valid other → keeps_valid (copy_fields_from other fr).
Proof.
  intros Ho. unfold copy_fields_from.
  repeat (apply keeps_valid_bind; [|intros _]).
  - destruct (pc_flags.contains fr _); [|apply keeps_valid_ret].
    apply keeps_valid_lift_bind. intros src Hsrc. unfold xyzs in Hsrc.
    destruct (has_xyzs other) eqn:Hp; [|discriminate]. injection Hsrc as <-.
    eapply keeps_valid_mutable_xyzs, keeps_shape_assign, (valid_xyzs other Ho Hp).
  - destruct (pc_flags.contains fr _); [|apply keeps_valid_ret].
    apply keeps_valid_lift_bind. intros src Hsrc. unfold normals in Hsrc.
    destruct (has_normals other) eqn:Hp; [|discriminate]. injection Hsrc as <-.
    eapply keeps_valid_mutable_normals, keeps_shape_assign, (valid_normals other Ho Hp).
  - destruct (pc_flags.contains fr _); [|apply keeps_valid_ret].
    apply keeps_valid_lift_bind. intros src Hsrc. unfold rgbs in Hsrc.
    destruct (has_rgbs other) eqn:Hp; [|discriminate]. injection Hsrc as <-.
    eapply keeps_valid_mutable_rgbs, keeps_shape_assign, (valid_rgbs other Ho Hp).
  - destruct (pc_flags.has_descriptor fr); [|apply keeps_valid_ret].
    apply keeps_valid_lift_bind. intros src Hsrc. unfold descriptors in Hsrc.
    destruct (has_descriptors other) eqn:Hp; [|discriminate]. injection Hsrc as <-.
    eapply keeps_valid_mutable_descriptors, keeps_shape_assign,
      (valid_descriptors other Ho Hp).
Qed.

Lemma keeps_valid_SetFrom other f allow :
  valid other → keeps_valid (SetFrom other f allow).
Proof.
  intros Ho c r c' Hv Hrun Hr. revert Hrun. unfold SetFrom.
  generalize (size c). intros old Hrun. revert c r c' Hv Hrun Hr.
  change (keeps_valid
    ((if allow then resize (size other) false
      else if negb (size other =? old)
           then lift (Fail (RuntimeError "SetFrom: sizes differ")) else mret tt);;
     fields_resolved ← (λ c', (ResolvePairFields c' other f, c'));
     copy_fields_from other fields_resolved)).
  apply keeps_valid_bind; [|intros _; apply keeps_valid_bind].
  - destruct allow.
    + apply keeps_valid_resize. pose proof (valid_size other Ho). unfold size. lia.
    + destruct (negb _); [apply (keeps_valid_read (λ _, Fail _))|apply keeps_valid_ret].
  - apply (keeps_valid_read (λ c', ResolvePairFields c' other f)).
  - intros fr. by apply keeps_valid_copy_fields_from.
Qed.

End InvariantKept.

(** X1. The class invariant is kept: a member function that writes to a
    valid cloud ([resize], [Expand], [SetDefault], [SetFrom], copy
    assignment, a write through a mutable view), called with arguments of
    their types, leaves the cloud valid whenever it returns or throws. *)
Theorem invariant_is_kept `{Platform} (call : mutation) (c c' : PointCloud)
    (r : result unit) :
  valid c → well_typed call → run call c = (r, c') →
  is_ok r = true ∨ throws r = true → valid c'.
Proof.
  intros Hv Hw Hrun Hr.
  assert (keeps_valid (run call)) as Hkeeps.
  { destruct call; simpl in *.
    - apply keeps_valid_resize. unfold in_int in Hw. lia.
    - apply keeps_valid_Expand.
    - apply keeps_valid_SetDefault.
    - by apply keeps_valid_SetFrom.
    - by apply keeps_valid_SetFrom.
    - by apply keeps_valid_mutable_xyzs.
    - by apply keeps_valid_mutable_normals.
    - by apply keeps_valid_mutable_rgbs.
    - by apply keeps_valid_mutable_descriptors. }
  by apply (Hkeeps c r c').
Qed.

(** ** Construction *)

(** X2. The constructors establish the class invariant: a cloud returned
    by [PointCloud(new_size, fields, skip_initialize)] for a size that is an
    [int], or by the copy constructor from a valid cloud, is valid. *)
Theorem constructors_establish_invariant `{Platform} :
  (∀ n f skip c, 0 <= n <= INT_MAX → PointCloud_new n f skip = Ok c → valid c)
  ∧ (∀ other cf c, valid other → PointCloud_copy other cf = Ok c → valid c).
Proof.
  split.
  - intros n f skip c Hn Hnew. by apply (valid_PointCloud_new n f skip).
  - intros other cf c Ho Hcopy.
    destruct (decide (cf = Inherit)) as [->|Hi].
    + destruct (PointCloud_copy_exact other Inherit Ho (ResolveFields_inherit other))
        as (c0 & Hc0 & _ & Hv). congruence.
    + destruct (decide (cf = fields other)) as [->|Hf].
      * destruct (PointCloud_copy_exact other (fields other) Ho
                    (ResolveFields_other other _ Hi)) as (c0 & Hc0 & _ & Hv).
        congruence.
      * pose proof (PointCloud_copy_other other cf Ho Hi Hf) as Hfail.
        rewrite Hcopy in Hfail. discriminate.
Qed.

(** X3. Move construction from a valid cloud hands the storage over: the
    new cloud is the old one, size, field set and buffers, and the
    moved-from cloud is left a valid cloud of no points with the same field
    set. *)
Theorem move_construction `{Platform} (other : PointCloud) :
  valid other →
  PointCloud_move other = Ok (other, allocated 0 (fields other))
  ∧ valid (allocated 0 (fields other))
  ∧ size (allocated 0 (fields other)) = 0
  ∧ fields (allocated 0 (fields other)) = fields other.
Proof.
  intros Ho. pose proof (valid_not_none other Ho) as Hn.
  pose proof (valid_not_inherit other Ho) as Hi.
  split; [|split; [|done]].
  - unfold PointCloud_move. rewrite PointCloud_new_ok by done.
    cbn [mbind result_bind]. unfold size, Storage.size. simpl.
    rewrite (valid_storage_size other Ho), Z.eqb_refl. simpl.
    by destruct other.
  - apply valid_allocated; [unfold INT_MAX; lia|done|done].
Qed.

(** ** resize and Expand *)

Section Resizing.
Context `{Platform}.

Lemma take_resized {A} (u : nat → nat → A) k n (m : Mat A) :
  (k <= Z.to_nat n)%nat → (k <= length (columns m))%nat →
  take k (columns (resized u n m)) = take k (columns m).
Proof.
  intros Hn Hl. unfold resized. simpl.
  rewrite take_app_le by (rewrite length_take; lia).
  rewrite take_take. f_equal. lia.
Qed.

Lemma take_filled {A} k start num (v : A) (m : Mat A) :
  (k <= Z.to_nat start)%nat → (Z.to_nat start <= length (columns m))%nat →
  take k (columns (filled start num v m)) = take k (columns m).
Proof.
  intros Hk Hl. unfold filled. simpl.
  rewrite take_app_le by (rewrite length_take; lia).
  rewrite take_take. f_equal. lia.
Qed.

Lemma length_resized {A} (u : nat → nat → A) n (m : Mat A) :
  0 <= n → length (columns (resized u n m)) = Z.to_nat n.
Proof. intros Hn. pose proof (cols_resized u n m Hn) as Hc. unfold cols in Hc. lia. Qed.

(** [resize] leaves the points that it retains as they are, with and
    without initialisation of the new ones. *)
Lemma resized_cloud_prefix n skip c k :
  valid c → 0 <= n → 0 <= k → k <= n → k <= size c →
  same_prefix k c (resized_cloud n skip c).
Proof.
  intros Hv Hn Hk Hkn Hks.
  pose proof (valid_storage_fields c Hv) as Hsf.
  assert (∀ {A} r (u : nat → nat → A) (v : A) (m : Mat A),
            shaped r (size_ c) m →
            take (Z.to_nat k) (columns (resized u n m)) = take (Z.to_nat k) (columns m)
            ∧ take (Z.to_nat k)
                (columns (filled (size c) (n - size c) v (resized u n m)))
              = take (Z.to_nat k) (columns m)) as Hm.
  { intros A r u v m (_ & Hc & _). unfold cols, size in *.
    assert (take (Z.to_nat k) (columns (resized u n m)) = take (Z.to_nat k) (columns m))
      as E by (apply take_resized; lia).
    split; [exact E|].
    destruct (decide (size_ c <= n)) as [Hle|Hgt].
    - rewrite take_filled; [exact E|lia|rewrite length_resized by done; lia].
    - unfold filled. cbn [columns].
      rewrite take_app_le by (rewrite length_take, length_resized by done; lia).
      rewrite take_take, Nat.min_l by lia. exact E. }
  unfold same_prefix, resized_cloud, defaulted, has_xyzs, has_normals, has_rgbs,
    has_descriptors.
  destruct ((size c <? n) && negb skip); simpl; rewrite ?Hsf;
    (split; [|split; [|split]]); intros Hp; rewrite ?Hp.
  - apply (proj2 (Hm _ _ uninit_T kDefaultValue _ (valid_xyzs c Hv Hp))).
  - apply (proj2 (Hm _ _ uninit_T kDefaultValue _ (valid_normals c Hv Hp))).
  - apply (proj2 (Hm _ _ uninit_C kDefaultColor _ (valid_rgbs c Hv Hp))).
  - apply (proj2 (Hm _ _ uninit_T kDefaultValue _ (valid_descriptors c Hv Hp))).
  - apply (proj1 (Hm _ _ uninit_T kDefaultValue _ (valid_xyzs c Hv Hp))).
  - apply (proj1 (Hm _ _ uninit_T kDefaultValue _ (valid_normals c Hv Hp))).
  - apply (proj1 (Hm _ _ uninit_C kDefaultColor _ (valid_rgbs c Hv Hp))).
  - apply (proj1 (Hm _ _ uninit_T kDefaultValue _ (valid_descriptors c Hv Hp))).
Qed.
End Resizing.

(** X4. [resize] at its edges.  A negative size aborts at the
    [DRAKE_DEMAND] and leaves the cloud as it was; the present size changes
    nothing; any other size that is an [int] gives a valid cloud of that
    size whose retained points, the first [min(new_size, size())], are
    unchanged in every present field, with and without initialisation. *)
Theorem resize_edges `{Platform} (c : PointCloud) (new_size : Z) (skip : bool) :
  valid c → new_size <= INT_MAX →
  (new_size < 0 → resize new_size skip c = (Fail (DemandFailed "new_size >= 0"), c))
  ∧ (new_size = size c → resize new_size skip c = (Ok tt, c))
  ∧ (0 <= new_size →
     ∃ c', resize new_size skip c = (Ok tt, c') ∧ valid c'
           ∧ size c' = new_size ∧ fields c' = fields c
           ∧ same_prefix (Z.min new_size (size c)) c c').
Proof.
  intros Hv Hmax. split; [|split].
  - intros Hn. unfold resize. assert ((0 <=? new_size) = false) as -> by lia. done.
  - intros ->. pose proof (valid_size c Hv). rewrite resize_ok by (done || (unfold size; lia)).
    by rewrite resized_cloud_same.
  - intros Hn. exists (resized_cloud new_size skip c).
    pose proof (valid_size c Hv) as Hs.
    split; [by apply resize_ok|]. split; [by apply valid_resized_cloud|].
    split; [|split].
    + unfold resized_cloud. destruct (_ && _); [rewrite size_defaulted|]; done.
    + unfold resized_cloud. destruct (_ && _); [rewrite fields_defaulted|]; done.
    + apply resized_cloud_prefix; (done || (unfold size; lia)).
Qed.

Section Expanding.
Context `{Platform}.

Lemma grown_trans {A} r (v : A) m n (old mid new : Mat A) :
  cols old <= m → m <= n →
  grown r v m old mid → grown r v n mid new → grown r v n old new.
Proof.
  unfold grown, cols. intros Hm Hn Hmid Hnew.
  rewrite Hnew, Hmid.
  rewrite (take_ge (columns old) (Z.to_nat m)) by lia.
  rewrite (take_ge (columns old) (Z.to_nat n)) by lia.
  rewrite take_ge by (rewrite length_app, length_replicate; lia).
  rewrite length_app, length_replicate, <- app_assoc, <- replicate_add.
  do 2 f_equal. lia.
Qed.

Lemma default_grown_trans m n c c1 c2 :
  valid c → size c <= m → m <= n →
  default_grown m c c1 → default_grown n c1 c2 → default_grown n c c2.
Proof.
  intros Hv Hm Hn (S1 & F1 & X1 & N1 & R1 & D1) (S2 & F2 & X2 & N2 & R2 & D2).
  unfold fields, has_xyzs, has_normals, has_rgbs, has_descriptors, default_grown in *.
  rewrite F1 in *.
  split; [done|]. split; [done|].
  split; [|split; [|split]]; intros Hp.
  - apply (grown_trans _ _ m) with (mid := Storage.xyzs_ (storage_ c1));
      [|done|auto|auto].
    by destruct (valid_xyzs c Hv Hp) as (_ & -> & _).
  - apply (grown_trans _ _ m) with (mid := Storage.normals_ (storage_ c1));
      [|done|auto|auto].
    by destruct (valid_normals c Hv Hp) as (_ & -> & _).
  - apply (grown_trans _ _ m) with (mid := Storage.rgbs_ (storage_ c1));
      [|done|auto|auto].
    by destruct (valid_rgbs c Hv Hp) as (_ & -> & _).
  - apply (grown_trans _ _ m) with (mid := Storage.descriptors_ (storage_ c1));
      [|done|auto|auto].
    by destruct (valid_descriptors c Hv Hp) as (_ & -> & _).
Qed.

Lemma default_grown_same_data n c c1 c2 :
  default_grown n c c1 → default_grown n c c2 → same_data c1 c2.
Proof.
  intros (S1 & F1 & X1 & N1 & R1 & D1) (S2 & F2 & X2 & N2 & R2 & D2).
  unfold same_data, fields, has_xyzs, has_normals, has_rgbs, has_descriptors,
    grown in *.
  rewrite F1. split; [congruence|]. split; [congruence|].
  split; [|split; [|split]]; intros Hp.
  - by rewrite (X1 Hp), (X2 Hp).
  - by rewrite (N1 Hp), (N2 Hp).
  - by rewrite (R1 Hp), (R2 Hp).
  - by rewrite (D1 Hp), (D2 Hp).
Qed.
End Expanding.

(** X5. [Expand] composes: on a valid cloud, growing by [a] and then by
    [b] gives the size, the field set and the data of growing by [a + b] at
    once, as long as the final size is an [int].  Growing by nothing leaves
    the cloud as it is; a negative amount aborts at the [DRAKE_DEMAND]; a
    sum that is not an [int] is a signed overflow.  The cloud is left
    untouched in both cases. *)
Theorem Expand_composes `{Platform} (c : PointCloud) (a b : Z) :
  valid c →
  (0 <= a → 0 <= b → size c + a + b <= INT_MAX →
   ∃ c1 c2 c3,
     Expand a false c = (Ok tt, c1) ∧ Expand b false c1 = (Ok tt, c2)
     ∧ Expand (a + b) false c = (Ok tt, c3) ∧ same_data c3 c2)
  ∧ (∀ skip, Expand 0 skip c = (Ok tt, c))
  ∧ (∀ skip, a < 0 → Expand a skip c = (Fail (DemandFailed "add_size >= 0"), c))
  ∧ (∀ skip, 0 <= a → INT_MAX < size c + a →
       Expand a skip c = (Fail (UndefinedBehaviour "signed integer overflow"), c)).
Proof.
  intros Hv. pose proof (valid_size c Hv) as Hs. unfold size.
  split; [|split; [|split]].
  - intros Ha Hb Hsum.
    set (c1 := resized_cloud (size c + a) false c).
    assert (valid c1) as Hv1 by (apply valid_resized_cloud; unfold size; (done || lia)).
    assert (default_grown (size c + a) c c1) as G1
      by (apply resized_cloud_grown; unfold size; (done || lia)).
    assert (size c1 = size c + a) as Hs1 by apply G1.
    exists c1, (resized_cloud (size c1 + b) false c1),
      (resized_cloud (size c + (a + b)) false c).
    split; [apply Expand_ok; unfold size; (done || lia)|].
    split; [apply Expand_ok; unfold size in *; (done || lia)|].
    split; [apply Expand_ok; unfold size; (done || lia)|].
    apply (default_grown_same_data (size c + (a + b)) c).
    + apply resized_cloud_grown; unfold size; (done || lia).
    + apply (default_grown_trans (size c + a)) with (c1 := c1); [done|lia|lia|done|].
      replace (size c + (a + b)) with (size c1 + b) by lia.
      apply resized_cloud_grown; unfold size in *; (done || lia).
  - intros skip. rewrite Expand_ok by (unfold size; (done || lia)).
    rewrite Z.add_0_r. by rewrite resized_cloud_same.
  - intros skip Ha. unfold Expand. assert ((0 <=? a) = false) as -> by lia. done.
  - intros skip Ha Hover. unfold Expand, int_add, in_int, size.
    assert ((0 <=? a) = true) as -> by lia.
    assert ((INT_MIN <=? size_ c + a) && (size_ c + a <=? INT_MAX) = false) as ->
      by (apply andb_false_iff; right; lia).
    done.
Qed.

(** ** Field checks *)

Section FieldChecks.
Context `{Platform}.

Lemma contains_trans_base (a f : Fields) (k : Z) :
  pc_flags.contains a f = true → pc_flags.contains f (pc_flags.base k) = true →
  pc_flags.contains a (pc_flags.base k) = true.
Proof.
  rewrite !contains_base. unfold pc_flags.contains. rewrite eqb_true.
  intros Haf Hfk. apply Z.eqb_eq in Hfk. apply Z.eqb_eq.
  apply (f_equal pc_flags.base_fields) in Haf. simpl in Haf.
  rewrite <- Hfk at 1. rewrite Z.land_assoc, Haf. exact Hfk.
Qed.

Lemma contains_descriptor (a f : Fields) :
  pc_flags.contains a f = true → pc_flags.has_descriptor f = true →
  pc_flags.descriptor_type a = pc_flags.descriptor_type f.
Proof.
  unfold pc_flags.contains, pc_flags.has_descriptor. rewrite eqb_true.
  intros Haf Hd. apply bool_decide_eq_true in Hd.
  apply (f_equal pc_flags.descriptor_type) in Haf. simpl in Haf.
  destruct (bool_decide (pc_flags.descriptor_type a = pc_flags.descriptor_type f))
    eqn:E.
  - by apply bool_decide_eq_true in E.
  - by destruct Hd.
Qed.

Lemma RequireFields_ok f c :
  pc_flags.contains f (pc_flags.base pc_flags.kInherit) = false →
  pc_flags.contains (fields_ c) f = true → RequireFields f c = Ok tt.
Proof. intros Hi Hc. unfold RequireFields, HasFields. rewrite Hi. simpl. by rewrite Hc. Qed.

Lemma RequireFields_inv f c :
  RequireFields f c = Ok tt →
  pc_flags.contains f (pc_flags.base pc_flags.kInherit) = false
  ∧ pc_flags.contains (fields_ c) f = true.
Proof.
  unfold RequireFields, HasFields.
  destruct (pc_flags.contains f _); simpl; [discriminate|].
  by destruct (pc_flags.contains (fields_ c) f).
Qed.
End FieldChecks.

(** X6. [ResolvePairFields] returns fields that both clouds have: the
    field set of the receiver when asked for [kInherit], which it accepts
    only when the two clouds have the same field set, and the requested
    field set otherwise.  It throws when the field sets differ under
    [kInherit] and when a requested field is missing from either cloud, and
    aborts when [kInherit] is requested together with other fields. *)
Theorem ResolvePairFields_common `{Platform} (a b : PointCloud) (f : Fields) :
  (∀ r, ResolvePairFields a b f = Ok r →
     pc_flags.contains (fields a) r = true ∧ pc_flags.contains (fields b) r = true
     ∧ (f = Inherit → r = fields a ∧ fields a = fields b)
     ∧ (f ≠ Inherit → r = f))
  ∧ (f = Inherit → fields a ≠ fields b → throws (ResolvePairFields a b f) = true)
  ∧ (f ≠ Inherit → pc_flags.contains f Inherit = true →
     ResolvePairFields a b f
     = Fail (DemandFailed "!fields_in.contains(pc_flags::kInherit)"))
  ∧ (pc_flags.contains f Inherit = false →
     pc_flags.contains (fields a) f = false ∨ pc_flags.contains (fields b) f = false →
     throws (ResolvePairFields a b f) = true).
Proof.
  unfold Inherit, fields. split; [|split; [|split]].
  - intros r Hr. unfold ResolvePairFields in Hr.
    destruct (pc_flags.eqb f (pc_flags.base pc_flags.kInherit)) eqn:Hf.
    + apply eqb_true in Hf as ->. unfold RequireExactFields, HasExactFields, fields in Hr.
      destruct (pc_flags.eqb (fields_ a) (fields_ b)) eqn:Hab; [|discriminate].
      apply eqb_true in Hab. injection Hr as <-.
      rewrite <- Hab, contains_refl. done.
    + apply eqb_false in Hf.
      destruct (RequireFields f a) as [[]|] eqn:Ha; [|discriminate].
      destruct (RequireFields f b) as [[]|] eqn:Hb; [|discriminate].
      injection Hr as <-.
      apply RequireFields_inv in Ha as [_ Ha]. apply RequireFields_inv in Hb as [_ Hb].
      done.
  - intros -> Hab. fold Inherit. by rewrite ResolvePairFields_inherit_mismatch.
  - intros Hf Hi. unfold ResolvePairFields.
    apply eqb_false in Hf. rewrite Hf. unfold RequireFields, HasFields. by rewrite Hi.
  - intros Hi Hc. unfold ResolvePairFields.
    destruct (pc_flags.eqb f (pc_flags.base pc_flags.kInherit)) eqn:Hf.
    { apply eqb_true in Hf as ->. by rewrite contains_refl in Hi. }
    unfold RequireFields, HasFields. rewrite Hi. simpl.
    destruct (pc_flags.contains (fields_ a) f) eqn:Ha; [|done]. simpl.
    destruct Hc as [Hc|Hc]; [discriminate|]. by rewrite Hc.
Qed.

(** X7. [RequireFields] guards the accessors: once [RequireFields(f)]
    has returned on a cloud, the accessor of every field of [f] returns the
    buffer of that field instead of aborting.  On a valid cloud
    [RequireFields(fields())] returns, and so does [RequireFields(f)]
    whenever [RequireExactFields(f)] does. *)
Theorem RequireFields_guards_accessors `{Platform} (c : PointCloud) (f : Fields) :
  (RequireFields f c = Ok tt →
   (pc_flags.contains f (pc_flags.base pc_flags.kXYZs) = true →
    xyzs c = Ok (Storage.xyzs_ (storage_ c)))
   ∧ (pc_flags.contains f (pc_flags.base pc_flags.kNormals) = true →
      normals c = Ok (Storage.normals_ (storage_ c)))
   ∧ (pc_flags.contains f (pc_flags.base pc_flags.kRGBs) = true →
      rgbs c = Ok (Storage.rgbs_ (storage_ c)))
   ∧ (pc_flags.has_descriptor f = true →
      descriptors c = Ok (Storage.descriptors_ (storage_ c))))
  ∧ (valid c → RequireFields (fields c) c = Ok tt)
  ∧ (valid c → RequireExactFields f c = Ok tt → RequireFields f c = Ok tt).
Proof.
  split; [|split].
  - intros Hr. apply RequireFields_inv in Hr as [_ Hc].
    split; [|split; [|split]]; intros Hp.
    + apply xyzs_ok. by apply (contains_trans_base _ f).
    + apply normals_ok. by apply (contains_trans_base _ f).
    + apply rgbs_ok. by apply (contains_trans_base _ f).
    + apply descriptors_ok. unfold has_descriptors, pc_flags.has_descriptor in *.
      by rewrite (contains_descriptor _ f Hc Hp).
  - intros Hv. apply RequireFields_ok; [apply (valid_not_inherit c Hv)|apply contains_refl].
  - intros Hv He. unfold RequireExactFields, HasExactFields in He.
    destruct (pc_flags.eqb (fields c) f) eqn:E; [|discriminate].
    apply eqb_true in E as <-.
    apply RequireFields_ok; [apply (valid_not_inherit c Hv)|apply contains_refl].
Qed.

(** ** SetFrom and copy assignment *)

Section SetFromCopies.
Context `{Platform}.

Lemma copy_fields_from_subset other c fr :
  valid other → valid c →
  pc_flags.contains (fields c) fr = true → pc_flags.contains (fields other) fr = true →
  size c = size other →
  copy_fields_from other fr c = (Ok tt, copied_fields fr other c).
Proof.
  intros Ho Hc Hcf Hof Hs.
  pose proof (contains_trans_base _ fr pc_flags.kXYZs Hcf) as Cx.
  pose proof (contains_trans_base _ fr pc_flags.kNormals Hcf) as Cn.
  pose proof (contains_trans_base _ fr pc_flags.kRGBs Hcf) as Cr.
  pose proof (contains_trans_base _ fr pc_flags.kXYZs Hof) as Ox.
  pose proof (contains_trans_base _ fr pc_flags.kNormals Hof) as On.
  pose proof (contains_trans_base _ fr pc_flags.kRGBs Hof) as Or.
  pose proof (contains_descriptor _ fr Hcf) as Cd.
  pose proof (contains_descriptor _ fr Hof) as Od.
  destruct Ho as [Os Onone Oinh Osf Oss Vox Vom Vor Vod].
  destruct Hc as [Cs Cnone Cinh Csf Css Vcx Vcm Vcr Vcd].
  unfold copy_fields_from, copied_fields, mbind, method_bind, lift,
    xyzs, normals, rgbs, descriptors,
    mutable_xyzs, mutable_normals, mutable_rgbs, mutable_descriptors.
  destruct c as [sz f [sf ss x nm cl d]].
  destruct other as [osz fo [osf oss ox onm ocl od]].
  unfold has_xyzs, has_normals, has_rgbs, has_descriptors, fields, size,
    pc_flags.has_descriptor in *.
  simpl in *. subst.
  destruct (pc_flags.contains fr (pc_flags.base pc_flags.kXYZs)) eqn:Ex; simpl;
    [rewrite ?(Cx eq_refl), ?(Ox eq_refl) in *; simpl;
     destruct (shaped_same_size _ _ ox x (Vox eq_refl) (Vcx eq_refl)) as [? ?];
     rewrite Eigen_assign_ok by done; simpl|];
    (destruct (pc_flags.contains fr (pc_flags.base pc_flags.kNormals)) eqn:En; simpl;
     [rewrite ?(Cn eq_refl), ?(On eq_refl) in *; simpl;
      destruct (shaped_same_size _ _ onm nm (Vom eq_refl) (Vcm eq_refl)) as [? ?];
      rewrite Eigen_assign_ok by done; simpl|]);
    (destruct (pc_flags.contains fr (pc_flags.base pc_flags.kRGBs)) eqn:Er; simpl;
     [rewrite ?(Cr eq_refl), ?(Or eq_refl) in *; simpl;
      destruct (shaped_same_size _ _ ocl cl (Vor eq_refl) (Vcr eq_refl)) as [? ?];
      rewrite Eigen_assign_ok by done; simpl|]);
    (destruct (bool_decide (pc_flags.descriptor_type fr ≠ pc_flags.kDescriptorNone))
       eqn:Ed; simpl;
     [|reflexivity]).
  all: apply bool_decide_eq_true in Ed as Ed'.
  all: assert (bool_decide (pc_flags.descriptor_type f ≠ pc_flags.kDescriptorNone) = true)
         as Edc by (apply bool_decide_eq_true; by rewrite (Cd eq_refl)).
  all: assert (bool_decide (pc_flags.descriptor_type fo ≠ pc_flags.kDescriptorNone) = true)
         as Edo by (apply bool_decide_eq_true; by rewrite (Od eq_refl)).
  all: rewrite Edc, Edo in *; simpl.
  all: specialize (Vod eq_refl); specialize (Vcd eq_refl).
  all: rewrite (Od eq_refl) in Vod; rewrite (Cd eq_refl) in Vcd.
  all: destruct (shaped_same_size _ _ od d Vod Vcd) as [? ?].
  all: rewrite Eigen_assign_ok by done; reflexivity.
Qed.
End SetFromCopies.

Section SetFromRuns.
Context `{Platform}.

(** The first step of [SetFrom]: the resize, or the check of the sizes. *)
Lemma SetFrom_sized other f allow c :
  valid c → valid other → allow = true ∨ size other = size c →
  SetFrom other f allow c
  = match ResolvePairFields (sized_for other allow c) other f with
    | Ok fr => copy_fields_from other fr (sized_for other allow c)
    | Fail e => (Fail e, sized_for other allow c)
    end.
Proof.
  intros Hc Ho Hs. pose proof (valid_size other Ho) as Hos.
  unfold SetFrom, sized_for, mbind, method_bind.
  destruct allow.
  - rewrite resize_ok by (done || (unfold size; lia)). done.
  - destruct Hs as [?|Hs]; [done|]. rewrite Hs, Z.eqb_refl. simpl. done.
Qed.

Lemma valid_sized_for other allow c :
  valid c → valid other → valid (sized_for other allow c).
Proof.
  intros Hc Ho. unfold sized_for. destruct allow; [|done].
  apply valid_resized_cloud; [done|]. apply (valid_size other Ho).
Qed.

Lemma fields_sized_for other allow c : fields_ (sized_for other allow c) = fields_ c.
Proof.
  unfold sized_for, resized_cloud. destruct allow; [|done].
  destruct (_ && _); reflexivity.
Qed.

Lemma size_sized_for other allow c :
  allow = true ∨ size other = size c → size (sized_for other allow c) = size other.
Proof.
  unfold sized_for, resized_cloud. intros Hs. destruct allow.
  - destruct (_ && _); reflexivity.
  - by destruct Hs.
Qed.

Lemma copied_idempotent other c : copied other (copied other c) = copied other c.
Proof.
  unfold copied, with_storage. simpl.
  destruct (has_xyzs other), (has_normals other), (has_rgbs other),
    (has_descriptors other); reflexivity.
Qed.
End SetFromRuns.

(** X8. [SetFrom] with a list of fields.  For valid clouds and a field
    set [f] without [kInherit] that both clouds contain, with
    [allow_resize] or equal sizes, [SetFrom(other, f, allow_resize)]
    returns and leaves a valid cloud with the size of [other] and its own
    field set; the fields of [f] hold the columns of [other], and every
    other buffer is what the resize alone left. *)
Theorem SetFrom_copies_requested `{Platform} (a b : PointCloud) (f : Fields)
    (allow_resize : bool) :
  valid a → valid b →
  pc_flags.contains f Inherit = false →
  pc_flags.contains (fields a) f = true → pc_flags.contains (fields b) f = true →
  allow_resize = true ∨ size b = size a →
  ∃ a', SetFrom b f allow_resize a = (Ok tt, a') ∧ valid a'
    ∧ size a' = size b ∧ fields a' = fields a
    ∧ (if pc_flags.contains f (pc_flags.base pc_flags.kXYZs)
       then columns (Storage.xyzs_ (storage_ a')) = columns (Storage.xyzs_ (storage_ b))
       else Storage.xyzs_ (storage_ a')
            = Storage.xyzs_ (storage_ (sized_for b allow_resize a)))
    ∧ (if pc_flags.contains f (pc_flags.base pc_flags.kNormals)
       then columns (Storage.normals_ (storage_ a'))
            = columns (Storage.normals_ (storage_ b))
       else Storage.normals_ (storage_ a')
            = Storage.normals_ (storage_ (sized_for b allow_resize a)))
    ∧ (if pc_flags.contains f (pc_flags.base pc_flags.kRGBs)
       then columns (Storage.rgbs_ (storage_ a')) = columns (Storage.rgbs_ (storage_ b))
       else Storage.rgbs_ (storage_ a')
            = Storage.rgbs_ (storage_ (sized_for b allow_resize a)))
    ∧ (if pc_flags.has_descriptor f
       then columns (Storage.descriptors_ (storage_ a'))
            = columns (Storage.descriptors_ (storage_ b))
       else Storage.descriptors_ (storage_ a')
            = Storage.descriptors_ (storage_ (sized_for b allow_resize a))).
Proof.
  intros Ha Hb Hi Haf Hbf Hs.
  pose proof (valid_sized_for b allow_resize a Ha Hb) as Hm.
  pose proof (fields_sized_for b allow_resize a) as Hmf.
  pose proof (size_sized_for b allow_resize a Hs) as Hms.
  assert (SetFrom b f allow_resize a
          = (Ok tt, copied_fields f b (sized_for b allow_resize a))) as Hrun.
  { rewrite SetFrom_sized by done.
    assert (ResolvePairFields (sized_for b allow_resize a) b f = Ok f) as ->.
    { unfold ResolvePairFields.
      assert (f ≠ pc_flags.base pc_flags.kInherit) as Hne
        by (intros ->; unfold Inherit in Hi; by rewrite contains_refl in Hi).
      apply eqb_false in Hne. rewrite Hne.
      rewrite !RequireFields_ok; try done. by rewrite Hmf. }
    apply copy_fields_from_subset; try done. unfold fields. by rewrite Hmf. }
  exists (copied_fields f b (sized_for b allow_resize a)).
  split; [exact Hrun|]. split.
  { apply (keeps_valid_SetFrom b f allow_resize Hb a (Ok tt) _ Ha Hrun). by left. }
  split; [exact Hms|]. split; [exact Hmf|].
  unfold copied_fields. simpl.
  destruct (pc_flags.contains f (pc_flags.base pc_flags.kXYZs)),
    (pc_flags.contains f (pc_flags.base pc_flags.kNormals)),
    (pc_flags.contains f (pc_flags.base pc_flags.kRGBs)),
    (pc_flags.has_descriptor f); done.
Qed.

(** X9. Copy assignment between valid clouds with the same field set
    returns whatever the two sizes are, and leaves the receiver valid, with
    the size of [other] and the data of [other] in every present field;
    assigning the same cloud once more changes nothing. *)
Theorem copy_assignment `{Platform} (a b : PointCloud) :
  valid a → valid b → fields a = fields b →
  ∃ a', assign_copy b a = (Ok tt, a') ∧ valid a' ∧ populated_from b a'
        ∧ assign_copy b a' = (Ok tt, a').
Proof.
  intros Ha Hb Hf.
  assert (∀ c, valid c → fields c = fields b →
            assign_copy b c = (Ok tt, copied b (resized_cloud (size b) false c))
            ∧ valid (copied b (resized_cloud (size b) false c))
            ∧ populated_from b (copied b (resized_cloud (size b) false c))) as Hrun.
  { intros c Hc Hcf. unfold assign_copy.
    pose proof (valid_sized_for b true c Hc Hb) as Hm.
    pose proof (fields_sized_for b true c) as Hmf.
    pose proof (size_sized_for b true c (or_introl eq_refl)) as Hms.
    unfold sized_for in Hm, Hmf, Hms.
    rewrite SetFrom_sized by (done || by left). unfold sized_for.
    assert (ResolvePairFields (resized_cloud (size b) false c) b Inherit
            = Ok (fields b)) as ->.
    { unfold ResolvePairFields, Inherit.
      rewrite (proj2 (eqb_true _ _) eq_refl).
      rewrite RequireExactFields_ok by (unfold fields in *; congruence).
      cbn [mbind result_bind]. unfold fields in *. congruence. }
    assert (fields (resized_cloud (size b) false c) = fields b) as Hmf'
      by (unfold fields; by rewrite Hmf).
    split; [by apply copy_fields_from_ok|].
    destruct (populated_from_copied b _ Hb Hm Hmf' Hms). done. }
  destruct (Hrun a Ha Hf) as (R1 & V1 & P1).
  exists (copied b (resized_cloud (size b) false a)).
  split; [exact R1|]. split; [exact V1|]. split; [exact P1|].
  destruct (Hrun _ V1 (proj1 (proj2 P1))) as (R2 & _ & _).
  rewrite R2. f_equal.
  set (a1 := copied b (resized_cloud (size b) false a)) in *.
  assert (resized_cloud (size b) false a1 = a1) as ->.
  { rewrite <- (proj1 P1). by apply resized_cloud_same. }
  apply copied_idempotent.
Qed.

(** ** SetDefault *)

Section Defaults.
Context `{Platform}.

Lemma lookup_filled {A} start num (v : A) (m : Mat A) (j : nat) :
  Eigen.block_ok start num m = true →
  columns (filled start num v m) !! j
  = if (Z.to_nat start <=? j)%nat && (j <? Z.to_nat (start + num))%nat
    then Some (replicate (rows m) v) else columns m !! j.
Proof.
  intros Hb. apply block_ok_iff in Hb as (Hs & Hn & Hc). unfold cols in Hc.
  unfold filled. cbn [columns].
  destruct (decide (j < Z.to_nat start)%nat) as [Hlt|Hge].
  - assert ((Z.to_nat start <=? j)%nat = false) as -> by (apply Nat.leb_gt; lia).
    simpl. rewrite lookup_app_l by (rewrite length_take; lia).
    by rewrite lookup_take_lt.
  - assert ((Z.to_nat start <=? j)%nat = true) as -> by (apply Nat.leb_le; lia).
    simpl. rewrite lookup_app_r by (rewrite length_take; lia).
    rewrite length_take, Nat.min_l by lia.
    destruct (decide (j < Z.to_nat (start + num))%nat) as [Hin|Hout].
    + assert ((j <? Z.to_nat (start + num))%nat = true) as -> by (apply Nat.ltb_lt; lia).
      rewrite lookup_app_l by (rewrite length_replicate; lia).
      apply lookup_replicate_2. lia.
    + assert ((j <? Z.to_nat (start + num))%nat = false) as ->
        by (apply Nat.ltb_ge; lia).
      rewrite lookup_app_r by (rewrite length_replicate; lia).
      rewrite length_replicate, lookup_drop. f_equal. lia.
Qed.

Lemma block_ok_shaped {A} r n start num (m : Mat A) :
  shaped r n m → Eigen.block_ok start num m = (0 <=? start) && (0 <=? num) && (start + num <=? n).
Proof. intros (_ & Hc & _). unfold Eigen.block_ok. by rewrite Hc. Qed.
End Defaults.

(** X10. [SetDefault(start, num)] on a valid cloud, for a range of
    columns within the cloud: it returns, keeps the cloud valid, and in
    every present field the columns of the range hold the default of the
    field while all other columns are as they were.  A range that leaves
    the cloud stops at the assertion of [middleCols] of the first present
    field, before anything is written. *)
Theorem SetDefault_resets_range `{Platform} (c : PointCloud) (start num : Z) :
  valid c →
  (0 <= start → 0 <= num → start + num <= size c →
   ∃ c', SetDefault start num c = (Ok tt, c') ∧ valid c'
     ∧ size c' = size c ∧ fields c' = fields c
     ∧ ∀ j : nat,
         let reset := (Z.to_nat start <=? j)%nat && (j <? Z.to_nat (start + num))%nat in
         (has_xyzs c = true →
          columns (Storage.xyzs_ (storage_ c')) !! j
          = if reset then Some (replicate 3 kDefaultValue)
            else columns (Storage.xyzs_ (storage_ c)) !! j)
         ∧ (has_normals c = true →
            columns (Storage.normals_ (storage_ c')) !! j
            = if reset then Some (replicate 3 kDefaultValue)
              else columns (Storage.normals_ (storage_ c)) !! j)
         ∧ (has_rgbs c = true →
            columns (Storage.rgbs_ (storage_ c')) !! j
            = if reset then Some (replicate 3 kDefaultColor)
              else columns (Storage.rgbs_ (storage_ c)) !! j)
         ∧ (has_descriptors c = true →
            columns (Storage.descriptors_ (storage_ c')) !! j
            = if reset
              then Some (replicate (pc_flags.size (pc_flags.descriptor_type (fields c)))
                                   kDefaultValue)
              else columns (Storage.descriptors_ (storage_ c)) !! j))
  ∧ (start < 0 ∨ num < 0 ∨ size c < start + num →
     has_xyzs c = true ∨ has_normals c = true ∨ has_rgbs c = true
     ∨ has_descriptors c = true →
     SetDefault start num c = (Fail (EigenAssert "middleCols: block out of range"), c)).
Proof.
  intros Hv.
  pose proof (λ Hp, block_ok_shaped _ _ start num _ (valid_xyzs c Hv Hp)) as Bx.
  pose proof (λ Hp, block_ok_shaped _ _ start num _ (valid_normals c Hv Hp)) as Bn.
  pose proof (λ Hp, block_ok_shaped _ _ start num _ (valid_rgbs c Hv Hp)) as Br.
  pose proof (λ Hp, block_ok_shaped _ _ start num _ (valid_descriptors c Hv Hp)) as Bd.
  unfold size. split.
  - intros Hs Hn Hr.
    assert ((0 <=? start) && (0 <=? num) && (start + num <=? size_ c) = true) as Hb
      by (rewrite !andb_true_iff; lia).
    rewrite Hb in Bx, Bn, Br, Bd.
    exists (defaulted start num c).
    split; [by apply SetDefault_ok|]. split; [by apply valid_defaulted|].
    split; [reflexivity|]. split; [reflexivity|].
    intros j. cbv zeta. unfold defaulted. simpl.
    split; [|split; [|split]]; intros Hp; rewrite Hp, lookup_filled by auto.
    + by rewrite (proj1 (valid_xyzs c Hv Hp)).
    + by rewrite (proj1 (valid_normals c Hv Hp)).
    + by rewrite (proj1 (valid_rgbs c Hv Hp)).
    + by rewrite (proj1 (valid_descriptors c Hv Hp)).
  - intros Hr Hp.
    assert ((0 <=? start) && (0 <=? num) && (start + num <=? size_ c) = false) as Hb.
    { rewrite !andb_false_iff. lia. }
    rewrite Hb in Bx, Bn, Br, Bd.
    unfold SetDefault, when, mbind, method_bind, mutable_xyzs, mutable_normals,
      mutable_rgbs, mutable_descriptors, Eigen.setConstant.
    destruct (has_xyzs c) eqn:Ex; [by rewrite Bx|].
    destruct (has_normals c) eqn:En; [by rewrite Bn|].
    destruct (has_rgbs c) eqn:Er; [by rewrite Br|].
    destruct (has_descriptors c) eqn:Ed; [by rewrite Bd|].
    destruct Hp as [?|[?|[?|?]]]; discriminate.
Qed.

(** ** Crop *)

Section CropMore.
Context `{Platform}.

Lemma array_le_false (a b : list T) k x y :
  a !! k = Some x → b !! k = Some y → SFleb x y = false → array_le a b = false.
Proof.
  intros Ha Hb Hxy. destruct (array_le a b) eqn:E; [|done].
  by rewrite (array_le_lookup a b k x y E Ha Hb) in Hxy.
Qed.

Lemma SFleb_nan_l y : SFleb S754_nan y = false.
Proof. by destruct y. Qed.

Lemma SFleb_nan_r x : SFleb x S754_nan = false.
Proof. by destruct x. Qed.



(** Every position of the cropped cloud lies in the box. *)
Lemma Crop_output_in_box this lower_xyz upper_xyz out j p :
  restricted_to (retained lower_xyz upper_xyz this) this out →
  has_xyzs this = true →
  columns (Storage.xyzs_ (storage_ out)) !! j = Some p →
  in_box lower_xyz upper_xyz p = true.
Proof.
  intros (_ & _ & Hx & _) Hp Hj. rewrite (Hx Hp) in Hj. unfold pick in Hj.
  apply list_lookup_fmap_Some in Hj as (i & -> & Hi).
  assert (i ∈ retained lower_xyz upper_xyz this) as Hin
    by (apply list_elem_of_lookup; eauto).
  unfold retained in Hin. apply list_elem_of_In, filter_In in Hin as [_ Hinside].
  unfold inside in Hinside.
  by destruct (columns (Storage.xyzs_ (storage_ this)) !! Z.to_nat i).
Qed.

Lemma pick_all {A} (m : Mat A) n :
  cols m = n → pick (seqZ 0 n) m = columns m.
Proof.
  intros Hc. unfold cols in Hc. unfold pick. apply list_eq. intros j.
  rewrite list_lookup_fmap.
  destruct (decide (j < length (columns m))%nat) as [Hlt|Hge].
  - rewrite lookup_seqZ_lt by lia. simpl. rewrite Z.add_0_l, Nat2Z.id.
    destruct (lookup_lt_is_Some_2 (columns m) j Hlt) as [col Hcol].
    by rewrite Hcol.
  - rewrite lookup_seqZ_ge by lia. simpl. symmetry. apply lookup_ge_None. lia.
Qed.

Lemma filter_all {A} (P : A → bool) (l : list A) :
  Forall (λ x, P x = true) l → List.filter P l = l.
Proof.
  induction 1 as [|x l Hx _ IH]; [done|]. simpl. by rewrite Hx, IH.
Qed.
End CropMore.

(** X11. How [Crop] fails.  A bound that is NaN, or a lower bound above
    the upper bound on some axis, fails the [DRAKE_DEMAND] on the box: an
    abort, also for a cloud without positions.  With a well-ordered box a
    cloud without positions makes [Crop] throw. *)
Theorem Crop_failures `{Platform} (this : PointCloud) (lower_xyz upper_xyz : list T) :
  (∀ k l u, lower_xyz !! k = Some l → upper_xyz !! k = Some u →
     l = S754_nan ∨ u = S754_nan ∨ SFgtb l u = true →
     Crop lower_xyz upper_xyz this
     = Fail (DemandFailed "(lower_xyz.array() <= upper_xyz.array()).all()"))
  ∧ (array_le lower_xyz upper_xyz = true → has_xyzs this = false →
     Crop lower_xyz upper_xyz this
     = Fail (RuntimeError "PointCloud must have xyzs in order to Crop")).
Proof.
  split.
  - intros k l u Hl Hu Hbad. unfold Crop.
    rewrite (array_le_false lower_xyz upper_xyz k l u Hl Hu); [done|].
    destruct Hbad as [->|[->|Hgt]].
    + apply SFleb_nan_l.
    + apply SFleb_nan_r.
    + by apply SFgtb_not_leb.
  - intros Hbox Hx. unfold Crop. by rewrite Hbox, Hx.
Qed.


(** X13. [Crop] is idempotent: cropping the cropped cloud with the same
    box returns a cloud with the same size, field set and data. *)
Theorem Crop_idempotent `{Platform} (this : PointCloud)
    (lower_xyz upper_xyz : list T) :
  valid this → has_xyzs this = true → array_le lower_xyz upper_xyz = true →
  ∃ out again,
    Crop lower_xyz upper_xyz this = Ok out
    ∧ Crop lower_xyz upper_xyz out = Ok again
    ∧ same_data out again.
Proof.
  intros Hv Hx Hbox.
  destruct (Crop_ok this lower_xyz upper_xyz Hv Hx Hbox) as (out & Hrun & Hvo & Hr).
  assert (fields_ out = fields_ this) as Hf by apply Hr.
  assert (has_xyzs out = true) as Hxo by (unfold has_xyzs; by rewrite Hf).
  destruct (Crop_ok out lower_xyz upper_xyz Hvo Hxo Hbox) as (again & Hrun2 & _ & Hr2).
  exists out, again. split; [exact Hrun|]. split; [exact Hrun2|].
  assert (retained lower_xyz upper_xyz out = seqZ 0 (size out)) as Hall.
  { unfold retained. apply filter_all, Forall_forall. intros i Hi.
    apply elem_of_seqZ in Hi. unfold inside.
    destruct (valid_xyzs out Hvo Hxo) as (_ & Hc & _). unfold cols, size in *.
    destruct (lookup_lt_is_Some_2 (columns (Storage.xyzs_ (storage_ out)))
                (Z.to_nat i)) as [p Hp]; [lia|].
    rewrite Hp.
    apply (Crop_output_in_box this lower_xyz upper_xyz out (Z.to_nat i) p Hr Hx Hp). }
  rewrite Hall in Hr2. destruct Hr2 as (S2 & F2 & X2 & N2 & R2 & D2).
  unfold same_data. split.
  { rewrite S2, length_seqZ. pose proof (valid_size out Hvo). unfold size. lia. }
  split; [exact F2|].
  split; [|split; [|split]]; intros Hp.
  - rewrite (X2 Hp). apply pick_all. apply (valid_xyzs out Hvo Hp).
  - rewrite (N2 Hp). apply pick_all. apply (valid_normals out Hvo Hp).
  - rewrite (R2 Hp). apply pick_all. apply (valid_rgbs out Hvo Hp).
  - rewrite (D2 Hp). apply pick_all. apply (valid_descriptors out Hvo Hp).
Qed.

(** ** Concatenate *)

Section ConcatenateLoop.
Context `{Platform}.

Lemma assign_middleCols_ok {A} r n index s (src m : Mat A) :
  shaped r s src → shaped r n m → 0 <= index → 0 <= s → index + s <= n →
  Eigen.assign_middleCols index s src m = Ok (placed index src m).
Proof.
  intros (Sr & Sc & _) (Mr & Mc & _) Hi Hs Hn. unfold Eigen.assign_middleCols.
  assert (Eigen.block_ok index s m = true) as -> by (apply block_ok_iff; lia).
  rewrite (bool_decide_eq_true_2 (rows src = rows m)) by congruence.
  subst s. by rewrite Z.eqb_refl.
Qed.

Lemma joined_snoc {A} (buffer : Storage.t → Mat A) done cloud :
  joined buffer (done ++ [cloud])
  = joined buffer done ++ columns (buffer (storage_ cloud)).
Proof. unfold joined. rewrite fmap_app, concat_app. simpl. by rewrite app_nil_r. Qed.

(** One buffer after one cloud has been placed behind the clouds before it. *)
Lemma laid_out_placed {A} r n (buffer : Storage.t → Mat A) done cloud dst index s :
  shaped r n dst →
  take (length (joined buffer done)) (columns dst) = joined buffer done →
  Z.of_nat (length (joined buffer done)) = index →
  shaped r s (buffer (storage_ cloud)) → 0 <= s → index + s <= n →
  shaped r n (placed index (buffer (storage_ cloud)) dst)
  ∧ take (length (joined buffer (done ++ [cloud])))
         (columns (placed index (buffer (storage_ cloud)) dst))
    = joined buffer (done ++ [cloud]).
Proof.
  intros (Dr & Dc & Df) Hpre Hidx (Sr & Sc & Sf) Hs Hn.
  unfold cols in *. unfold placed. cbn [rows columns]. split.
  - split; [done|]. split.
    + unfold cols. cbn [columns].
      rewrite !length_app, length_take, length_drop. lia.
    + cbn [columns]. apply Forall_app. split; [by apply Forall_take|].
      apply Forall_app. split; [done|by apply Forall_drop].
  - rewrite joined_snoc, <- Hidx, Nat2Z.id, Hpre.
    rewrite app_assoc. by rewrite take_app_length.
Qed.

Lemma length_joined {A} r (buffer : Storage.t → Mat A) (present : PointCloud → bool)
    done :
  (∀ c, valid c → present c = true → shaped r (size_ c) (buffer (storage_ c))) →
  Forall (λ c, valid c ∧ present c = true) done →
  Z.of_nat (length (joined buffer done)) = total_size done.
Proof.
  intros Hshape. induction 1 as [|c done [Hv Hp] _ IH]; [done|].
  change (joined buffer (c :: done))
    with (columns (buffer (storage_ c)) ++ joined buffer done).
  change (total_size (c :: done)) with (size c + total_size done).
  rewrite length_app, Nat2Z.inj_add, IH.
  destruct (Hshape c Hv Hp) as (_ & Hc & _). unfold cols, size in *. lia.
Qed.

Lemma total_size_nonneg done : Forall valid done → 0 <= total_size done.
Proof.
  induction 1 as [|c done Hv _ IH]; [done|].
  change (total_size (c :: done)) with (size c + total_size done).
  pose proof (valid_size c Hv). unfold size. lia.
Qed.

Lemma total_size_app l1 l2 : total_size (l1 ++ l2) = total_size l1 + total_size l2.
Proof.
  induction l1 as [|c l1 IH]; [done|].
  change (total_size ((c :: l1) ++ l2)) with (size c + total_size (l1 ++ l2)).
  change (total_size (c :: l1)) with (size c + total_size l1). lia.
Qed.

Lemma bind_ok {A B} (m : method A) (k : A → method B) c a c' :
  m c = (Ok a, c') → (m ≫= k) c = k a c'.
Proof. unfold mbind, method_bind. by intros ->. Qed.

Lemma place_xyzs_ok cloud index c n :
  has_xyzs cloud = true → has_xyzs c = true →
  shaped 3 (size_ cloud) (Storage.xyzs_ (storage_ cloud)) →
  shaped 3 n (Storage.xyzs_ (storage_ c)) →
  0 <= index → 0 <= size_ cloud → index + size_ cloud <= n →
  (src ← lift (xyzs cloud);
   mutable_xyzs (Eigen.assign_middleCols index (size cloud) src)) c
  = (Ok tt, set_xyzs (placed index (Storage.xyzs_ (storage_ cloud))
                             (Storage.xyzs_ (storage_ c))) c).
Proof.
  intros. unfold mbind, method_bind, lift. rewrite xyzs_ok by done.
  apply mutable_xyzs_ok; [done|]. by apply (assign_middleCols_ok 3 n).
Qed.

Lemma place_normals_ok cloud index c n :
  has_normals cloud = true → has_normals c = true →
  shaped 3 (size_ cloud) (Storage.normals_ (storage_ cloud)) →
  shaped 3 n (Storage.normals_ (storage_ c)) →
  0 <= index → 0 <= size_ cloud → index + size_ cloud <= n →
  (src ← lift (normals cloud);
   mutable_normals (Eigen.assign_middleCols index (size cloud) src)) c
  = (Ok tt, set_normals (placed index (Storage.normals_ (storage_ cloud))
                                (Storage.normals_ (storage_ c))) c).
Proof.
  intros. unfold mbind, method_bind, lift. rewrite normals_ok by done.
  apply mutable_normals_ok; [done|]. by apply (assign_middleCols_ok 3 n).
Qed.

Lemma place_rgbs_ok cloud index c n :
  has_rgbs cloud = true → has_rgbs c = true →
  shaped 3 (size_ cloud) (Storage.rgbs_ (storage_ cloud)) →
  shaped 3 n (Storage.rgbs_ (storage_ c)) →
  0 <= index → 0 <= size_ cloud → index + size_ cloud <= n →
  (src ← lift (rgbs cloud);
   mutable_rgbs (Eigen.assign_middleCols index (size cloud) src)) c
  = (Ok tt, set_rgbs (placed index (Storage.rgbs_ (storage_ cloud))
                             (Storage.rgbs_ (storage_ c))) c).
Proof.
  intros. unfold mbind, method_bind, lift. rewrite rgbs_ok by done.
  apply mutable_rgbs_ok; [done|]. by apply (assign_middleCols_ok 3 n).
Qed.

Lemma place_descriptors_ok r cloud index c n :
  has_descriptors cloud = true → has_descriptors c = true →
  shaped r (size_ cloud) (Storage.descriptors_ (storage_ cloud)) →
  shaped r n (Storage.descriptors_ (storage_ c)) →
  0 <= index → 0 <= size_ cloud → index + size_ cloud <= n →
  (src ← lift (descriptors cloud);
   mutable_descriptors (Eigen.assign_middleCols index (size cloud) src)) c
  = (Ok tt, set_descriptors (placed index (Storage.descriptors_ (storage_ cloud))
                                    (Storage.descriptors_ (storage_ c))) c).
Proof.
  intros. unfold mbind, method_bind, lift. rewrite descriptors_ok by done.
  apply mutable_descriptors_ok; [done|]. by apply (assign_middleCols_ok r n).
Qed.

(** One iteration of the copying loop. *)
Lemma Concatenate_body_ok cloud index new_cloud :
  valid cloud → valid new_cloud → fields_ cloud = fields_ new_cloud →
  (has_normals new_cloud = true → has_xyzs new_cloud = true) →
  0 <= index → index + size cloud <= size new_cloud →
  Concatenate_body cloud (new_cloud, index)
  = Ok (appended cloud index new_cloud, index + size cloud).
Proof.
  intros Hc Hn Hf Hnx Hi Hle. pose proof (valid_size cloud Hc) as Hs.
  assert (has_xyzs cloud = has_xyzs new_cloud) as Ex by (unfold has_xyzs; by rewrite Hf).
  assert (has_normals cloud = has_normals new_cloud) as En
    by (unfold has_normals; by rewrite Hf).
  assert (has_rgbs cloud = has_rgbs new_cloud) as Er by (unfold has_rgbs; by rewrite Hf).
  assert (has_descriptors cloud = has_descriptors new_cloud) as Ed
    by (unfold has_descriptors; by rewrite Hf).
  pose proof (valid_xyzs cloud Hc) as Cx. pose proof (valid_xyzs new_cloud Hn) as Nx.
  pose proof (valid_normals cloud Hc) as Cm.
  pose proof (valid_normals new_cloud Hn) as Nm.
  pose proof (valid_rgbs cloud Hc) as Cr. pose proof (valid_rgbs new_cloud Hn) as Nr.
  pose proof (valid_descriptors cloud Hc) as Cd.
  pose proof (valid_descriptors new_cloud Hn) as Nd.
  rewrite Hf in Cd. rewrite Ex in Cx. rewrite En in Cm. rewrite Er in Cr.
  rewrite Ed in Cd. unfold size in *.
  unfold Concatenate_body, appended, exec.
  set (c1 := if has_normals new_cloud
             then set_xyzs (placed index (Storage.xyzs_ (storage_ cloud))
                                   (Storage.xyzs_ (storage_ new_cloud))) new_cloud
             else new_cloud).
  set (c2 := if has_normals new_cloud
             then set_normals (placed index (Storage.normals_ (storage_ cloud))
                                      (Storage.normals_ (storage_ new_cloud))) c1
             else c1).
  set (c3 := if has_rgbs new_cloud
             then set_rgbs (placed index (Storage.rgbs_ (storage_ cloud))
                                   (Storage.rgbs_ (storage_ new_cloud))) c2
             else c2).
  set (c4 := if has_descriptors new_cloud
             then set_descriptors
                    (placed index (Storage.descriptors_ (storage_ cloud))
                            (Storage.descriptors_ (storage_ new_cloud))) c3
             else c3).
  assert (fields_ c1 = fields_ new_cloud) as G1
    by (unfold c1; destruct (has_normals new_cloud); reflexivity).
  assert (fields_ c2 = fields_ new_cloud) as G2
    by (unfold c2, c1; destruct (has_normals new_cloud); reflexivity).
  assert (fields_ c3 = fields_ new_cloud) as G3
    by (unfold c3, c2, c1;
        destruct (has_normals new_cloud), (has_rgbs new_cloud); reflexivity).
  assert (has_normals c1 = has_normals new_cloud) as F1
    by (unfold has_normals; by rewrite G1).
  assert (has_rgbs c2 = has_rgbs new_cloud) as F2
    by (unfold has_rgbs; by rewrite G2).
  assert (has_descriptors c3 = has_descriptors new_cloud) as F3
    by (unfold has_descriptors; by rewrite G3).
  assert (Storage.normals_ (storage_ c1) = Storage.normals_ (storage_ new_cloud)) as S1
    by (unfold c1; destruct (has_normals new_cloud); reflexivity).
  assert (Storage.rgbs_ (storage_ c2) = Storage.rgbs_ (storage_ new_cloud)) as S2
    by (unfold c2, c1; destruct (has_normals new_cloud); reflexivity).
  assert (Storage.descriptors_ (storage_ c3)
          = Storage.descriptors_ (storage_ new_cloud)) as S3
    by (unfold c3, c2, c1;
        destruct (has_normals new_cloud), (has_rgbs new_cloud); reflexivity).
  rewrite (bind_ok _ _ new_cloud tt c1).
  2:{ unfold when. subst c1. destruct (has_normals new_cloud) eqn:Pn; [|done].
      exact (place_xyzs_ok cloud index new_cloud (size_ new_cloud)
               (eq_trans Ex (Hnx eq_refl)) (Hnx eq_refl) (Cx (Hnx eq_refl))
               (Nx (Hnx eq_refl)) Hi (proj1 Hs) Hle). }
  rewrite (bind_ok _ _ c1 tt c2).
  2:{ unfold when. rewrite F1. subst c2. destruct (has_normals new_cloud) eqn:Pn; [|done].
      rewrite <- S1.
      apply (place_normals_ok cloud index c1 (size_ new_cloud)); try done; try lia.
      - by apply Cm.
      - rewrite S1. by apply Nm. }
  rewrite (bind_ok _ _ c2 tt c3).
  2:{ unfold when. rewrite F2. subst c3. destruct (has_rgbs new_cloud) eqn:Pr; [|done].
      rewrite <- S2.
      apply (place_rgbs_ok cloud index c2 (size_ new_cloud)); try done; try lia.
      - by apply Cr.
      - rewrite S2. by apply Nr. }
  assert (when has_descriptors
            (src ← lift (descriptors cloud);
             mutable_descriptors (Eigen.assign_middleCols index (size cloud) src)) c3
          = (Ok tt, c4)) as ->.
  { unfold when. rewrite F3. subst c4.
    destruct (has_descriptors new_cloud) eqn:Pd; [|done].
    rewrite <- S3.
    apply (place_descriptors_ok
             (pc_flags.size (pc_flags.descriptor_type (fields_ new_cloud)))
             cloud index c3 (size_ new_cloud)); try done; try lia.
    - by apply Cd.
    - rewrite S3. by apply Nd. }
  cbn [mbind result_bind]. do 2 f_equal.
  unfold c4, c3, c2, c1. clear.
  destruct new_cloud as [sz f [sf ss x nm cl d]].
  unfold has_normals, has_rgbs, has_descriptors. cbn [fields_].
  destruct (pc_flags.contains f (pc_flags.base pc_flags.kNormals)),
    (pc_flags.contains f (pc_flags.base pc_flags.kRGBs)), (pc_flags.has_descriptor f);
    reflexivity.
Qed.

Lemma Forall_present f (present : PointCloud → bool) (done : list PointCloud) :
  (∀ c, fields_ c = f → present c = true) →
  Forall (λ c, valid c ∧ fields_ c = f) done →
  Forall (λ c, valid c ∧ present c = true) done.
Proof. intros Hp Hd. eapply Forall_impl; [exact Hd|]. intros c [? ?]. auto. Qed.

(** The invariant after one more cloud. *)
Lemma appended_invariant f n done cloud new_cloud :
  valid new_cloud → concatenate_invariant f n done new_cloud →
  valid cloud → fields_ cloud = f → Forall (λ c, valid c ∧ fields_ c = f) done →
  (has_normals new_cloud = true → has_xyzs new_cloud = true) →
  total_size done + size cloud <= n →
  valid (appended cloud (total_size done) new_cloud)
  ∧ concatenate_invariant f n (done ++ [cloud])
      (appended cloud (total_size done) new_cloud).
Proof.
  intros Hn (If & Is & Isf & Iss & Lx & Lm & Lr & Ld & Ux) Hc Hf Hdone Hnx Hle.
  pose proof (valid_size cloud Hc) as Hs. unfold size in *.
  assert (∀ {A} (r : nat) (buffer : Storage.t → Mat A) (present : PointCloud → bool),
            (∀ c, fields_ c = f → present c = present new_cloud) →
            (∀ c, valid c → present c = true → shaped r (size_ c) (buffer (storage_ c))) →
            present new_cloud = true →
            laid_out r n buffer done new_cloud →
            shaped r n (placed (total_size done) (buffer (storage_ cloud))
                               (buffer (storage_ new_cloud)))
            ∧ take (length (joined buffer (done ++ [cloud])))
                (columns (placed (total_size done) (buffer (storage_ cloud))
                                 (buffer (storage_ new_cloud))))
              = joined buffer (done ++ [cloud])) as Hstep.
  { intros A r buffer present Hsame Hshape Hp [Hsh Hpre].
    apply (laid_out_placed r n buffer done cloud _ _ (size_ cloud)); try done; try lia.
    - apply (length_joined r buffer present); [done|].
      apply (Forall_present f); [|done]. intros c Hcf. by rewrite (Hsame c Hcf).
    - apply Hshape; [done|]. by rewrite (Hsame cloud Hf). }
  assert (∀ c, fields_ c = f → has_xyzs c = has_xyzs new_cloud) as Sx
    by (intros c E; unfold has_xyzs; by rewrite E, If).
  assert (∀ c, fields_ c = f → has_normals c = has_normals new_cloud) as Sm
    by (intros c E; unfold has_normals; by rewrite E, If).
  assert (∀ c, fields_ c = f → has_rgbs c = has_rgbs new_cloud) as Sr
    by (intros c E; unfold has_rgbs; by rewrite E, If).
  assert (∀ c, fields_ c = f → has_descriptors c = has_descriptors new_cloud) as Sd
    by (intros c E; unfold has_descriptors; by rewrite E, If).
  assert (∀ c, fields_ c = f →
            has_normals c && has_xyzs c = has_normals new_cloud && has_xyzs new_cloud)
    as Smx by (intros c E; by rewrite (Sm c E), (Sx c E)).
  assert (has_normals new_cloud = true →
          has_normals new_cloud && has_xyzs new_cloud = true) as Hnx'
    by (intros Hp; by rewrite Hp, Hnx).
  pose proof (λ Hp, Hstep _ 3%nat Storage.xyzs_ (λ c, has_normals c && has_xyzs c) Smx
                (λ c Hv Hp', valid_xyzs c Hv (proj2 (proj1 (andb_true_iff _ _) Hp')))
                (Hnx' Hp) (Lx Hp)) as Px.
  pose proof (λ Hp, Hstep _ 3%nat Storage.normals_ has_normals Sm valid_normals Hp (Lm Hp))
    as Pm.
  pose proof (λ Hp, Hstep _ 3%nat Storage.rgbs_ has_rgbs Sr valid_rgbs Hp (Lr Hp)) as Pr.
  assert (has_descriptors new_cloud = true →
          shaped (pc_flags.size (pc_flags.descriptor_type f)) n
            (placed (total_size done) (Storage.descriptors_ (storage_ cloud))
                    (Storage.descriptors_ (storage_ new_cloud)))
          ∧ take (length (joined Storage.descriptors_ (done ++ [cloud])))
              (columns (placed (total_size done) (Storage.descriptors_ (storage_ cloud))
                               (Storage.descriptors_ (storage_ new_cloud))))
            = joined Storage.descriptors_ (done ++ [cloud])) as Pd.
  { intros Hp.
    apply (Hstep _ _ Storage.descriptors_
             (λ c, has_descriptors c && bool_decide (fields_ c = f))); try done.
    - intros c E. rewrite (Sd c E), Hp. simpl.
      by rewrite !bool_decide_eq_true_2.
    - intros c Hv Hp'. apply andb_true_iff in Hp' as [Hp' E].
      apply bool_decide_eq_true in E. rewrite <- E. by apply valid_descriptors.
    - rewrite Hp. simpl. by apply bool_decide_eq_true.
    - by apply Ld. }
  split.
  - destruct Hn as [Vs Vnone Vinh Vsf Vss Vx Vm Vr Vd].
    split; try done; unfold appended; cbn [storage_ with_storage Storage.xyzs_
      Storage.normals_ Storage.rgbs_ Storage.descriptors_ size_ fields_].
    + change (has_xyzs new_cloud = true →
              shaped 3 (size_ new_cloud)
                (if has_normals new_cloud
                 then placed (total_size done) (Storage.xyzs_ (storage_ cloud))
                             (Storage.xyzs_ (storage_ new_cloud))
                 else Storage.xyzs_ (storage_ new_cloud))).
      intros Hp. destruct (has_normals new_cloud) eqn:Pn; [|by apply Vx].
      rewrite Is. by apply Px.
    + change (has_normals new_cloud = true →
              shaped 3 (size_ new_cloud)
                (if has_normals new_cloud
                 then placed (total_size done) (Storage.normals_ (storage_ cloud))
                             (Storage.normals_ (storage_ new_cloud))
                 else Storage.normals_ (storage_ new_cloud))).
      intros Hp. rewrite Hp, Is. by apply Pm.
    + change (has_rgbs new_cloud = true →
              shaped 3 (size_ new_cloud)
                (if has_rgbs new_cloud
                 then placed (total_size done) (Storage.rgbs_ (storage_ cloud))
                             (Storage.rgbs_ (storage_ new_cloud))
                 else Storage.rgbs_ (storage_ new_cloud))).
      intros Hp. rewrite Hp, Is. by apply Pr.
    + change (has_descriptors new_cloud = true →
              shaped (pc_flags.size (pc_flags.descriptor_type (fields_ new_cloud)))
                (size_ new_cloud)
                (if has_descriptors new_cloud
                 then placed (total_size done) (Storage.descriptors_ (storage_ cloud))
                             (Storage.descriptors_ (storage_ new_cloud))
                 else Storage.descriptors_ (storage_ new_cloud))).
      intros Hp. rewrite Hp, Is, If. by apply Pd.
  - unfold concatenate_invariant, laid_out, appended.
    cbn [storage_ with_storage Storage.xyzs_ Storage.normals_ Storage.rgbs_
         Storage.descriptors_ Storage.fields_ Storage.size_ size_ fields_].
    change (has_normals (mkPointCloud (size_ new_cloud) (fields_ new_cloud) ?s))
      with (has_normals new_cloud).
    change (has_rgbs (mkPointCloud (size_ new_cloud) (fields_ new_cloud) ?s))
      with (has_rgbs new_cloud).
    change (has_descriptors (mkPointCloud (size_ new_cloud) (fields_ new_cloud) ?s))
      with (has_descriptors new_cloud).
    repeat (split; [done|]).
    split; [|split; [|split; [|split]]]; intros Hp.
    + change (has_normals new_cloud = true) in Hp. rewrite Hp. by apply Px.
    + change (has_normals new_cloud = true) in Hp. rewrite Hp. by apply Pm.
    + change (has_rgbs new_cloud = true) in Hp. rewrite Hp. by apply Pr.
    + change (has_descriptors new_cloud = true) in Hp. rewrite Hp. by apply Pd.
    + change (has_normals new_cloud = false) in Hp. rewrite Hp. by apply Ux.
Qed.

Lemma Forall_valid f (l : list PointCloud) :
  Forall (λ c, valid c ∧ fields_ c = f) l → Forall valid l.
Proof. intros Hl. eapply Forall_impl; [exact Hl|]. by intros c [? _]. Qed.

(** The copying loop. *)
Lemma Concatenate_loop f n rest :
  ∀ done new_cloud,
    valid new_cloud → concatenate_invariant f n done new_cloud →
    Forall (λ c, valid c ∧ fields_ c = f) done →
    Forall (λ c, valid c ∧ fields_ c = f) rest →
    (has_normals new_cloud = true → has_xyzs new_cloud = true) →
    total_size done + total_size rest <= n →
    ∃ out,
      for_each Concatenate_body rest (new_cloud, total_size done)
      = Ok (out, total_size (done ++ rest))
      ∧ valid out ∧ concatenate_invariant f n (done ++ rest) out.
Proof.
  induction rest as [|cloud rest IH]; intros done new_cloud Hv Hinv Hdone Hrest Hnx Hle.
  - exists new_cloud. rewrite app_nil_r. done.
  - apply Forall_cons in Hrest as [[Hc Hcf] Hrest].
    change (total_size (cloud :: rest)) with (size cloud + total_size rest) in Hle.
    pose proof (total_size_nonneg done (Forall_valid f done Hdone)) as Hd0.
    pose proof (total_size_nonneg rest (Forall_valid f rest Hrest)) as Hr0.
    assert (fields_ new_cloud = f ∧ size_ new_cloud = n) as [If Is]
      by (split; apply Hinv).
    cbn [for_each].
    rewrite Concatenate_body_ok; try done; try congruence; [|unfold size in *; lia].
    cbn [mbind result_bind].
    destruct (appended_invariant f n done cloud new_cloud) as [Hv' Hinv'];
      try done; [lia|].
    destruct (IH (done ++ [cloud]) (appended cloud (total_size done) new_cloud))
      as (out & Hrun & Hvo & Hio); try done.
    + apply Forall_app. split; [done|]. by apply Forall_singleton.
    + rewrite total_size_app. change (total_size [cloud]) with (size cloud + 0). lia.
    + exists out. rewrite <- app_assoc in Hrun, Hio. cbn [app] in Hrun, Hio.
      split; [|done]. rewrite <- Hrun. do 3 f_equal.
      rewrite total_size_app. change (total_size [cloud]) with (size cloud + 0). lia.
Qed.

(** The loop that adds up the sizes. *)
Lemma count_loop first rest :
  ∀ count, 0 <= count →
    Forall (λ c, valid c ∧ fields_ c = fields_ first) rest →
    count + total_size rest <= INT_MAX →
    for_each
      (λ cloud count,
         DRAKE_THROW_UNLESS (pc_flags.eqb (fields cloud) (fields first))
                            "clouds[i].fields() == clouds[0].fields()";;
         int_add count (size cloud))
      rest count
    = Ok (count + total_size rest).
Proof.
  induction rest as [|c rest IH]; intros count Hc Hrest Hle.
  - unfold total_size. simpl. f_equal. lia.
  - apply Forall_cons in Hrest as [[Hv Hf] Hrest].
    change (total_size (c :: rest)) with (size c + total_size rest) in *.
    pose proof (total_size_nonneg rest (Forall_valid _ rest Hrest)) as Hr0.
    pose proof (valid_size c Hv) as Hs. unfold size in *.
    cbn [for_each]. unfold fields.
    rewrite (proj2 (eqb_true _ _) Hf). cbn [DRAKE_THROW_UNLESS mbind result_bind].
    unfold int_add, in_int.
    assert ((INT_MIN <=? count + size_ c) && (count + size_ c <=? INT_MAX) = true) as ->
      by (unfold INT_MIN; apply andb_true_iff; lia).
    cbn [mbind result_bind]. rewrite IH by (done || lia). f_equal. lia.
Qed.

Lemma concatenate_invariant_allocated f n :
  0 <= n <= INT_MAX → f ≠ pc_flags.base pc_flags.kNone →
  pc_flags.contains f (pc_flags.base pc_flags.kInherit) = false →
  (has_normals (allocated n f) = true → has_xyzs (allocated n f) = true) →
  concatenate_invariant f n [] (allocated n f).
Proof.
  intros Hn Hnone Hinh Hnx.
  destruct (valid_allocated n f Hn Hnone Hinh) as [Vs _ _ Vsf Vss Vx Vm Vr Vd].
  unfold concatenate_invariant, laid_out.
  repeat (split; [done|]).
  split; [|split; [|split; [|split]]]; intros Hp; try (split; [auto|done]); done.
Qed.

Lemma laid_out_all {A} r n (buffer : Storage.t → Mat A) clouds out :
  laid_out r n buffer clouds out → Z.of_nat (length (joined buffer clouds)) = n →
  columns (buffer (storage_ out)) = joined buffer clouds.
Proof.
  intros [(_ & Hc & _) Hpre] Hlen. unfold cols in Hc.
  rewrite <- Hpre. symmetry. apply take_ge. lia.
Qed.

(** X14. What [Concatenate] lays out.  For a non-empty sequence of valid
    clouds with one field set, whose sizes add up to an [int], and whose
    field set has positions whenever it has normals, [Concatenate] returns a
    valid cloud with that field set and the sum of the sizes.  Its normals,
    colours and descriptors, when present, are the columns of the inputs
    one cloud after the other.  Its positions are copied under the guard
    [has_normals()]: they are the positions of the inputs one cloud after
    the other when normals are present, and are left as they were
    allocated when normals are absent. *)
Theorem Concatenate_lays_out first rest :
  Forall (λ c, valid c ∧ fields_ c = fields_ first) (first :: rest) →
  total_size (first :: rest) <= INT_MAX →
  (has_normals first = true → has_xyzs first = true) →
  ∃ out, Concatenate (first :: rest) = Ok out ∧ valid out
         ∧ concatenated (first :: rest) (fields first) out.
Proof.
  intros Hall Hmax Hnx.
  pose proof Hall as Hall'. apply Forall_cons in Hall' as [[Hv _] Hrest].
  pose proof (total_size_nonneg _ (Forall_valid _ _ Hall)) as H0.
  pose proof (total_size_nonneg _ (Forall_valid _ _ Hrest)) as Hr0.
  pose proof (valid_size first Hv) as Hs.
  pose proof (valid_not_none first Hv) as Hnone.
  pose proof (valid_not_inherit first Hv) as Hinh.
  set (n := total_size (first :: rest)) in *.
  assert (n = size first + total_size rest) as Hn by reflexivity.
  unfold Concatenate.
  rewrite count_loop; [|apply Hs|done|unfold size in *; lia].
  cbn [mbind result_bind]. rewrite <- Hn.
  rewrite PointCloud_new_ok by (done || lia). cbn [mbind result_bind].
  destruct (Concatenate_loop (fields_ first) n (first :: rest) [] (allocated n (fields first)))
    as (out & Hrun & Hvo & Hinv); try done.
  - apply valid_allocated; (done || lia).
  - apply concatenate_invariant_allocated; (done || lia).
  - change (total_size []) with 0 in Hrun. cbn [app] in Hrun, Hinv.
    rewrite Hrun. cbn [mbind result_bind fst].
    exists out. split; [done|]. split; [done|].
    destruct Hinv as (If & Is & Isf & Iss & Lx & Lm & Lr & Ld & Ux).
    assert (∀ c, fields_ c = fields_ first → has_xyzs c = has_xyzs out) as Sx
      by (intros c E; unfold has_xyzs; by rewrite E, If).
    assert (∀ c, fields_ c = fields_ first → has_normals c = has_normals out) as Sm
      by (intros c E; unfold has_normals; by rewrite E, If).
    assert (∀ c, fields_ c = fields_ first → has_rgbs c = has_rgbs out) as Sr
      by (intros c E; unfold has_rgbs; by rewrite E, If).
    assert (∀ c, fields_ c = fields_ first → has_descriptors c = has_descriptors out)
      as Sd by (intros c E; unfold has_descriptors; by rewrite E, If).
    unfold concatenated, size, fields. fold n.
    split; [done|]. split; [done|].
    split; [|split; [|split; [|split]]]; intros Hp.
    + apply (laid_out_all 3 n); [by apply Lx|].
      apply (length_joined 3 _ has_xyzs); [apply valid_xyzs|].
      apply (Forall_present (fields_ first)); [|done]. intros c E.
      rewrite (Sx c E), <- (Sx first eq_refl). apply Hnx.
      by rewrite (Sm first eq_refl).
    + apply (laid_out_all 3 n); [by apply Lm|].
      apply (length_joined 3 _ has_normals); [apply valid_normals|].
      apply (Forall_present (fields_ first)); [|done]. intros c E. by rewrite (Sm c E).
    + apply (laid_out_all 3 n); [by apply Lr|].
      apply (length_joined 3 _ has_rgbs); [apply valid_rgbs|].
      apply (Forall_present (fields_ first)); [|done]. intros c E. by rewrite (Sr c E).
    + apply (laid_out_all (pc_flags.size (pc_flags.descriptor_type (fields_ first))) n);
        [by apply Ld|].
      apply (length_joined (pc_flags.size (pc_flags.descriptor_type (fields_ first))) _
               (λ c, has_descriptors c && bool_decide (fields_ c = fields_ first))).
      * intros c Hc Hpc. apply andb_true_iff in Hpc as [Hpc E].
        apply bool_decide_eq_true in E. rewrite <- E. by apply valid_descriptors.
      * apply (Forall_present (fields_ first)); [|done]. intros c E.
        rewrite (Sd c E), Hp. simpl. by apply bool_decide_eq_true.
    + by apply Ux.
Qed.

Lemma bind_fail {A B} (m : method A) (k : A → method B) c e c' :
  m c = (Fail e, c') → (m ≫= k) c = (Fail e, c').
Proof. unfold mbind, method_bind. by intros ->. Qed.

(** The positions are read whenever the new cloud has normals. *)
Lemma Concatenate_body_no_positions cloud index new_cloud :
  has_normals new_cloud = true → has_xyzs cloud = false →
  Concatenate_body cloud (new_cloud, index) = Fail (DemandFailed "has_xyzs()").
Proof.
  intros Hn Hx. unfold Concatenate_body, exec.
  rewrite (bind_fail _ _ new_cloud (DemandFailed "has_xyzs()") new_cloud); [done|].
  unfold when. rewrite Hn. apply bind_fail. unfold lift, xyzs. by rewrite Hx.
Qed.

(** The counting loop stops at the first cloud with another field set. *)
Lemma count_loop_mismatch first rest :
  ∀ count, 0 <= count →
    Forall valid rest → count + total_size rest <= INT_MAX →
    Exists (λ c, fields c ≠ fields first) rest →
    for_each
      (λ cloud count,
         DRAKE_THROW_UNLESS (pc_flags.eqb (fields cloud) (fields first))
                            "clouds[i].fields() == clouds[0].fields()";;
         int_add count (size cloud))
      rest count
    = Fail (ThrowUnless "clouds[i].fields() == clouds[0].fields()").
Proof.
  induction rest as [|c rest IH]; intros count Hc Hrest Hle Hex.
  - by apply Exists_nil in Hex.
  - apply Forall_cons in Hrest as [Hv Hrest].
    change (total_size (c :: rest)) with (size c + total_size rest) in *.
    pose proof (total_size_nonneg rest Hrest) as Hr0.
    pose proof (valid_size c Hv) as Hs. unfold size in *.
    cbn [for_each].
    destruct (pc_flags.eqb (fields c) (fields first)) eqn:E; [|done].
    cbn [DRAKE_THROW_UNLESS mbind result_bind]. unfold int_add, in_int.
    assert ((INT_MIN <=? count + size_ c) && (count + size_ c <=? INT_MAX) = true) as ->
      by (unfold INT_MIN; apply andb_true_iff; lia).
    cbn [mbind result_bind]. apply IH; [lia|done|lia|].
    apply Exists_cons in Hex as [Hex|Hex]; [|done].
    apply eqb_true in E. done.
Qed.

(** The counting loop overflows when the sizes add up to more than an
    [int] holds. *)
Lemma count_loop_overflow first rest :
  ∀ count, 0 <= count <= INT_MAX →
    Forall (λ c, valid c ∧ fields_ c = fields_ first) rest →
    INT_MAX < count + total_size rest →
    for_each
      (λ cloud count,
         DRAKE_THROW_UNLESS (pc_flags.eqb (fields cloud) (fields first))
                            "clouds[i].fields() == clouds[0].fields()";;
         int_add count (size cloud))
      rest count
    = Fail (UndefinedBehaviour "signed integer overflow").
Proof.
  induction rest as [|c rest IH]; intros count Hc Hrest Hover.
  - unfold total_size in Hover. simpl in Hover. lia.
  - apply Forall_cons in Hrest as [[Hv Hf] Hrest].
    change (total_size (c :: rest)) with (size c + total_size rest) in *.
    pose proof (valid_size c Hv) as Hs. unfold size in *.
    cbn [for_each]. unfold fields.
    rewrite (proj2 (eqb_true _ _) Hf). cbn [DRAKE_THROW_UNLESS mbind result_bind].
    unfold int_add, in_int.
    destruct (decide (count + size_ c <= INT_MAX)) as [Hle|Hgt].
    + assert ((INT_MIN <=? count + size_ c) && (count + size_ c <=? INT_MAX) = true)
        as -> by (unfold INT_MIN; apply andb_true_iff; lia).
      cbn [mbind result_bind]. apply IH; [lia|done|lia].
    + assert ((INT_MIN <=? count + size_ c) && (count + size_ c <=? INT_MAX) = false)
        as -> by (apply andb_false_iff; right; lia).
      done.
Qed.
End ConcatenateLoop.

(** X15. How [Concatenate] fails.  An empty sequence aborts at the
    [DRAKE_DEMAND].  A cloud whose field set differs from that of the first
    cloud makes it throw.  Sizes that add up to more than an [int] holds
    overflow the signed counter.  Clouds with normals and no positions
    abort in the first iteration, where the positions are read under the
    guard [has_normals()]. *)
Theorem Concatenate_failures `{Platform} :
  Concatenate [] = Fail (DemandFailed "num_clouds >= 1")
  ∧ (∀ first rest,
       Forall valid (first :: rest) → total_size (first :: rest) <= INT_MAX →
       Exists (λ c, fields c ≠ fields first) rest →
       Concatenate (first :: rest)
       = Fail (ThrowUnless "clouds[i].fields() == clouds[0].fields()"))
  ∧ (∀ first rest,
       Forall (λ c, valid c ∧ fields_ c = fields_ first) (first :: rest) →
       INT_MAX < total_size (first :: rest) →
       Concatenate (first :: rest)
       = Fail (UndefinedBehaviour "signed integer overflow"))
  ∧ (∀ first rest,
       Forall (λ c, valid c ∧ fields_ c = fields_ first) (first :: rest) →
       total_size (first :: rest) <= INT_MAX →
       has_normals first = true → has_xyzs first = false →
       Concatenate (first :: rest) = Fail (DemandFailed "has_xyzs()")).
Proof.
  split; [reflexivity|]. split; [|split].
  - intros first rest Hall Hmax Hex. apply Forall_cons in Hall as [Hv Hrest].
    pose proof (valid_size first Hv) as Hs.
    unfold Concatenate.
    by rewrite (count_loop_mismatch first rest (size first) (proj1 Hs) Hrest Hmax Hex).
  - intros first rest Hall Hover. apply Forall_cons in Hall as [[Hv _] Hrest].
    pose proof (valid_size first Hv) as Hs.
    unfold Concatenate.
    by rewrite (count_loop_overflow first rest (size first) Hs Hrest Hover).
  - intros first rest Hall Hmax Hn Hx.
    pose proof Hall as Hall'. apply Forall_cons in Hall' as [[Hv _] Hrest].
    pose proof (total_size_nonneg _ (Forall_valid _ _ Hall)) as H0.
    pose proof (valid_size first Hv) as Hs.
    change (total_size (first :: rest)) with (size first + total_size rest) in *.
    unfold Concatenate.
    rewrite count_loop; [|apply Hs|done|unfold size in *; lia].
    cbn [mbind result_bind].
    rewrite PointCloud_new_ok;
      [|apply (valid_not_none first Hv)|apply (valid_not_inherit first Hv)|done].
    cbn [mbind result_bind for_each].
    by rewrite Concatenate_body_no_positions.
Qed.

(** ** VoxelizedDownSample: the number of voxels *)

Section DownSampleSize.
Context `{Platform}.
Variables (this : PointCloud) (voxel_size : double).

(** Only points with a finite position add a voxel. *)
Lemma size_insert_finite l :
  ∀ m : gmap Vector3i (list Z),
    (base.size (foldl (insert_point this voxel_size) m l)
     <= base.size m + length (List.filter (finite_point this) l))%nat.
Proof.
  induction l as [|i l IH]; intros m; cbn [foldl List.filter length]; [lia|].
  etrans; [apply IH|].
  unfold insert_point. destruct (finite_point this i); [|lia].
  cbn [length].
  destruct (voxel_floor this voxel_size i) as [k|]; [|lia].
  unfold emplace_back. destruct (m !! k) as [b|] eqn:E.
  - rewrite map_size_insert_Some by eauto. lia.
  - rewrite map_size_insert_None by done. lia.
Qed.

Lemma size_voxels_finite :
  (base.size (voxels this voxel_size) <= length (finite_points this))%nat.
Proof.
  pose proof (size_insert_finite (seqZ 0 (size this)) ∅) as Hs.
  by rewrite map_size_empty in Hs.
Qed.

Lemma length_finite_points : valid this → Z.of_nat (length (finite_points this)) <= size this.
Proof.
  intros Hv. unfold finite_points.
  pose proof (filter_length_le (finite_point this) (seqZ 0 (size this))) as Hf.
  rewrite length_seqZ in Hf. pose proof (valid_size this Hv). unfold size in *. lia.
Qed.
End DownSampleSize.

(** X16. The size of the down-sampled cloud.  [VoxelizedDownSample]
    returns a valid cloud with the field set of the input that has at most
    one point per point with a finite position, hence no more points than
    the input: no point at all when no position is finite, so for an empty
    cloud, and at least one point otherwise. *)
Theorem VoxelizedDownSample_size `{Platform} (this : PointCloud) (voxel_size : double) :
  valid this → has_xyzs this = true → SFgtb voxel_size (F64.of_Z 0) = true →
  positions_canonical this → coordinates_fit this voxel_size →
  ∃ out, VoxelizedDownSample voxel_size this = Ok out ∧ valid out
    ∧ fields out = fields this
    ∧ 0 <= size out <= Z.of_nat (length (finite_points this))
    ∧ Z.of_nat (length (finite_points this)) <= size this
    ∧ (finite_points this ≠ [] → 1 <= size out).
Proof.
  intros Hv Hx Hs Hc Hfit.
  destruct (VoxelizedDownSample_ok this voxel_size Hv Hx Hs Hc Hfit)
    as (out & Hrun & Hvo & Hf & Hsize & _ & Hocc & _).
  destruct (iteration_entries this voxel_size) as (_ & _ & _ & Hlen).
  rewrite length_fmap, Hlen in Hsize.
  exists out. split; [done|]. split; [done|]. split; [done|].
  split; [|split].
  - pose proof (size_voxels_finite this voxel_size). lia.
  - by apply length_finite_points.
  - intros Hne. destruct (finite_points this) as [|i l] eqn:E; [done|].
    assert (i ∈ finite_points this) as Hi by (rewrite E; left).
    apply elem_of_finite_points in Hi as [Hi Hfin].
    destruct (voxel_of_floor this voxel_size Hv Hx Hs Hc Hfit i Hi Hfin) as (k & Hk & _).
    assert (k ∈ (iteration (voxels this voxel_size)).*1) as Hin
      by (apply Hocc; by exists i).
    rewrite Hsize, <- Hlen.
    destruct (iteration (voxels this voxel_size)); [by apply elem_of_nil in Hin|].
    simpl. lia.
Qed.

(** ** VoxelizedDownSample: the grid *)

Section Grid.
Context `{Platform}.

Lemma SF_floor_not_negative q z : not_negative q → SF_floor q = Some z → 0 <= z.
Proof.
  destruct q as [s|s| |s m e]; simpl; try done.
  - by intros _ [= <-].
  - intros -> [= <-]. simpl. apply Z.shiftl_nonneg. lia.
Qed.

Lemma F32_sub_diag c : isFinite c = true → F32.sub c c = S754_zero false.
Proof.
  destruct c as [s|s| |s m e]; try discriminate; intros _.
  - by destruct s.
  - unfold F32.sub, SFsub. by rewrite Z.sub_diag.
Qed.

Lemma SF_floor_div_zero v z :
  SF_floor (F32.div (S754_zero false) v) = Some z → z = 0.
Proof.
  unfold F32.div. destruct v as [s|s| |s m e]; simpl; try done; by intros [= <-].
Qed.

Lemma voxel_floor_inv (this : PointCloud) voxel_size i k :
  voxel_floor this voxel_size i = Some k →
  ∃ q0 q1 q2,
    voxel_quotient voxel_size (minima this) (position this i) = [q0; q1; q2]
    ∧ SF_floor q0 = Some k.1.1 ∧ SF_floor q1 = Some k.1.2 ∧ SF_floor q2 = Some k.2.
Proof.
  unfold voxel_floor.
  destruct (voxel_quotient voxel_size (minima this) (position this i))
    as [|q0 [|q1 [|q2 [|q3 l]]]]; cbn [fmap list_fmap]; try done.
  - by destruct (SF_floor q0).
  - by destruct (SF_floor q0), (SF_floor q1).
  - destruct (SF_floor q0) as [a|] eqn:E0, (SF_floor q1) as [b|] eqn:E1,
      (SF_floor q2) as [c|] eqn:E2; try done.
    intros [= <-]. by exists q0, q1, q2.
  - by destruct (SF_floor q0), (SF_floor q1), (SF_floor q2).
Qed.
End Grid.

(** X17. The grid of [VoxelizedDownSample] starts at the minimum corner.
    For a point with a finite position no component of
    [(xyz - lower_xyz) / voxel_size] is negative, so that the truncating
    conversion to [int] is the floor: the key that the code computes is the
    voxel of the point, and its coordinates are not negative.  On every
    axis a point that attains the minimum lies in a voxel with coordinate
    0. *)
Theorem voxel_grid_starts_at_minimum `{Platform} (this : PointCloud)
    (voxel_size : double) :
  valid this → has_xyzs this = true → SFgtb voxel_size (F64.of_Z 0) = true →
  positions_canonical this → coordinates_fit this voxel_size →
  (∀ i, 0 <= i < size this → finite_point this i = true →
     ∃ k, voxel_of voxel_size (minima this) (position this i) = Ok k
          ∧ voxel_floor this voxel_size i = Some k
          ∧ 0 <= k.1.1 ∧ 0 <= k.1.2 ∧ 0 <= k.2)
  ∧ (∀ a i, (a < 3)%nat → i ∈ finite_points this →
       ∃ j k, j ∈ finite_points this
              ∧ coordinate this a j = minimum_over this a (finite_points this)
              ∧ voxel_floor this voxel_size j = Some k ∧ axis a k = 0).
Proof.
  intros Hv Hx Hs Hc Hfit. split.
  - intros i Hi Hf.
    destruct (voxel_of_floor this voxel_size Hv Hx Hs Hc Hfit i Hi Hf) as (k & Hk & Hof).
    exists k. split; [done|]. split; [done|].
    destruct (voxel_floor_inv this voxel_size i k Hk) as (q0 & q1 & q2 & Hq & F0 & F1 & F2).
    pose proof (quotient_not_negative this voxel_size Hv Hx Hs Hc i) as Hnn.
    rewrite Hq in Hnn.
    split; [|split].
    + apply (SF_floor_not_negative q0); [|done]. apply Hnn; try done. left.
    + apply (SF_floor_not_negative q1); [|done]. apply Hnn; try done. right. left.
    + apply (SF_floor_not_negative q2); [|done]. apply Hnn; try done.
      right. right. left.
  - intros a i Ha Hi.
    destruct (minimum_attained this Hv Hx a i Ha Hi) as (_ & j & Hj & Hmin).
    pose proof Hj as Hj'. apply elem_of_finite_points in Hj' as [Hjr Hjf].
    destruct (voxel_of_floor this voxel_size Hv Hx Hs Hc Hfit j Hjr Hjf) as (k & Hk & _).
    exists j, k. split; [done|]. split; [done|]. split; [done|].
    destruct (voxel_floor_inv this voxel_size j k Hk) as (q0 & q1 & q2 & Hq & F0 & F1 & F2).
    destruct (position_triple this Hv Hx j Hjr) as (x & y & z & Hp).
    unfold voxel_quotient, minima in Hq. rewrite Hp in Hq.
    cbn [zip_with fmap list_fmap] in Hq. injection Hq as <- <- <-.
    destruct a as [|[|[|a]]]; [| | |lia]; cbn [axis].
    + destruct (coordinate_finite this 0 j x Hjf) as [Fx Cx]; [by rewrite Hp|].
      rewrite Hmin, Cx, F32_sub_diag in F0 by done.
      by apply SF_floor_div_zero in F0.
    + destruct (coordinate_finite this 1 j y Hjf) as [Fx Cx]; [by rewrite Hp|].
      rewrite Hmin, Cx, F32_sub_diag in F1 by done.
      by apply SF_floor_div_zero in F1.
    + destruct (coordinate_finite this 2 j z Hjf) as [Fx Cx]; [by rewrite Hp|].
      rewrite Hmin, Cx, F32_sub_diag in F2 by done.
      by apply SF_floor_div_zero in F2.
Qed.

(** ** Storage *)

(** X18. The check at the end of [Storage::resize] never fails: from
    any storage and for any size that is not negative, [resize] returns a
    storage of that size, with the same fields, on which [CheckInvariants]
    returns.  A negative size stops at the assertion of
    [conservativeResize] when the storage has a field. *)
Theorem Storage_resize_checks `{Platform} (s : Storage.t) (n : Z) :
  (0 <= n →
   ∃ s', Storage.resize n s = Ok s' ∧ Storage.size s' = n
         ∧ Storage.fields_ s' = Storage.fields_ s
         ∧ Storage.CheckInvariants s' = Ok tt)
  ∧ (n < 0 →
     pc_flags.contains (Storage.fields_ s) (pc_flags.base pc_flags.kXYZs) = true
     ∨ pc_flags.contains (Storage.fields_ s) (pc_flags.base pc_flags.kNormals) = true
     ∨ pc_flags.contains (Storage.fields_ s) (pc_flags.base pc_flags.kRGBs) = true
     ∨ pc_flags.has_descriptor (Storage.fields_ s) = true →
     is_ok (Storage.resize n s) = false).
Proof.
  split.
  - intros Hn. exists (resized_storage n s).
    split; [by apply Storage_resize_ok|]. split; [reflexivity|]. split; [reflexivity|].
    unfold Storage.CheckInvariants, resized_storage, Storage.size. simpl.
    destruct (pc_flags.contains _ (pc_flags.base pc_flags.kXYZs));
      destruct (pc_flags.contains _ (pc_flags.base pc_flags.kNormals));
      destruct (pc_flags.contains _ (pc_flags.base pc_flags.kRGBs));
      destruct (pc_flags.has_descriptor _);
      rewrite ?cols_resized, ?Z.eqb_refl by done; reflexivity.
  - intros Hn Hp. by apply Storage_resize_negative.
Qed.

(** ** Crop with the box of all numbers *)

Section CropEverything.
Context `{Platform}.

Lemma SFgeb_minus_infinity x : SFgeb x (S754_infinity true) = is_number x.
Proof. by destruct x as [[]|[]| |[]]. Qed.

Lemma SFleb_plus_infinity x : SFleb x (S754_infinity false) = is_number x.
Proof. by destruct x as [[]|[]| |[]]. Qed.

Lemma in_box_everything x y z :
  in_box everything_lower everything_upper [x; y; z] = forallb is_number [x; y; z].
Proof.
  unfold in_box, array_ge, array_le, everything_lower, everything_upper. simpl.
  rewrite !SFgeb_minus_infinity, !SFleb_plus_infinity.
  destruct (is_number x), (is_number y), (is_number z); reflexivity.
Qed.

Lemma retained_everything this :
  valid this → has_xyzs this = true →
  retained everything_lower everything_upper this = number_points this.
Proof.
  intros Hv Hx. unfold retained, number_points.
  apply filter_ext_in. intros i Hi.
  apply list_elem_of_In, elem_of_seqZ in Hi.
  destruct (valid_xyzs this Hv Hx) as (_ & Hc & Hf). unfold cols, size in *.
  unfold inside, position.
  destruct (lookup_lt_is_Some_2 (columns (Storage.xyzs_ (storage_ this))) (Z.to_nat i))
    as [p Hp]; [lia|].
  rewrite Hp. cbn [default].
  pose proof (Forall_lookup_1 _ _ _ _ Hf Hp) as Hl.
  destruct p as [|x [|y [|z [|w l]]]]; try discriminate.
  apply in_box_everything.
Qed.
End CropEverything.

(** X19. [Crop] with the box from minus infinity to plus infinity keeps
    the points none of whose coordinates is NaN, and only those: infinite
    coordinates pass, NaN compares false with every bound. *)
Theorem Crop_everything_drops_NaN `{Platform} (this : PointCloud) :
  valid this → has_xyzs this = true →
  ∃ out, Crop everything_lower everything_upper this = Ok out ∧ valid out
         ∧ restricted_to (number_points this) this out.
Proof.
  intros Hv Hx.
  destruct (Crop_ok this everything_lower everything_upper Hv Hx eq_refl)
    as (out & Hrun & Hvo & Hr).
  exists out. split; [done|]. split; [done|].
  by rewrite <- retained_everything.
Qed.

(** ** Growing and shrinking back *)

Section RoundTrip.
Context `{Platform}.

Lemma same_prefix_all (c c' : PointCloud) :
  valid c → valid c' → fields_ c' = fields_ c → size_ c' = size_ c →
  same_prefix (size c) c c' → same_data c c'.
Proof.
  intros Hv Hv' Hf Hs (Px & Pm & Pr & Pd).
  assert (∀ {A} r (m m' : Mat A),
            shaped r (size_ c) m → shaped r (size_ c) m' →
            take (Z.to_nat (size c)) (columns m') = take (Z.to_nat (size c)) (columns m) →
            columns m' = columns m) as Hall.
  { intros A r m m' (_ & Hc & _) (_ & Hc' & _) Ht. unfold cols, size in *.
    rewrite !take_ge in Ht by lia. done. }
  unfold same_data, size, fields. split; [done|]. split; [done|].
  split; [|split; [|split]]; intros Hp.
  - apply (Hall _ 3%nat); [by apply valid_xyzs| |by apply Px].
    rewrite <- Hs. apply valid_xyzs; [done|]. unfold has_xyzs in *. by rewrite Hf.
  - apply (Hall _ 3%nat); [by apply valid_normals| |by apply Pm].
    rewrite <- Hs. apply valid_normals; [done|]. unfold has_normals in *. by rewrite Hf.
  - apply (Hall _ 3%nat); [by apply valid_rgbs| |by apply Pr].
    rewrite <- Hs. apply valid_rgbs; [done|]. unfold has_rgbs in *. by rewrite Hf.
  - apply (Hall _ (pc_flags.size (pc_flags.descriptor_type (fields_ c))));
      [by apply valid_descriptors| |by apply Pd].
    rewrite <- Hs, <- Hf. apply valid_descriptors; [done|].
    unfold has_descriptors in *. by rewrite Hf.
Qed.

Lemma same_prefix_trans k c c1 c2 :
  fields_ c1 = fields_ c → same_prefix k c c1 → same_prefix k c1 c2 → same_prefix k c c2.
Proof.
  intros Hf (X1 & M1 & R1 & D1) (X2 & M2 & R2 & D2).
  unfold same_prefix, has_xyzs, has_normals, has_rgbs, has_descriptors in *.
  rewrite Hf in *.
  split; [|split; [|split]]; intros Hp.
  - by rewrite (X2 Hp), (X1 Hp).
  - by rewrite (M2 Hp), (M1 Hp).
  - by rewrite (R2 Hp), (R1 Hp).
  - by rewrite (D2 Hp), (D1 Hp).
Qed.

Lemma fields_resized_cloud n skip c : fields_ (resized_cloud n skip c) = fields_ c.
Proof. unfold resized_cloud. destruct (_ && _); reflexivity. Qed.

Lemma size_resized_cloud n skip c : size_ (resized_cloud n skip c) = n.
Proof. unfold resized_cloud. destruct (_ && _); reflexivity. Qed.
End RoundTrip.

(** X20. Growing and shrinking back is a round trip: after [Expand] by
    any amount that keeps the size an [int], with or without
    initialisation, [resize] to the old size returns a cloud with the size,
    the field set and the data of the original. *)
Theorem Expand_then_resize_back `{Platform} (c : PointCloud) (add : Z)
    (skip skip' : bool) :
  valid c → 0 <= add → size c + add <= INT_MAX →
  ∃ c1 c2,
    Expand add skip c = (Ok tt, c1) ∧ resize (size c) skip' c1 = (Ok tt, c2)
    ∧ valid c2 ∧ same_data c c2.
Proof.
  intros Hv Ha Hmax. pose proof (valid_size c Hv) as Hs. unfold size in *.
  set (c1 := resized_cloud (size_ c + add) skip c).
  assert (valid c1) as Hv1 by (apply valid_resized_cloud; (done || lia)).
  set (c2 := resized_cloud (size_ c) skip' c1).
  assert (valid c2) as Hv2 by (apply valid_resized_cloud; (done || lia)).
  exists c1, c2.
  split; [by apply Expand_ok|]. split; [apply resize_ok; (done || lia)|].
  split; [done|].
  apply same_prefix_all; try done.
  - unfold c2, c1. by rewrite !fields_resized_cloud.
  - unfold c2. by rewrite size_resized_cloud.
  - apply (same_prefix_trans _ c c1 c2).
    + unfold c1. by rewrite fields_resized_cloud.
    + apply resized_cloud_prefix; unfold size; (done || lia).
    + apply resized_cloud_prefix; unfold size; try done; try lia.
      unfold c1. rewrite size_resized_cloud. lia.
Qed.

(** * Crop and the closed box *)

Section ClosedBox.
Context `{Platform}.

(** [x >= l] and [l <= x] are the same comparison. *)
Lemma SFgeb_SFleb x l : SFgeb x l = SFleb l x.
Proof.
  unfold SFgeb, SFleb, SFcompare.
  destruct x as [sx|sx| |sx mx ex], l as [sl|sl| |sl ml el];
    try destruct sx; try destruct sl; try reflexivity;
    change (Pos.compare_cont Eq mx ml) with (Pos.compare mx ml);
    change (Pos.compare_cont Eq ml mx) with (Pos.compare ml mx);
    rewrite (Z.compare_antisym ex el), (Pos.compare_antisym mx ml);
    destruct (ex ?= el), (mx ?= ml)%positive; reflexivity.
Qed.

Lemma forallb_zip {A B} (f : A * B → bool) (a : list A) (b : list B) :
  forallb f (zip a b) = true
  ↔ ∀ k x y, a !! k = Some x → b !! k = Some y → f (x, y) = true.
Proof.
  rewrite forallb_forall. split.
  - intros Hall k x y Ha Hb. apply Hall, list_elem_of_In, list_elem_of_lookup.
    exists k. apply lookup_zip_with_Some. eauto.
  - intros Hall [x y] Hin. apply list_elem_of_In, list_elem_of_lookup in Hin as [k Hk].
    apply lookup_zip_with_Some in Hk as (x' & y' & E & Ha & Hb).
    injection E as -> ->. by apply (Hall k).
Qed.

Lemma array_le_ordered lower upper : array_le lower upper = true ↔ box_ordered lower upper.
Proof. unfold array_le, box_ordered. by rewrite forallb_zip. Qed.

Lemma in_box_closed lower upper p :
  in_box lower upper p = true ↔ in_closed_box lower upper p.
Proof.
  unfold in_box, in_closed_box, array_ge, array_le.
  rewrite andb_true_iff, !forallb_zip. split.
  - intros [Hge Hle]. split.
    + intros k l x Hl Hx. rewrite <- SFgeb_SFleb. by apply (Hge k).
    + intros k x u Hx Hu. by apply (Hle k).
  - intros [Hge Hle]. split.
    + intros k x l Hx Hl. simpl. rewrite SFgeb_SFleb. by apply (Hge k).
    + intros k x u Hx Hu. by apply (Hle k).
Qed.

Lemma StronglySorted_seqZ len : ∀ m, StronglySorted Z.lt (seqZ m (Z.of_nat len)).
Proof.
  induction len as [|len IH]; intros m.
  - rewrite seqZ_nil by lia. constructor.
  - rewrite seqZ_cons by lia.
    replace (Z.pred (Z.of_nat (S len))) with (Z.of_nat len) by lia.
    constructor; [apply IH|]. apply Forall_seqZ. intros i Hi. lia.
Qed.

Lemma StronglySorted_filter_list {A} (R : A → A → Prop) (f : A → bool) (l : list A) :
  StronglySorted R l → StronglySorted R (List.filter f l).
Proof.
  induction 1 as [|x l Hl IH Hx]; simpl; [constructor|].
  destruct (f x); [|exact IH]. constructor; [exact IH|]. by apply Forall_filter_list.
Qed.

(** The points that [Crop] retains are the points in the closed box, in
    increasing order. *)
Lemma retained_closed_box this lower upper :
  valid this → has_xyzs this = true →
  StronglySorted Z.lt (retained lower upper this)
  ∧ ∀ i, i ∈ retained lower upper this
         ↔ 0 <= i < size this ∧ in_closed_box lower upper (position this i).
Proof.
  intros Hv Hx. pose proof (valid_size this Hv) as Hs. unfold retained. split.
  - apply StronglySorted_filter_list.
    replace (size this) with (Z.of_nat (Z.to_nat (size this))) by (unfold size; lia).
    apply StronglySorted_seqZ.
  - intros i. rewrite list_elem_of_In, filter_In, <- list_elem_of_In, elem_of_seqZ.
    destruct (valid_xyzs this Hv Hx) as (_ & Hc & _). unfold cols, size in *.
    split.
    + intros [Hi Hin]. split; [lia|]. unfold inside in Hin. unfold position.
      destruct (columns (Storage.xyzs_ (storage_ this)) !! Z.to_nat i) as [p|];
        [|discriminate].
      by apply in_box_closed.
    + intros [Hi Hin]. split; [lia|]. unfold inside. unfold position in Hin.
      destruct (lookup_lt_is_Some_2 (columns (Storage.xyzs_ (storage_ this)))
                  (Z.to_nat i)) as [p Hp]; [lia|].
      rewrite Hp in *. by apply in_box_closed.
Qed.
End ClosedBox.

(** C5. On a valid cloud with positions, and a box with [lower <= upper]
    on every axis, [Crop] returns a new valid cloud with the same field set
    that holds the points at [idx], every present field carrying the
    columns of these points in the order of [idx]; [idx] is increasing, so
    the points keep their relative order, and a point is in [idx] exactly
    when on every axis its coordinate is neither below the lower bound nor
    above the upper bound.  [Crop] fails when the cloud has no positions,
    and when some component of [lower] is greater than the same component
    of [upper]. *)
Theorem Crop_keeps_points_in_box `{Platform} (this : PointCloud)
    (lower_xyz upper_xyz : list T) :
  valid this →
  (has_xyzs this = true → box_ordered lower_xyz upper_xyz →
   ∃ out idx, Crop lower_xyz upper_xyz this = Ok out ∧ valid out
     ∧ restricted_to idx this out
     ∧ StronglySorted Z.lt idx
     ∧ ∀ i, i ∈ idx
            ↔ 0 <= i < size this ∧ in_closed_box lower_xyz upper_xyz (position this i))
  ∧ (has_xyzs this = false → is_ok (Crop lower_xyz upper_xyz this) = false)
  ∧ (∀ k l u, lower_xyz !! k = Some l → upper_xyz !! k = Some u →
              SFgtb l u = true → is_ok (Crop lower_xyz upper_xyz this) = false).
Proof.
  intros Hv. split; [|split].
  - intros Hx Hbox. apply array_le_ordered in Hbox.
    destruct (Crop_ok this lower_xyz upper_xyz Hv Hx Hbox) as (out & Hrun & Hvo & Hr).
    destruct (retained_closed_box this lower_xyz upper_xyz Hv Hx) as [Hsorted Hin].
    by exists out, (retained lower_xyz upper_xyz this).
  - intros Hx. unfold Crop. rewrite Hx.
    destruct (DRAKE_DEMAND _ _); reflexivity.
  - intros k l u Hl Hu Hgt. unfold Crop.
    destruct (array_le lower_xyz upper_xyz) eqn:Hle; [|reflexivity].
    pose proof (array_le_lookup _ _ _ _ _ Hle Hl Hu) as Hle'.
    rewrite (SFgtb_not_leb _ _ Hgt) in Hle'. discriminate.
Qed.

(** * VoxelizedDownSample and the arithmetic mean *)

Section MeanOfVectors.
Context `{Platform}.

Lemma all_finite_Forall v : all_finite v = true ↔ Forall (λ x, isFinite x = true) v.
Proof.
  unfold all_finite. rewrite forallb_forall, Forall_forall.
  by setoid_rewrite list_elem_of_In.
Qed.

Lemma all_finite_entirely v : all_finite v = true ↔ entirely_finite v.
Proof. rewrite all_finite_Forall, Forall_forall. done. Qed.

Lemma keep_finite_only vs : keep_finite vs = finite_only vs.
Proof.
  unfold keep_finite, finite_only. apply filter_ext. intros v.
  destruct (all_finite v) eqn:E.
  - apply bool_decide_eq_true. by apply all_finite_Forall.
  - apply bool_decide_eq_false. intros Hf. apply all_finite_Forall in Hf. congruence.
Qed.

(** The accumulator after the vectors [ws] have been added to it, one
    coordinate at a time. *)
Lemma foldl_add_to_coordinates r (ws : list (list double)) :
  ∀ acc, length acc = r → Forall (λ w, length w = r) ws →
    foldl add_to acc ws
    = (λ a, foldl F64.add (default S754_nan (acc !! a))
                  ((λ w, default S754_nan (w !! a)) <$> ws)) <$> seq 0 r.
Proof.
  induction ws as [|w ws IH]; intros acc Hacc Hws.
  - simpl. apply list_eq. intros a. rewrite list_lookup_fmap.
    destruct (decide (a < r)%nat) as [Hlt|Hge].
    + rewrite lookup_seq_lt by done. simpl.
      destruct (acc !! a) as [x|] eqn:Hx; [done|].
      apply lookup_ge_None in Hx. lia.
    + rewrite lookup_seq_ge by lia. simpl. apply lookup_ge_None. lia.
  - apply Forall_cons in Hws as [Hw Hws]. cbn [foldl fmap list_fmap].
    rewrite (IH (add_to acc w)); [|unfold add_to; rewrite length_zip_with; lia|done].
    apply list_fmap_ext. intros i a Ha. apply lookup_seq in Ha as [Ea Ha].
    simpl in Ea. subst a. f_equal. unfold add_to. rewrite lookup_zip_with.
    destruct (acc !! i) as [x|] eqn:Hx; [|apply lookup_ge_None in Hx; lia].
    destruct (w !! i) as [y|] eqn:Hy; [|apply lookup_ge_None in Hy; lia].
    reflexivity.
Qed.

(** The mean that the code accumulates is the arithmetic mean, coordinate
    by coordinate. *)
Lemma divided_sum_is_mean {A B} (to_double : A → double) (of_double : double → B) r
    (vs : list (list A)) :
  Forall (λ v, length v = r) vs →
  of_double
    <$> divide_by (Z.of_nat (length vs))
          (sum_vectors r ((λ v : list A, to_double <$> v) <$> vs))
  = arithmetic_mean to_double of_double r vs.
Proof.
  intros Hvs. unfold sum_vectors, divide_by, arithmetic_mean, mean, total.
  rewrite (foldl_add_to_coordinates r).
  - rewrite <- !list_fmap_compose. apply list_fmap_ext. intros i a Ha.
    apply lookup_seq in Ha as [Ea Ha]. simpl in Ea. subst a. simpl.
    rewrite lookup_replicate_2 by done. simpl.
    unfold coordinates_of. rewrite length_fmap, <- list_fmap_compose.
    do 3 f_equal. apply list_fmap_ext. intros j v _. simpl.
    by rewrite list_lookup_fmap.
  - apply length_replicate.
  - apply Forall_fmap. eapply Forall_impl; [exact Hvs|]. intros v Hv. simpl.
    by rewrite length_fmap.
Qed.

Lemma mean_float_arithmetic r (vs : list (list float)) :
  Forall (λ v, length v = r) vs →
  mean_float r vs = arithmetic_mean F64.of_float F32.of_double r vs.
Proof. apply divided_sum_is_mean. Qed.

Lemma mean_color_arithmetic (vs : list (list C)) :
  Forall (λ v, length v = 3%nat) vs →
  mean_color vs = arithmetic_mean C_to_double double_to_C 3 vs.
Proof. apply divided_sum_is_mean. Qed.
End MeanOfVectors.

Section VoxelsByFloor.
Context `{Platform}.
Variables (this : PointCloud) (voxel_size : double).
Hypothesis this_valid : valid this.
Hypothesis this_has_xyzs : has_xyzs this = true.

Lemma finite_point_entirely i :
  finite_point this i = true ↔ entirely_finite (position this i).
Proof. unfold finite_point. apply all_finite_entirely. Qed.

(** The quotient that the code computes, axis by axis. *)
Lemma voxel_quotient_axes i :
  0 <= i < size this →
  voxel_quotient voxel_size (minima this) (position this i)
  = [axis_quotient this voxel_size 0 i; axis_quotient this voxel_size 1 i;
     axis_quotient this voxel_size 2 i].
Proof.
  intros Hi. destruct (position_triple this this_valid this_has_xyzs i Hi)
    as (x & y & z & Hp).
  unfold voxel_quotient, minima, axis_quotient, coordinate. rewrite Hp. reflexivity.
Qed.

Lemma voxel_floor_in_voxel i k :
  0 <= i < size this →
  voxel_floor this voxel_size i = Some k ↔ in_voxel this voxel_size i k.
Proof.
  intros Hi. unfold voxel_floor, in_voxel. rewrite (voxel_quotient_axes i Hi).
  cbn [fmap list_fmap]. destruct k as [[ka kb] kc]. split.
  - destruct (SF_floor (axis_quotient this voxel_size 0 i)) as [a|] eqn:E0; [|done].
    destruct (SF_floor (axis_quotient this voxel_size 1 i)) as [b|] eqn:E1; [|done].
    destruct (SF_floor (axis_quotient this voxel_size 2 i)) as [c|] eqn:E2; [|done].
    intros [= -> -> ->] n Hn. destruct n as [|[|[|n]]]; [exact E0|exact E1|exact E2|lia].
  - intros Hk.
    rewrite (Hk 0%nat), (Hk 1%nat), (Hk 2%nat) by lia. reflexivity.
Qed.

Lemma voxels_fit_coordinates :
  voxels_fit this voxel_size → coordinates_fit this voxel_size.
Proof.
  intros Hfit i q Hi Hf Hq. rewrite (voxel_quotient_axes i Hi) in Hq.
  apply finite_point_entirely in Hf.
  rewrite !elem_of_cons in Hq. destruct Hq as [->|[->|[->|Hq]]].
  - apply Hfit; (done || lia).
  - apply Hfit; (done || lia).
  - apply Hfit; (done || lia).
  - by apply elem_of_nil in Hq.
Qed.

Lemma occupied_in_voxel k :
  occupied this voxel_size k
  ↔ ∃ i, 0 <= i < size this ∧ entirely_finite (position this i)
         ∧ in_voxel this voxel_size i k.
Proof.
  unfold occupied. split; intros (i & Hi & Hf & Hk); exists i.
  - by rewrite <- finite_point_entirely, <- voxel_floor_in_voxel.
  - by rewrite finite_point_entirely, voxel_floor_in_voxel.
Qed.

Lemma bucket_of_bucket k : bucket_of this voxel_size k (bucket this voxel_size k).
Proof.
  pose proof (valid_size this this_valid) as Hs. split.
  - unfold bucket, bucket_in. apply StronglySorted_filter_list.
    replace (size this) with (Z.of_nat (Z.to_nat (size this))) by (unfold size; lia).
    apply StronglySorted_seqZ.
  - intros i. rewrite elem_of_bucket. split; intros (Hi & Hf & Hk).
    + by rewrite <- finite_point_entirely, <- voxel_floor_in_voxel.
    + by rewrite finite_point_entirely, voxel_floor_in_voxel.
Qed.

(** The averages of the third loop are arithmetic means. *)
Lemma averages_means out j k :
  averages this voxel_size out j k → means_of this out j (bucket this voxel_size k).
Proof.
  intros (Ax & Am & Ar & Ad).
  assert (Forall (λ i, 0 <= i < size_ this) (bucket this voxel_size k)) as Hb.
  { apply Forall_forall. intros i Hi. apply elem_of_bucket in Hi as [Hi _]. exact Hi. }
  unfold means_of. split; [|split; [|split]]; try intros Hp.
  - etrans; [exact Ax|]. f_equal. apply mean_float_arithmetic.
    apply (Forall_pick 3 (size_ this)); [by apply valid_xyzs|done].
  - etrans; [exact (Am Hp)|]. f_equal. rewrite keep_finite_only.
    apply mean_float_arithmetic, Forall_filter_list.
    apply (Forall_pick 3 (size_ this)); [by apply valid_normals|done].
  - etrans; [exact (Ar Hp)|]. f_equal. apply mean_color_arithmetic.
    apply (Forall_pick 3 (size_ this)); [by apply valid_rgbs|done].
  - etrans; [exact (Ad Hp)|]. f_equal. rewrite keep_finite_only.
    apply mean_float_arithmetic, Forall_filter_list.
    destruct (valid_descriptors this this_valid Hp) as (Hr & Hc & Hf).
    apply (Forall_pick _ (size_ this)); [|done]. by rewrite Hr.
Qed.
End VoxelsByFloor.

(** C4 (as amended): for a cloud with positions whose stored coordinates
    are [float] values, and a voxel size above zero, such that on every
    axis the voxel coordinate [floor((position - minimum) / voxel_size)] of
    every point with an entirely finite position fits an [int],
    [VoxelizedDownSample] returns a valid cloud with the field set of the
    input and one point per voxel that holds a point with an entirely
    finite position, in an order [keys] that is not specified.  The minimum
    of an axis is not above the coordinate of any such point and is the
    coordinate of one of them.  Point [j] of the result holds the means
    over the bucket of voxel [keys !! j], the points with an entirely finite
    position whose floors are the coordinates of the voxel: the arithmetic
    mean of their positions, accumulated in [double] and rounded to
    [float]; the mean of their entirely finite normals; the mean of all
    their colours; the mean of their entirely finite descriptors.  The call
    throws when the cloud has no positions and when the voxel size is not
    above zero. *)
Theorem VoxelizedDownSample_averages_voxels `{Platform} (this : PointCloud)
    (voxel_size : double) :
  valid this →
  (has_xyzs this = true → SFgtb voxel_size (F64.of_Z 0) = true →
   positions_canonical this → voxels_fit this voxel_size →
   (∃ out keys,
      VoxelizedDownSample voxel_size this = Ok out ∧ valid out
      ∧ voxel_means this voxel_size keys out)
   ∧ (∀ a i, (a < 3)%nat → 0 <= i < size this → entirely_finite (position this i) →
        SFltb (coordinate this a i) (minimum_over this a (finite_points this)) = false
        ∧ ∃ j, 0 <= j < size this ∧ entirely_finite (position this j)
               ∧ minimum_over this a (finite_points this) = coordinate this a j)
   ∧ (∀ i, 0 <= i < size this → entirely_finite (position this i) →
        ∃ k, in_voxel this voxel_size i k))
  ∧ (has_xyzs this = false → throws (VoxelizedDownSample voxel_size this) = true)
  ∧ (SFgtb voxel_size (F64.of_Z 0) = false →
     throws (VoxelizedDownSample voxel_size this) = true).
Proof.
  intros Hv. split; [|split].
  - intros Hx Hs Hc Hfit.
    pose proof (voxels_fit_coordinates this voxel_size Hv Hx Hfit) as Hfit'.
    split; [|split].
    + destruct (VoxelizedDownSample_ok this voxel_size Hv Hx Hs Hc Hfit')
        as (out & Hrun & Hvo & Hf & Hsize & Hnd & Hocc & Havg).
      exists out, (iteration (voxels this voxel_size)).*1.
      split; [done|]. split; [done|].
      split; [done|]. split; [done|]. split; [done|]. split.
      * intros k. rewrite Hocc. by apply occupied_in_voxel.
      * intros j k Hj. exists (bucket this voxel_size k).
        split; [by apply bucket_of_bucket|].
        apply averages_means; [done..|]. by apply Havg.
    + intros a i Ha Hi Hf.
      assert (i ∈ finite_points this) as Hin.
      { apply elem_of_finite_points. split; [done|]. by apply finite_point_entirely. }
      destruct (minimum_attained this Hv Hx a i Ha Hin) as (Hle & j & Hj & Hmin).
      split; [done|]. exists j. apply elem_of_finite_points in Hj as [Hj Hjf].
      split; [done|]. split; [by apply finite_point_entirely|done].
    + intros i Hi Hf. apply finite_point_entirely in Hf.
      destruct (voxel_of_floor this voxel_size Hv Hx Hs Hc Hfit' i Hi Hf)
        as (k & Hk & _).
      exists k. by apply voxel_floor_in_voxel.
  - apply VoxelizedDownSample_no_positions.
  - apply VoxelizedDownSample_bad_size.
Qed.

(** ** Copy construction with fewer fields *)

Section NarrowingCopyRuns.
Context `{Platform}.

(** A field set contained in the field set of a valid cloud does not carry
    [kInherit]. *)
Lemma contained_not_inherit other cf :
  valid other → pc_flags.contains (fields other) cf = true →
  pc_flags.contains cf Inherit = false.
Proof.
  intros Ho Hc. destruct (pc_flags.contains cf Inherit) eqn:E; [|reflexivity].
  pose proof (contains_trans_base _ _ _ Hc E) as Hi.
  pose proof (valid_not_inherit other Ho) as Hn. unfold fields in Hi. congruence.
Qed.

(** The constructor with a field set that is neither [kInherit] nor the
    field set of [other]: the new cloud is built, and [SetFrom(other)]
    throws the mismatch of the field sets. *)
Lemma PointCloud_copy_mismatch other cf :
  valid other → cf ≠ pc_flags.base pc_flags.kNone →
  pc_flags.contains cf Inherit = false → cf ≠ fields other →
  PointCloud_copy other cf
  = Fail (RuntimeError "PointCloud does not have the exact expected fields.").
Proof.
  intros Ho Hn Hi Hne. unfold PointCloud_copy.
  assert (cf ≠ Inherit) as Hinh by (intros ->; by rewrite contains_refl in Hi).
  rewrite ResolveFields_other by done.
  pose proof (valid_size other Ho) as Hs. unfold size in *.
  destruct (PointCloud_new (size_ other) cf false) as [c0|] eqn:Hc0.
  2:{ rewrite PointCloud_new_ok in Hc0; [discriminate|done|done|lia]. }
  pose proof (valid_PointCloud_new _ _ _ _ Hs Hc0) as Hv0.
  pose proof (PointCloud_new_fields _ _ _ _ Hc0) as Hf.
  simpl. unfold exec.
  rewrite SetFrom_inherit_mismatch by (done || congruence). reflexivity.
Qed.

(** [SetFrom(other, cf)] on the cloud the constructor has built. *)
Lemma SetFrom_narrows other cf c0 :
  valid other → pc_flags.contains cf Inherit = false →
  pc_flags.contains (fields other) cf = true →
  PointCloud_new (size other) cf false = Ok c0 →
  ∃ c, SetFrom other cf true c0 = (Ok tt, c) ∧ valid c ∧ narrowed_from cf other c.
Proof.
  intros Ho Hi Hc Hc0.
  pose proof (valid_size other Ho) as Hs.
  pose proof (valid_PointCloud_new _ _ _ _ Hs Hc0) as Hv0.
  pose proof (PointCloud_new_fields _ _ _ _ Hc0) as Hf.
  pose proof (valid_sized_for other true c0 Hv0 Ho) as Hm.
  pose proof (fields_sized_for other true c0) as Hmf.
  pose proof (size_sized_for other true c0 (or_introl eq_refl)) as Hms.
  assert (SetFrom other cf true c0
          = (Ok tt, copied_fields cf other (sized_for other true c0))) as Hrun.
  { rewrite SetFrom_sized by (done || by left).
    assert (ResolvePairFields (sized_for other true c0) other cf = Ok cf) as ->.
    { unfold ResolvePairFields.
      assert (cf ≠ pc_flags.base pc_flags.kInherit) as Hne
        by (intros ->; unfold Inherit in Hi; by rewrite contains_refl in Hi).
      apply eqb_false in Hne. rewrite Hne.
      rewrite !RequireFields_ok; try done.
      rewrite Hmf. unfold fields in Hf. rewrite Hf. apply contains_refl. }
    apply copy_fields_from_subset; try done.
    unfold fields. rewrite Hmf. unfold fields in Hf. rewrite Hf. apply contains_refl. }
  exists (copied_fields cf other (sized_for other true c0)).
  split; [exact Hrun|]. split.
  { apply (keeps_valid_SetFrom other cf true Ho c0 (Ok tt) _ Hv0 Hrun). by left. }
  split; [exact Hms|]. split; [unfold fields in *; etrans; [exact Hmf|exact Hf]|].
  unfold copied_fields. simpl.
  destruct (pc_flags.contains cf (pc_flags.base pc_flags.kXYZs)),
    (pc_flags.contains cf (pc_flags.base pc_flags.kNormals)),
    (pc_flags.contains cf (pc_flags.base pc_flags.kRGBs)),
    (pc_flags.has_descriptor cf); done.
Qed.
End NarrowingCopyRuns.

(** C2: the copy constructor does not copy a subset of the fields.  For a
    valid cloud [other], copy construction with the [kInherit] sentinel, or
    with the field set of [other] itself, returns a valid cloud with the
    size and the field set of [other] whose present fields hold the data of
    [other]; with a field set that is not contained in the field set of
    [other] it fails.  With a field set that is not empty, is contained in
    the field set of [other] and is not all of it, the constructor throws
    [PointCloud does not have the exact expected fields.]: it builds a cloud
    with the requested fields and then calls [SetFrom(other)], whose field
    argument defaults to [kInherit] and so demands equal field sets.  The
    call [SetFrom(other, copy_fields)] on the same new cloud returns, and
    leaves the cloud the specification describes: valid, with the size of
    [other] and the requested field set, every requested field holding the
    columns of [other]. *)
Theorem copy_construction_narrowing `{Platform} (other : PointCloud) (cf : Fields) :
  valid other →
  (cf = Inherit ∨ cf = fields other →
   ∃ c, PointCloud_copy other cf = Ok c ∧ populated_from other c ∧ valid c)
  ∧ (cf ≠ Inherit → pc_flags.contains (fields other) cf = false →
     is_ok (PointCloud_copy other cf) = false)
  ∧ (cf ≠ pc_flags.base pc_flags.kNone → cf ≠ fields other →
     pc_flags.contains (fields other) cf = true →
     PointCloud_copy other cf
     = Fail (RuntimeError "PointCloud does not have the exact expected fields.")
     ∧ ∃ c0 c, PointCloud_new (size other) cf false = Ok c0
         ∧ SetFrom other cf true c0 = (Ok tt, c)
         ∧ valid c ∧ narrowed_from cf other c).
Proof.
  intros Ho. split; [|split].
  - intros [->| ->].
    + apply PointCloud_copy_exact; [done | apply ResolveFields_inherit].
    + apply PointCloud_copy_exact; [done|].
      unfold ResolveFields. destruct (pc_flags.eqb _ _); reflexivity.
  - intros Hi Hn. apply PointCloud_copy_other; [done|done|].
    intros ->. rewrite contains_refl in Hn. discriminate.
  - intros Hn Hne Hc.
    pose proof (contained_not_inherit other cf Ho Hc) as Hi.
    split; [by apply PointCloud_copy_mismatch|].
    pose proof (valid_size other Ho) as Hs.
    pose proof (PointCloud_new_ok (size other) cf false Hn Hi (proj1 Hs)) as Hc0.
    eexists. destruct (SetFrom_narrows other cf _ Ho Hi Hc Hc0) as (c & Hrun & Hv & Hp).
    exists c. done.
Qed.

(** ** The theorems at concrete clouds *)

Section SampleClouds.
Existing Instance byte_platform.

Ltac solve_valid :=
  split;
  [unfold INT_MAX; simpl; lia
  |discriminate
  |reflexivity
  |reflexivity
  |reflexivity
  |let Hp := fresh in
   intros Hp;
   first [vm_compute in Hp; discriminate Hp | repeat split; repeat constructor] ..].

Lemma valid_A : valid Sample.A.
Proof. solve_valid. Qed.

Lemma valid_B : valid Sample.B.
Proof. solve_valid. Qed.

Lemma valid_N : valid Sample.N.
Proof. solve_valid. Qed.

Lemma valid_P4 : valid Sample.P4.
Proof. solve_valid. Qed.

Lemma valid_V3 : valid Sample.V3.
Proof. solve_valid. Qed.

Lemma valid_W3 : valid Sample.W3.
Proof. solve_valid. Qed.

Lemma valid_Far : valid Sample.Far.
Proof. solve_valid. Qed.

Ltac solve_fit :=
  let i := fresh "i" in
  let q := fresh "q" in
  let Hi := fresh "Hi" in
  let Hq := fresh "Hq" in
  intros i q Hi _ Hq;
  assert (i = 0 ∨ i = 1 ∨ i = 2) as [ -> | [ -> | -> ] ] by (unfold size in Hi; simpl in Hi; lia);
  apply list_elem_of_In in Hq; vm_compute in Hq;
  repeat (destruct Hq as [ <- | Hq ]; [eexists; split; reflexivity|]);
  destruct Hq.

Lemma canonical_V3 : positions_canonical Sample.V3.
Proof. repeat constructor. Qed.

Lemma fit_V3 : coordinates_fit Sample.V3 (F64.of_Z 1).
Proof. solve_fit. Qed.

Lemma canonical_W3 : positions_canonical Sample.W3.
Proof. repeat constructor. Qed.

Lemma fit_W3 : coordinates_fit Sample.W3 (F64.of_Z 1).
Proof. solve_fit. Qed.

Lemma fits_V3 : voxels_fit Sample.V3 (F64.of_Z 1).
Proof.
  intros i a Hi _ Ha.
  assert (i = 0 ∨ i = 1 ∨ i = 2) as [ -> | [ -> | -> ] ]
    by (unfold size in Hi; simpl in Hi; lia);
  destruct a as [|[|[|a]]]; try lia; eexists; split; reflexivity.
Qed.
End SampleClouds.

(** C8 at three points with positions. *)
Lemma construction_fails_exactly_witness :
  pc_flags.valid Sample.XYZs
  ∧ (∀ c, @PointCloud_new byte_platform 3 Sample.XYZs false = Ok c →
          size c = 3 ∧ fields c = Sample.XYZs).
Proof.
  split.
  - unfold pc_flags.valid, Sample.XYZs, pc_flags.kXYZs. simpl. lia.
  - apply (@construction_fails_exactly byte_platform 3 Sample.XYZs false).
    unfold pc_flags.valid, Sample.XYZs, pc_flags.kXYZs. simpl. lia.
Defined.

(** C7 at the growth of a cloud of three points to five. *)
Lemma defaults_fill_new_columns_witness :
  @valid byte_platform Sample.A
  ∧ ∃ c', resize 5 false Sample.A = (Ok tt, c') ∧ default_grown 5 Sample.A c'.
Proof.
  split; [exact valid_A|].
  apply (proj1 (proj2 (@defaults_fill_new_columns byte_platform)) 5 Sample.A valid_A).
  lia.
Defined.

(** C6 at two clouds of positions. *)
Lemma move_assignment_exact_fields_witness :
  @valid byte_platform Sample.A ∧ @valid byte_platform Sample.B
  ∧ ∃ b', assign_move Sample.B Sample.A = (Ok tt, (Sample.B, b'))
          ∧ valid b' ∧ size b' = 0 ∧ fields b' = fields Sample.B.
Proof.
  split; [exact valid_A|]. split; [exact valid_B|].
  apply (proj2 (@move_assignment_exact_fields byte_platform Sample.A Sample.B
                  valid_A valid_B)).
  reflexivity.
Defined.

(** C9 at the copy assignment of a cloud with normals to a cloud without. *)
Lemma field_set_never_changes_witness :
  ∃ a', assign_copy Sample.N Sample.A
        = (Fail (RuntimeError "PointCloud does not have the exact expected fields."), a')
        ∧ fields a' = fields Sample.A.
Proof.
  apply (proj2 (proj2 (proj2 (@field_set_never_changes byte_platform)))
           Sample.A Sample.N valid_A valid_N).
  discriminate.
Defined.

(** C3 at a cloud of three positions that receives, with [allow_resize],
    a cloud of two points with positions and normals. *)
Lemma SetFrom_failure_leaves_witness :
  @valid byte_platform Sample.A ∧ @valid byte_platform Sample.N
  ∧ (SetFrom Sample.N Inherit true Sample.A).2
    = resized_cloud (size Sample.N) false Sample.A
  ∧ default_grown (size Sample.N) Sample.A (SetFrom Sample.N Inherit true Sample.A).2.
Proof.
  split; [exact valid_A|]. split; [exact valid_N|].
  apply (proj2 (@SetFrom_failure_leaves byte_platform Sample.A Sample.N Inherit true
                  (RuntimeError "PointCloud does not have the exact expected fields.")
                  (SetFrom Sample.N Inherit true Sample.A).2
                  valid_A valid_N eq_refl eq_refl)).
  reflexivity.
Defined.

(** C3 as stated fails: [SetFrom] with [allow_resize] throws on the
    mismatching field sets after it has cut the receiver from three points
    to two. *)
Lemma SetFrom_failure_resizes_receiver :
  @valid byte_platform Sample.A ∧ @valid byte_platform Sample.N
  ∧ throws (SetFrom Sample.N Inherit true Sample.A).1 = true
  ∧ size Sample.A = 3
  ∧ size (SetFrom Sample.N Inherit true Sample.A).2 = 2
  ∧ Storage.xyzs_ (storage_ (SetFrom Sample.N Inherit true Sample.A).2)
    ≠ Storage.xyzs_ (storage_ Sample.A).
Proof.
  split; [exact valid_A|]. split; [exact valid_N|].
  repeat split; try reflexivity. simpl. discriminate.
Qed.

(** C2 at a cloud of two points with positions and normals: the copy with
    [kInherit] holds both fields; the copy with the positions alone throws,
    where [SetFrom] with the positions, on a new cloud of two points with
    positions, leaves the two positions of the cloud. *)
Lemma copy_construction_narrowing_witness :
  @valid byte_platform Sample.N
  ∧ Sample.XYZs ≠ pc_flags.base pc_flags.kNone ∧ Sample.XYZs ≠ fields Sample.N
  ∧ pc_flags.contains (fields Sample.N) Sample.XYZs = true
  ∧ (PointCloud_copy Sample.N Sample.XYZs
     = Fail (RuntimeError "PointCloud does not have the exact expected fields.")
     ∧ ∃ c0 c, PointCloud_new (size Sample.N) Sample.XYZs false = Ok c0
         ∧ SetFrom Sample.N Sample.XYZs true c0 = (Ok tt, c)
         ∧ valid c ∧ narrowed_from Sample.XYZs Sample.N c)
  ∧ PointCloud_copy Sample.N Inherit = Ok Sample.N
  ∧ (c0 ← PointCloud_new (size Sample.N) Sample.XYZs false;
     exec (SetFrom Sample.N Sample.XYZs true) c0) = Ok Expected.N_positions.
Proof.
  split; [exact valid_N|]. split; [discriminate|]. split; [discriminate|].
  split; [reflexivity|]. split.
  - exact (proj2 (proj2 (@copy_construction_narrowing byte_platform Sample.N
                           Sample.XYZs valid_N))
                 ltac:(discriminate) ltac:(discriminate) eq_refl).
  - split; [vm_cast_no_check (eq_refl (Ok Sample.N))|].
    vm_cast_no_check (eq_refl (Ok Expected.N_positions)).
Defined.

(** C5 at the four points (0.5, 0.5, 0.5), (2, 2, 2), (0, 0, 0) and
    (1, 1, 1) and the box from (0.5, 0.5, 0.5) to (1, 1, 1): the second
    point lies above the box and the third below it; the first and the
    fourth are retained, in this order. *)
Lemma Crop_keeps_points_in_box_witness :
  @valid byte_platform Sample.P4
  ∧ box_ordered Expected.half (Sample.point 1 1 1)
  ∧ (∃ out idx,
       Crop Expected.half (Sample.point 1 1 1) Sample.P4 = Ok out ∧ valid out
       ∧ restricted_to idx Sample.P4 out
       ∧ StronglySorted Z.lt idx
       ∧ ∀ i, i ∈ idx
              ↔ 0 <= i < size Sample.P4
                ∧ in_closed_box Expected.half (Sample.point 1 1 1)
                                (position Sample.P4 i))
  ∧ Crop Expected.half (Sample.point 1 1 1) Sample.P4 = Ok Expected.P4_cropped.
Proof.
  assert (box_ordered Expected.half (Sample.point 1 1 1)) as Hbox.
  { intros k l u Hl Hu. destruct k as [|[|[|k]]]; simpl in Hl, Hu;
      try discriminate Hl; injection Hl as <-; injection Hu as <-; reflexivity. }
  split; [exact valid_P4|]. split; [exact Hbox|]. split.
  - exact (proj1 (@Crop_keeps_points_in_box byte_platform Sample.P4 Expected.half
                    (Sample.point 1 1 1) valid_P4)
                 eq_refl Hbox).
  - vm_cast_no_check (eq_refl (Ok Expected.P4_cropped)).
Defined.

(** C1 fails on the code: the positions are copied under the guard
    [has_normals()].  For two clouds of three and two points with positions
    only, [Concatenate] returns a cloud of five points whose positions were
    never written (they read as the uninitialised memory of the platform,
    NaN here), not the positions of the inputs; for clouds with normals
    only, the guarded copy of the positions aborts. *)
Theorem Concatenate_skips_positions :
  @valid byte_platform Sample.A ∧ @valid byte_platform Sample.B
  ∧ fields Sample.A = fields Sample.B ∧ size Sample.A = 3 ∧ size Sample.B = 2
  ∧ Concatenate [Sample.A; Sample.B] = Ok Sample.unwritten5
  ∧ columns (Storage.xyzs_ (storage_ Sample.unwritten5))
    ≠ columns (Storage.xyzs_ (storage_ Sample.A))
      ++ columns (Storage.xyzs_ (storage_ Sample.B))
  ∧ Concatenate [Sample.M; Sample.M] = Fail (DemandFailed "has_xyzs()").
Proof.
  split; [exact valid_A|]. split; [exact valid_B|].
  split; [reflexivity|]. split; [reflexivity|]. split; [reflexivity|].
  split; [vm_cast_no_check (eq_refl (Ok Sample.unwritten5))|].
  split; [simpl; discriminate|].
  vm_cast_no_check (eq_refl (@Fail (@PointCloud byte_platform) (DemandFailed "has_xyzs()"))).
Qed.

(** C4 at the example of the spec: (0.1, 0, 0), (0.2, 0, 0) and (5, 0, 0)
    with voxels of size 1.  The first two points fall in the voxel at the
    minimum and the third in the voxel four steps along the first axis; the
    result holds (0.15, 0, 0), the mean of the first two rounded to [float],
    and (5, 0, 0). *)
Lemma VoxelizedDownSample_averages_voxels_witness :
  @valid byte_platform Sample.V3
  ∧ positions_canonical Sample.V3 ∧ voxels_fit Sample.V3 (F64.of_Z 1)
  ∧ (∃ out keys,
      VoxelizedDownSample (F64.of_Z 1) Sample.V3 = Ok out ∧ valid out
      ∧ voxel_means Sample.V3 (F64.of_Z 1) keys out)
  ∧ in_voxel Sample.V3 (F64.of_Z 1) 0 (0, 0, 0)
  ∧ in_voxel Sample.V3 (F64.of_Z 1) 1 (0, 0, 0)
  ∧ in_voxel Sample.V3 (F64.of_Z 1) 2 (4, 0, 0)
  ∧ arithmetic_mean F64.of_float F32.of_double 3
      [[Sample.f32 13421773 (-27); Sample.f32 0 0; Sample.f32 0 0];
       [Sample.f32 13421773 (-26); Sample.f32 0 0; Sample.f32 0 0]]
    = [Sample.f32 10066330 (-26); Sample.f32 0 0; Sample.f32 0 0]
  ∧ VoxelizedDownSample (F64.of_Z 1) Sample.V3 = Ok Expected.V3.
Proof.
  split; [exact valid_V3|]. split; [exact canonical_V3|]. split; [exact fits_V3|].
  split.
  - exact (proj1 (proj1 (@VoxelizedDownSample_averages_voxels byte_platform Sample.V3
                           (F64.of_Z 1) valid_V3)
                        eq_refl eq_refl canonical_V3 fits_V3)).
  - split; [intros [|[|[|a]]] Ha; (reflexivity || lia)|].
    split; [intros [|[|[|a]]] Ha; (reflexivity || lia)|].
    split; [intros [|[|[|a]]] Ha; (reflexivity || lia)|].
    split; [reflexivity|].
    vm_cast_no_check (eq_refl (Ok Expected.V3)).
Defined.

(** C4 as stated fails: a cloud with two finite positions three thousand
    million apart and voxels of size 1.  The voxel coordinate of the second
    point is 3000000000, which is not an [int]: the conversion of the
    quotient to [int] is undefined, and the call returns no cloud. *)
Lemma VoxelizedDownSample_coordinate_overflow :
  @valid byte_platform Sample.Far
  ∧ has_xyzs Sample.Far = true
  ∧ SFgtb (F64.of_Z 1) (F64.of_Z 0) = true
  ∧ finite_point Sample.Far 0 = true ∧ finite_point Sample.Far 1 = true
  ∧ voxel_floor Sample.Far (F64.of_Z 1) 1 = Some (3000000000, 0, 0)
  ∧ in_int 3000000000 = false
  ∧ VoxelizedDownSample (F64.of_Z 1) Sample.Far
    = Fail (UndefinedBehaviour "float to int conversion out of range").
Proof.
  split; [exact valid_Far|].
  split; [reflexivity|]. split; [reflexivity|].
  split; [reflexivity|]. split; [reflexivity|].
  split; [vm_cast_no_check (eq_refl (Some (3000000000, 0, 0)))|].
  split; [reflexivity|].
  vm_cast_no_check
    (eq_refl (@Fail (@PointCloud byte_platform)
                (UndefinedBehaviour "float to int conversion out of range"))).
Qed.

(** C10 at a cloud whose first voxel holds two points, neither with a
    finite normal. *)
Lemma empty_average_is_NaN_witness :
  @valid byte_platform Sample.W3
  ∧ ∃ (out : @PointCloud byte_platform) (keys : list Vector3i),
      VoxelizedDownSample (F64.of_Z 1) Sample.W3 = Ok out
      ∧ (∀ k, k ∈ keys ↔ occupied Sample.W3 (F64.of_Z 1) k)
      ∧ ∀ j k, keys !! j = Some k →
          (has_normals Sample.W3 = true →
           finite_only (pick (bucket Sample.W3 (F64.of_Z 1) k)
                             (Storage.normals_ (storage_ Sample.W3))) = [] →
           columns (Storage.normals_ (storage_ out)) !! j
           = Some (replicate 3 S754_nan))
          ∧ (has_descriptors Sample.W3 = true →
             finite_only (pick (bucket Sample.W3 (F64.of_Z 1) k)
                               (Storage.descriptors_ (storage_ Sample.W3))) = [] →
             columns (Storage.descriptors_ (storage_ out)) !! j
             = Some (replicate (rows (Storage.descriptors_ (storage_ Sample.W3)))
                               S754_nan)).
Proof.
  split; [exact valid_W3|].
  exact (@empty_average_is_NaN byte_platform Sample.W3 (F64.of_Z 1) valid_W3
           eq_refl eq_refl canonical_W3 fit_W3).
Defined.

(** ** The further properties at concrete clouds *)

Lemma valid_unwritten5 : @valid byte_platform Sample.unwritten5.
Proof.
  split;
    [unfold INT_MAX; simpl; lia
    |discriminate
    |reflexivity
    |reflexivity
    |reflexivity
    |let Hp := fresh in
     intros Hp;
     first [vm_compute in Hp; discriminate Hp | repeat split; repeat constructor] ..].
Qed.

(** X1 at a [SetFrom] that throws after it has resized the receiver. *)
Lemma invariant_is_kept_witness :
  @valid byte_platform Sample.A
  ∧ @valid byte_platform (resized_cloud (size Sample.N) false Sample.A).
Proof.
  split; [exact valid_A|].
  apply (@invariant_is_kept byte_platform (call_SetFrom Sample.N Inherit true) Sample.A
           (resized_cloud (size Sample.N) false Sample.A)
           (Fail (RuntimeError "PointCloud does not have the exact expected fields."))
           valid_A valid_N).
  - apply SetFrom_inherit_mismatch; [exact valid_A|exact valid_N|discriminate].
  - right. reflexivity.
Defined.

(** X2 at three points with positions. *)
Lemma constructors_establish_invariant_witness :
  @valid byte_platform (defaulted 0 3 (allocated 3 Sample.XYZs)).
Proof.
  apply (proj1 (@constructors_establish_invariant byte_platform) 3 Sample.XYZs false).
  - unfold INT_MAX. lia.
  - apply (@PointCloud_new_ok byte_platform 3 Sample.XYZs false);
      [discriminate|reflexivity|lia].
Defined.

(** X3 at a cloud of three positions. *)
Lemma move_construction_witness :
  @valid byte_platform Sample.A
  ∧ PointCloud_move Sample.A = Ok (Sample.A, allocated 0 (fields Sample.A)).
Proof.
  split; [exact valid_A|].
  exact (proj1 (@move_construction byte_platform Sample.A valid_A)).
Defined.

(** X4 at a cloud of three positions that grows to five. *)
Lemma resize_edges_witness :
  @valid byte_platform Sample.A
  ∧ ∃ c', resize 5 false Sample.A = (Ok tt, c') ∧ valid c'
          ∧ size c' = 5 ∧ fields c' = fields Sample.A
          ∧ same_prefix (Z.min 5 (size Sample.A)) Sample.A c'.
Proof.
  split; [exact valid_A|].
  apply (@resize_edges byte_platform Sample.A 5 false valid_A).
  - unfold INT_MAX. lia.
  - lia.
Defined.

(** X5 at a cloud of three positions that grows by one and by two. *)
Lemma Expand_composes_witness :
  @valid byte_platform Sample.A
  ∧ ∃ c1 c2 c3,
      Expand 1 false Sample.A = (Ok tt, c1) ∧ Expand 2 false c1 = (Ok tt, c2)
      ∧ Expand (1 + 2) false Sample.A = (Ok tt, c3) ∧ same_data c3 c2.
Proof.
  split; [exact valid_A|].
  apply (@Expand_composes byte_platform Sample.A 1 2 valid_A); [lia|lia|].
  unfold INT_MAX. simpl. lia.
Defined.

(** X6 at two clouds with positions and normals, asked for the positions. *)
Lemma ResolvePairFields_common_witness :
  ResolvePairFields Sample.N Sample.N Sample.XYZs = Ok Sample.XYZs
  ∧ pc_flags.contains (fields Sample.N) Sample.XYZs = true.
Proof.
  split; [reflexivity|].
  exact (proj1 (proj1 (@ResolvePairFields_common byte_platform Sample.N Sample.N
                         Sample.XYZs) Sample.XYZs eq_refl)).
Defined.

(** X7 at a cloud with positions and normals, asked for the positions. *)
Lemma RequireFields_guards_accessors_witness :
  RequireFields Sample.XYZs Sample.N = Ok tt
  ∧ xyzs Sample.N = Ok (Storage.xyzs_ (storage_ Sample.N)).
Proof.
  split; [reflexivity|].
  exact (proj1 (proj1 (@RequireFields_guards_accessors byte_platform Sample.N
                         Sample.XYZs) eq_refl) eq_refl).
Defined.

(** X8 at a cloud of three positions that receives the positions of a
    cloud of two points with positions and normals. *)
Lemma SetFrom_copies_requested_witness :
  @valid byte_platform Sample.A ∧ @valid byte_platform Sample.N
  ∧ ∃ a', SetFrom Sample.N Sample.XYZs true Sample.A = (Ok tt, a') ∧ valid a'
      ∧ size a' = size Sample.N ∧ fields a' = fields Sample.A
      ∧ columns (Storage.xyzs_ (storage_ a'))
        = columns (Storage.xyzs_ (storage_ Sample.N)).
Proof.
  split; [exact valid_A|]. split; [exact valid_N|].
  destruct (@SetFrom_copies_requested byte_platform Sample.A Sample.N Sample.XYZs true
              valid_A valid_N eq_refl eq_refl eq_refl (or_introl eq_refl))
    as (a' & Hrun & Hv & Hs & Hf & Hx & _).
  exists a'. split; [exact Hrun|]. split; [exact Hv|]. split; [exact Hs|].
  split; [exact Hf|exact Hx].
Defined.

(** X9 at the assignment of a cloud of two positions to one of three. *)
Lemma copy_assignment_witness :
  @valid byte_platform Sample.A ∧ @valid byte_platform Sample.B
  ∧ ∃ a', assign_copy Sample.B Sample.A = (Ok tt, a') ∧ valid a'
          ∧ populated_from Sample.B a' ∧ assign_copy Sample.B a' = (Ok tt, a').
Proof.
  split; [exact valid_A|]. split; [exact valid_B|].
  exact (@copy_assignment byte_platform Sample.A Sample.B valid_A valid_B eq_refl).
Defined.

(** X10 at the second of three points. *)
Lemma SetDefault_resets_range_witness :
  @valid byte_platform Sample.A
  ∧ ∃ c', SetDefault 1 1 Sample.A = (Ok tt, c') ∧ valid c'
      ∧ columns (Storage.xyzs_ (storage_ c')) !! 1%nat
        = Some (replicate 3 kDefaultValue)
      ∧ columns (Storage.xyzs_ (storage_ c')) !! 2%nat
        = columns (Storage.xyzs_ (storage_ Sample.A)) !! 2%nat.
Proof.
  split; [exact valid_A|].
  destruct (proj1 (@SetDefault_resets_range byte_platform Sample.A 1 1 valid_A))
    as (c' & Hrun & Hv & _ & _ & Hj); [lia|lia|simpl; lia|].
  exists c'. split; [exact Hrun|]. split; [exact Hv|].
  split; [exact (proj1 (Hj 1%nat) eq_refl)|exact (proj1 (Hj 2%nat) eq_refl)].
Defined.

(** X11 at a cloud with normals only. *)
Lemma Crop_failures_witness :
  Crop (Sample.point 0 0 0) (Sample.point 1 1 1) Sample.M
  = Fail (RuntimeError "PointCloud must have xyzs in order to Crop")
  ∧ Crop [S754_nan; S754_nan; S754_nan] (Sample.point 1 1 1) Sample.P4
    = Fail (DemandFailed "(lower_xyz.array() <= upper_xyz.array()).all()").
Proof.
  split.
  - exact (proj2 (@Crop_failures byte_platform Sample.M (Sample.point 0 0 0)
                    (Sample.point 1 1 1)) eq_refl eq_refl).
  - exact (proj1 (@Crop_failures byte_platform Sample.P4 [S754_nan; S754_nan; S754_nan]
                    (Sample.point 1 1 1)) 0%nat S754_nan (Sample.f32 1 0) eq_refl eq_refl
                 (or_introl eq_refl)).
Defined.


(** X13 at the cropping example of the spec. *)
Lemma Crop_idempotent_witness :
  @valid byte_platform Sample.P4
  ∧ ∃ out again,
      Crop (Sample.point 0 0 0) (Sample.point 1 1 1) Sample.P4 = Ok out
      ∧ Crop (Sample.point 0 0 0) (Sample.point 1 1 1) out = Ok again
      ∧ same_data out again.
Proof.
  split; [exact valid_P4|].
  exact (@Crop_idempotent byte_platform Sample.P4 (Sample.point 0 0 0)
           (Sample.point 1 1 1) valid_P4 eq_refl eq_refl).
Defined.

(** X14 at two clouds of two points with positions and normals. *)
Lemma Concatenate_lays_out_witness :
  @valid byte_platform Sample.N
  ∧ ∃ out, Concatenate [Sample.N; Sample.N] = Ok out ∧ valid out
           ∧ concatenated [Sample.N; Sample.N] (fields Sample.N) out.
Proof.
  split; [exact valid_N|].
  apply (@Concatenate_lays_out byte_platform Sample.N [Sample.N]).
  - repeat (apply Forall_cons; split; [split; [exact valid_N|reflexivity]|]).
    constructor.
  - unfold INT_MAX, total_size, size. simpl. lia.
  - intros _. reflexivity.
Defined.

(** X15 at a cloud with positions followed by one with positions and
    normals. *)
Lemma Concatenate_failures_witness :
  Concatenate [Sample.A; Sample.N]
  = Fail (ThrowUnless "clouds[i].fields() == clouds[0].fields()").
Proof.
  apply (proj1 (proj2 (@Concatenate_failures byte_platform)) Sample.A [Sample.N]).
  - repeat (apply Forall_cons; split; [first [exact valid_A|exact valid_N]|]).
    constructor.
  - unfold INT_MAX, total_size, size. simpl. lia.
  - apply Exists_cons_hd. discriminate.
Defined.

(** X16 at the down-sampling example of the spec. *)
Lemma VoxelizedDownSample_size_witness :
  @valid byte_platform Sample.V3
  ∧ ∃ out, VoxelizedDownSample (F64.of_Z 1) Sample.V3 = Ok out ∧ valid out
      ∧ fields out = fields Sample.V3
      ∧ 0 <= size out <= Z.of_nat (length (finite_points Sample.V3))
      ∧ Z.of_nat (length (finite_points Sample.V3)) <= size Sample.V3
      ∧ (finite_points Sample.V3 ≠ [] → 1 <= size out).
Proof.
  split; [exact valid_V3|].
  exact (@VoxelizedDownSample_size byte_platform Sample.V3 (F64.of_Z 1) valid_V3
           eq_refl eq_refl canonical_V3 fit_V3).
Defined.

(** X17 at the down-sampling example of the spec. *)
Lemma voxel_grid_starts_at_minimum_witness :
  @valid byte_platform Sample.V3
  ∧ ∃ k, voxel_of (F64.of_Z 1) (minima Sample.V3) (position Sample.V3 2) = Ok k
         ∧ voxel_floor Sample.V3 (F64.of_Z 1) 2 = Some k
         ∧ 0 <= k.1.1 ∧ 0 <= k.1.2 ∧ 0 <= k.2.
Proof.
  split; [exact valid_V3|].
  apply (proj1 (@voxel_grid_starts_at_minimum byte_platform Sample.V3 (F64.of_Z 1)
                  valid_V3 eq_refl eq_refl canonical_V3 fit_V3) 2).
  - simpl. lia.
  - reflexivity.
Defined.

(** X18 at the storage of a cloud of three positions. *)
Lemma Storage_resize_checks_witness :
  ∃ s', Storage.resize 5 (storage_ Sample.A) = Ok s' ∧ Storage.size s' = 5
        ∧ Storage.fields_ s' = Storage.fields_ (storage_ Sample.A)
        ∧ Storage.CheckInvariants s' = Ok tt.
Proof.
  apply (proj1 (@Storage_resize_checks byte_platform (storage_ Sample.A) 5)). lia.
Defined.

(** X19 at five points whose coordinates are all NaN. *)
Lemma Crop_everything_drops_NaN_witness :
  @valid byte_platform Sample.unwritten5
  ∧ ∃ out, Crop everything_lower everything_upper Sample.unwritten5 = Ok out
           ∧ valid out ∧ restricted_to (number_points Sample.unwritten5)
                                       Sample.unwritten5 out.
Proof.
  split; [exact valid_unwritten5|].
  exact (@Crop_everything_drops_NaN byte_platform Sample.unwritten5 valid_unwritten5
           eq_refl).
Defined.

(** X20 at a cloud of three positions that grows by four, without
    initialisation, and shrinks back. *)
Lemma Expand_then_resize_back_witness :
  @valid byte_platform Sample.A
  ∧ ∃ c1 c2,
      Expand 4 true Sample.A = (Ok tt, c1) ∧ resize (size Sample.A) false c1 = (Ok tt, c2)
      ∧ valid c2 ∧ same_data Sample.A c2.
Proof.
  split; [exact valid_A|].
  apply (@Expand_then_resize_back byte_platform Sample.A 4 true false valid_A); [lia|].
  unfold INT_MAX. simpl. lia.
Defined.
